(** * VibeVoice server: the audio bridge of [server.py]

    A shallow embedding of the request handlers of [server.py]
    ([generate_podcast], [generate_podcast_wav], [generate_podcast_stream]),
    of [convert_to_16_bit_wav] and of the request model
    [GenerationRequest], with the properties the specification states
    about them; then of [setup_voice_presets], [get_voices] and
    [save_audio_file], with further properties of all of these. *)

From Stdlib Require Import ZArith QArith List String Ascii Bool Lia.
From Stdlib Require Import Numbers.DecimalString.
From Stdlib Require Import Floats.SpecFloat.
Import ListNotations.

Local Open Scope string_scope.
Local Open Scope list_scope.
Local Open Scope Z_scope.

(** ** Exceptions and fallible computations *)

(** What a handler can raise: FastAPI's [HTTPException(status_code, detail)],
    or any other Python exception, of which the handlers only use the class
    (to tell it from [HTTPException]) and [str(e)]. *)
Inductive exn : Type :=
| HTTPException (status_code : Z) (detail : string)
| PyError (cls : string) (msg : string).

Inductive result (A : Type) : Type :=
| Ok (a : A)
| Raise (e : exn).
Arguments Ok {A} a.
Arguments Raise {A} e.

Definition bind {A B : Type} (r : result A) (k : A -> result B) : result B :=
  match r with
  | Ok a => k a
  | Raise e => Raise e
  end.

Notation "x <- r ;; k" := (bind r (fun x => k))
  (at level 61, r at next level, right associativity).

(** A Python [for] loop whose body may raise: the loop state is threaded
    through the iterations and the first exception ends the loop. *)
Fixpoint for_each {A S : Type} (body : S -> A -> result S) (xs : list A) (st : S)
  : result S :=
  match xs with
  | [] => Ok st
  | x :: xs' => st' <- body st x ;; for_each body xs' st'
  end.

(** The handlers' [except HTTPException: raise] followed by
    [except Exception as e: raise HTTPException(500, f"Generation failed: {str(e)}")]. *)
Definition except_clauses {A : Type} (r : result A) : result A :=
  match r with
  | Ok a => Ok a
  | Raise (HTTPException c d) => Raise (HTTPException c d)
  | Raise (PyError _ msg) => Raise (HTTPException 500 ("Generation failed: " ++ msg)%string)
  end.

(** Python's [a % b] on integers: the sign of the result follows [b], as
    [Z.modulo] does; [b = 0] raises. *)
Definition py_mod (a b : Z) : result Z :=
  if b =? 0 then Raise (PyError "ZeroDivisionError" "integer modulo by zero")
  else Ok (a mod b).

(** ** Python strings

    A [str] is modelled by a [string] whose characters are the code points
    below 256. *)
Module PyStr.

Definition nl : ascii := "010"%char.

(** [str.isspace] on one code point: TAB..CR, FS..US, space, NEL, NBSP. *)
Definition isspace (c : ascii) : bool :=
  let n := nat_of_ascii c in
  ((9 <=? n) && (n <=? 13) || (28 <=? n) && (n <=? 32)
   || (n =? 133) || (n =? 160))%nat.

Fixpoint lstrip (s : string) : string :=
  match s with
  | EmptyString => EmptyString
  | String c s' => if isspace c then lstrip s' else s
  end.

Fixpoint rstrip (s : string) : string :=
  match s with
  | EmptyString => EmptyString
  | String c s' =>
      match rstrip s' with
      | EmptyString => if isspace c then EmptyString else String c EmptyString
      | r => String c r
      end
  end.

(** [s.strip()] *)
Definition strip (s : string) : string := rstrip (lstrip s).

(** [s.split(sep)] for a one-character separator: never an empty list. *)
Fixpoint split (sep : ascii) (s : string) : list string :=
  match s with
  | EmptyString => [EmptyString]
  | String c s' =>
      if Ascii.eqb c sep then EmptyString :: split sep s'
      else match split sep s' with
           | [] => [String c EmptyString]
           | w :: ws => String c w :: ws
           end
  end.

(** [sep.join(parts)] *)
Fixpoint join (sep : string) (parts : list string) : string :=
  match parts with
  | [] => EmptyString
  | [p] => p
  | p :: ps => (p ++ sep ++ join sep ps)%string
  end.

(** [s.startswith(p)] *)
Definition startswith (p s : string) : bool := String.prefix p s.

(** [c in s] for a one-character [c]. *)
Fixpoint contains (c : ascii) (s : string) : bool :=
  match s with
  | EmptyString => false
  | String d s' => Ascii.eqb d c || contains c s'
  end.

(** [not s] *)
Definition is_empty (s : string) : bool :=
  match s with
  | EmptyString => true
  | _ => false
  end.

(** [str(n)] for an integer. *)
Definition of_int (n : Z) : string := NilZero.string_of_int (Z.to_int n).

End PyStr.

(** ** Script formatting

    The block "Format script with speaker assignments", the same in
    [generate_podcast] and [generate_podcast_wav]. *)

(** [line.startswith('Speaker ') and ':' in line] *)
Definition has_speaker_format (line : string) : bool :=
  PyStr.startswith "Speaker " line && PyStr.contains ":"%char line.

(** One iteration of [for line in lines], on [formatted_script_lines]. *)
Definition format_line (num_speakers : Z) (formatted_script_lines : list string)
  (line : string) : result (list string) :=
  let line := PyStr.strip line in
  if PyStr.is_empty line then Ok formatted_script_lines
  else if has_speaker_format line then Ok (formatted_script_lines ++ [line])
  else
    r <- py_mod (Z.of_nat (List.length formatted_script_lines)) num_speakers ;;
    let speaker_id := r + 1 in
    Ok (formatted_script_lines
          ++ [("Speaker " ++ PyStr.of_int speaker_id ++ ": " ++ line)%string]).

Definition format_script_lines (num_speakers : Z) (script : string)
  : result (list string) :=
  let lines := PyStr.split PyStr.nl (PyStr.strip script) in
  for_each (format_line num_speakers) lines [].

(** [formatted_script = '\n'.join(formatted_script_lines)] *)
Definition format_script (num_speakers : Z) (script : string) : result string :=
  ls <- format_script_lines num_speakers script ;;
  Ok (PyStr.join (String PyStr.nl EmptyString) ls).

(** ** Single-precision samples

    numpy's [float32] is IEEE 754 binary32; its operations are those of the
    standard library's executable specification at precision 24. *)
Definition float32 : Type := spec_float.

Module F32.

Definition prec : Z := 24.
Definition emax : Z := 128.

Definition mul : float32 -> float32 -> float32 := SFmul prec emax.
Definition div : float32 -> float32 -> float32 := SFdiv prec emax.
Definition abs : float32 -> float32 := SFabs.
Definition ltb : float32 -> float32 -> bool := SFltb.
Definition leb : float32 -> float32 -> bool := SFleb.

(** The [float32] nearest to an integer (exact below [2^24]). *)
Definition of_Z (z : Z) : float32 := binary_normalize prec emax z 0 false.

Definition is_nan (x : float32) : bool :=
  match x with
  | S754_nan => true
  | _ => false
  end.

(** Well-formed binary32 values: a finite one has its canonical mantissa
    and exponent. *)
Definition valid (x : float32) : bool := valid_binary prec emax x.

(** The integer part of a finite value (rounding toward zero); nothing for
    NaN and the infinities. *)
Definition trunc (x : float32) : option Z :=
  match x with
  | S754_zero _ => Some 0
  | S754_finite s m e =>
      let a := if 0 <=? e then Z.shiftl (Zpos m) e else Z.shiftr (Zpos m) (- e) in
      Some (if s then - a else a)
  | S754_infinity _ | S754_nan => None
  end.

End F32.

(** ** numpy arrays

    An array is its shape and its items in row-major order; [len (items a)]
    is the product of [shape a] in a well-formed array. *)
Record ndarray (A : Type) : Type := mk_ndarray {
  shape : list nat;
  items : list A
}.
Arguments mk_ndarray {A} shape items.
Arguments shape {A} n.
Arguments items {A} n.

Definition well_formed {A : Type} (a : ndarray A) : Prop :=
  List.length (items a) = fold_right Nat.mul 1%nat (shape a).

Definition ndim {A : Type} (a : ndarray A) : nat := List.length (shape a).

Definition np_map {A B : Type} (f : A -> B) (a : ndarray A) : ndarray B :=
  mk_ndarray (shape a) (map f (items a)).

(** [len(a)]: the first dimension. *)
Definition py_len {A : Type} (a : ndarray A) : result Z :=
  match shape a with
  | [] => Raise (PyError "TypeError" "len() of unsized object")
  | n :: _ => Ok (Z.of_nat n)
  end.

(** [a.squeeze()]: the axes of length one are removed. *)
Definition np_squeeze {A : Type} (a : ndarray A) : ndarray A :=
  mk_ndarray (filter (fun d => negb (d =? 1)%nat) (shape a)) (items a).

Definition np_abs (a : ndarray float32) : ndarray float32 := np_map F32.abs a.

(** One step of the [maximum] reduction: a NaN operand wins. *)
Definition np_maximum (x y : float32) : float32 :=
  if F32.is_nan x then x
  else if F32.is_nan y then y
  else if F32.ltb x y then y else x.

(** [np.max(a)] over all the items; an array without items has no maximum. *)
Definition np_max (a : ndarray float32) : result float32 :=
  match items a with
  | [] => Raise (PyError "ValueError"
                   "zero-size array to reduction operation maximum which has no identity")
  | x :: xs => Ok (fold_left np_maximum xs x)
  end.

(** [a / s] and [a * s] for a scalar [s], in single precision. *)
Definition np_div (a : ndarray float32) (s : float32) : ndarray float32 :=
  np_map (fun x => F32.div x s) a.

Definition np_mul (a : ndarray float32) (s : float32) : ndarray float32 :=
  np_map (fun x => F32.mul x s) a.

Definition wrap16 (z : Z) : Z := (z + 32768) mod 65536 - 32768.

(** [astype(np.int16)] on one item: the C conversion, which drops the
    fraction.  C leaves the result open when the integer part does not fit
    (or for NaN and the infinities); the value taken here for these is the
    one x86-64 produces: the low 16 bits of the 32-bit conversion. *)
Definition int16_of_float (x : float32) : Z :=
  match F32.trunc x with
  | Some z => if (- 2147483648 <=? z) && (z <? 2147483648) then wrap16 z else 0
  | None => 0
  end.

Definition astype_int16 (a : ndarray float32) : ndarray Z := np_map int16_of_float a.

(** [astype(np.float32)] on an [int16] array: exact. *)
Definition astype_float32 (a : ndarray Z) : ndarray float32 := np_map F32.of_Z a.

Definition zero_dim_error : exn :=
  PyError "ValueError" "zero-dimensional arrays cannot be concatenated".

Definition dim_mismatch_error : exn :=
  PyError "ValueError"
    "all the input array dimensions except for the concatenation axis must match exactly".

(** [np.concatenate(arrs)] along the first axis: every array has at least
    one axis and all agree on the other axes. *)
Definition concatenate_step {A : Type} (acc b : ndarray A) : result (ndarray A) :=
  match shape acc, shape b with
  | n :: rest, m :: rest' =>
      if list_eq_dec Nat.eq_dec rest rest'
      then Ok (mk_ndarray ((n + m)%nat :: rest) (items acc ++ items b))
      else Raise dim_mismatch_error
  | _, _ => Raise zero_dim_error
  end.

Definition np_concatenate {A : Type} (arrs : list (ndarray A)) : result (ndarray A) :=
  match arrs with
  | [] => Raise (PyError "ValueError" "need at least one array to concatenate")
  | a :: rest =>
      match shape a with
      | [] => Raise zero_dim_error
      | _ :: _ => for_each concatenate_step rest a
      end
  end.

(** ** [convert_to_16_bit_wav]

    The handlers call it on [float32] numpy arrays only, so the
    [torch.is_tensor] branch is not taken and [np.array(data)] is the array
    itself; [np.max(np.abs(data))] is evaluated for the test and again for
    the division. *)
Definition convert_to_16_bit_wav (data : ndarray float32) : result (ndarray Z) :=
  peak <- np_max (np_abs data) ;;
  data <- (if F32.ltb (F32.of_Z 1) peak
           then peak' <- np_max (np_abs data) ;; Ok (np_div data peak')
           else Ok data) ;;
  Ok (astype_int16 (np_mul data (F32.of_Z 32767))).

(** ** The request model [GenerationRequest]

    The JSON body as FastAPI hands it to pydantic: a field is absent or
    carries a value of its type.  pydantic validates the fields in the order
    of their declaration and reports every failure; the validator of
    [speakers] runs only on a supplied value and sees in [info.data] the
    fields that validated before it. *)
Record RequestBody : Type := {
  body_script : option string;
  body_num_speakers : option Z;
  body_speakers : option (list string);
  body_cfg_scale : option Q
}.

Record GenerationRequest : Type := {
  script : string;
  num_speakers : Z;
  speakers : list string;
  cfg_scale : Q
}.

(** [Field(..., description=...)]: required. *)
Definition field_script (v : option string) : result string :=
  match v with
  | Some s => Ok s
  | None => Raise (PyError "ValidationError" "script: Field required")
  end.

(** [Field(default=2, ge=1, le=4)] *)
Definition field_num_speakers (v : option Z) : result Z :=
  match v with
  | None => Ok 2
  | Some n =>
      if n <? 1
      then Raise (PyError "ValidationError"
                    "num_speakers: Input should be greater than or equal to 1")
      else if 4 <? n
      then Raise (PyError "ValidationError"
                    "num_speakers: Input should be less than or equal to 4")
      else Ok n
  end.

(** [validate_speakers(cls, v, info)], with [info.data.get('num_speakers', 2)]
    read from the outcome of the field [num_speakers]. *)
Definition validate_speakers (v : list string) (info_data_num_speakers : option Z)
  : result (list string) :=
  let num_speakers :=
    match info_data_num_speakers with
    | Some n => n
    | None => 2
    end in
  let len_v := Z.of_nat (List.length v) in
  if (0 <? len_v) && negb (len_v =? num_speakers)
  then Raise (PyError "ValueError"
                ("Number of speakers (" ++ PyStr.of_int len_v
                 ++ ") must match num_speakers (" ++ PyStr.of_int num_speakers ++ ")")%string)
  else Ok v.

(** [Field(default=[])] with the validator above. *)
Definition field_speakers (v : option (list string)) (num : result Z)
  : result (list string) :=
  match v with
  | None => Ok []
  | Some l =>
      validate_speakers l match num with Ok n => Some n | Raise _ => None end
  end.

(** [Field(default=1.3, ge=1.0, le=2.0)] *)
Definition field_cfg_scale (v : option Q) : result Q :=
  match v with
  | None => Ok (13 # 10)%Q
  | Some x =>
      if negb (Qle_bool 1 x)
      then Raise (PyError "ValidationError"
                    "cfg_scale: Input should be greater than or equal to 1")
      else if negb (Qle_bool x 2)
      then Raise (PyError "ValidationError"
                    "cfg_scale: Input should be less than or equal to 2")
      else Ok x
  end.

Definition error_of {A : Type} (r : result A) : list exn :=
  match r with
  | Ok _ => []
  | Raise e => [e]
  end.

(** Building a [GenerationRequest] from a body: the request, or the errors
    of all the fields that failed. *)
Definition validate_request (body : RequestBody) : list exn + GenerationRequest :=
  let r_script := field_script (body_script body) in
  let r_num := field_num_speakers (body_num_speakers body) in
  let r_speakers := field_speakers (body_speakers body) r_num in
  let r_cfg := field_cfg_scale (body_cfg_scale body) in
  match r_script, r_num, r_speakers, r_cfg with
  | Ok s, Ok n, Ok l, Ok c =>
      inr {| script := s; num_speakers := n; speakers := l; cfg_scale := c |}
  | _, _, _, _ =>
      inl (error_of r_script ++ error_of r_num ++ error_of r_speakers
             ++ error_of r_cfg)
  end.

(** ** The server and its collaborators *)

(** [vibe_server]: the fields the handlers read.  [available_voices] is the
    dict of [setup_voice_presets], in its (alphabetical) key order;
    [processor] is [None] until [initialize] has loaded it, and a call of it
    either raises or yields the model inputs, which only the model reads. *)
Record VibeVoiceServer : Type := {
  is_initialized : bool;
  available_voices : list (string * string);
  processor : option (string -> list (list float32) -> result unit)
}.

(** What the handlers get from outside the process: the waveform
    [read_audio] decodes from a path (empty when decoding raised),
    [int(os.getenv("SAMPLE_RATE", "24000"))], and soundfile's [sf.write] of
    16-bit samples at a rate, as the encoded bytes. *)
Record World : Type := {
  read_audio : string -> list float32;
  env_sample_rate : result Z;
  sf_write : ndarray Z -> Z -> result string
}.

(** [base64.b64encode(bytes).decode('utf-8')] *)
Definition b64_alphabet : string :=
  "ABCDEFGHIJKLMNOPQRSTUVWXYZabcdefghijklmnopqrstuvwxyz0123456789+/".

Definition b64_digit (n : N) : ascii :=
  match String.get (N.to_nat n) b64_alphabet with
  | Some c => c
  | None => "="%char
  end.

Fixpoint b64encode (bytes : string) : string :=
  match bytes with
  | EmptyString => EmptyString
  | String a EmptyString =>
      let x := N_of_ascii a in
      String (b64_digit (x / 4))
        (String (b64_digit (x mod 4 * 16)) "==")
  | String a (String b EmptyString) =>
      let x := N_of_ascii a in
      let y := N_of_ascii b in
      String (b64_digit (x / 4))
        (String (b64_digit (x mod 4 * 16 + y / 16))
           (String (b64_digit (y mod 16 * 4)) "="))
  | String a (String b (String c rest)) =>
      let x := N_of_ascii a in
      let y := N_of_ascii b in
      let z := N_of_ascii c in
      String (b64_digit (x / 4))
        (String (b64_digit (x mod 4 * 16 + y / 16))
           (String (b64_digit (y mod 16 * 4 + z / 64))
              (String (b64_digit (z mod 64)) (b64encode rest))))
  end%N.

(** [name in d] and [d[name]] on a dict kept as an association list. *)
Definition dict_mem (name : string) (d : list (string * string)) : bool :=
  existsb (fun kv => String.eqb (fst kv) name) d.

Definition dict_get (name : string) (d : list (string * string)) : result string :=
  match find (fun kv => String.eqb (fst kv) name) d with
  | Some kv => Ok (snd kv)
  | None => Raise (PyError "KeyError" name)
  end.

Definition list_mem (name : string) (l : list string) : bool :=
  existsb (String.eqb name) l.

(** [l[:n]] *)
Definition py_prefix {A : Type} (n : Z) (l : list A) : list A :=
  if 0 <=? n then firstn (Z.to_nat n) l
  else firstn (List.length l - Z.to_nat (- n)) l.

Definition default_speakers : list string :=
  ["en-Alice_woman"; "en-Carter_man"; "en-Frank_man"; "en-Maya_woman"].

(** [generate_podcast], "Use default speakers if none specified". *)
Definition default_selection (srv : VibeVoiceServer) (num_speakers : Z)
  : list string :=
  let available_speakers := map fst (available_voices srv) in
  let selected_speakers :=
    filter (fun speaker => list_mem speaker available_speakers)
      (py_prefix num_speakers default_speakers) in
  let remaining := num_speakers - Z.of_nat (List.length selected_speakers) in
  fst (fold_left
         (fun (st : list string * Z) speaker =>
            let (selected, remaining) := st in
            if remaining <=? 0 then st
            else if negb (list_mem speaker selected)
                 then (selected ++ [speaker], remaining - 1)
                 else st)
         available_speakers (selected_speakers, remaining)).

(** "Validate all speakers exist" *)
Definition check_speakers (srv : VibeVoiceServer) (selected_speakers : list string)
  : result unit :=
  for_each
    (fun (_ : unit) speaker =>
       if negb (dict_mem speaker (available_voices srv))
       then Raise (HTTPException 400 ("Speaker '" ++ speaker ++ "' not found")%string)
       else Ok tt)
    selected_speakers tt.

(** "Load voice samples" *)
Definition load_voice_samples (w : World) (srv : VibeVoiceServer)
  (selected_speakers : list string) : result (list (list float32)) :=
  for_each
    (fun voice_samples speaker_name =>
       audio_path <- dict_get speaker_name (available_voices srv) ;;
       let audio_data := read_audio w audio_path in
       if (List.length audio_data =? 0)%nat
       then Raise (HTTPException 500 ("Failed to load audio for " ++ speaker_name)%string)
       else Ok (voice_samples ++ [audio_data]))
    selected_speakers [].

(** [vibe_server.processor(text=[formatted_script], voice_samples=[voice_samples], ...)] *)
Definition call_processor (srv : VibeVoiceServer) (formatted_script : string)
  (voice_samples : list (list float32)) : result unit :=
  match processor srv with
  | None => Raise (PyError "TypeError" "'NoneType' object is not callable")
  | Some p => p formatted_script voice_samples
  end.

(** ** Audio chunks and the channel to the generation thread *)

(** What the stream yields: a torch tensor of some dtype, or anything else
    [np.array] accepts.  The samples are kept in single precision, in which
    every [bfloat16] value is exact, so the conversions of the loop body
    ([.float()], [.cpu().numpy().astype(np.float32)], [np.array(...,
    dtype=np.float32)]) leave them as they are. *)
Inductive torch_dtype : Type := BFloat16 | Float32.

Inductive audio_chunk : Type :=
| Tensor (dtype : torch_dtype) (t : ndarray float32)
| ArrayLike (a : ndarray float32).

(** "Convert tensor to numpy" *)
Definition chunk_to_numpy (audio_chunk : audio_chunk) : ndarray float32 :=
  match audio_chunk with
  | Tensor dtype t =>
      let t := match dtype with
               | BFloat16 => t   (* audio_chunk.float() *)
               | Float32 => t
               end in
      t                          (* .cpu().numpy().astype(np.float32) *)
  | ArrayLike a => a             (* np.array(audio_chunk, dtype=np.float32) *)
  end.

(** The body of [for audio_chunk in audio_stream], on [all_audio_chunks]. *)
Definition collect_chunk (all_audio_chunks : list (ndarray Z))
  (audio_chunk : audio_chunk) : result (list (ndarray Z)) :=
  let audio_np := chunk_to_numpy audio_chunk in
  let audio_np := if (1 <? ndim audio_np)%nat then np_squeeze audio_np else audio_np in
  audio_16bit <- convert_to_16_bit_wav audio_np ;;
  Ok (all_audio_chunks ++ [audio_16bit]).

(** What the generation thread does to the streamer, in order, and how the
    call of [vibe_server.model.generate] ends.  The thread is started with a
    bare [lambda]: an exception ends the thread and reaches nobody. *)
Inductive worker_action : Type :=
| Put (chunk : audio_chunk)
| End.

Inductive worker_exit : Type :=
| Returned
| Raised (reason : string)
| StillRunning.

Record worker : Type := {
  actions : list worker_action;
  exit : worker_exit
}.

Inductive item : Type :=
| Chunk (c : audio_chunk)
| StopSignal.

Definition item_of (a : worker_action) : item :=
  match a with
  | Put c => Chunk c
  | End => StopSignal
  end.

(** Where the handler's [for] loop stands. *)
Inductive loop_state : Type :=
| Iterating (all_audio_chunks : list (ndarray Z))
| LoopEnded (all_audio_chunks : list (ndarray Z))
| LoopRaised (e : exn).

(** Modelled from the spec: the channel of section 4.1, which the handlers
    build as [AudioStreamer(batch_size=1, stop_signal=None, timeout=None)]
    and read through [get_stream(0)]; the class is in
    [vibevoice.modular.streamer], not among the sources.  It is an ordered,
    unbounded handoff queue: the producer pushes chunks and closes, a pull
    blocks until an item is there.  The handlers pass [timeout=None], so a
    pull has no wait timeout. *)
Record bridge : Type := {
  pending : list worker_action;
  queue : list item;
  consumer : loop_state
}.

(** Which of the two threads moves next. *)
Inductive turn : Type := WorkerTurn | HandlerTurn.

(** The generation thread performs its next action on the streamer. *)
Definition worker_step (b : bridge) : bridge :=
  match pending b with
  | [] => b
  | a :: rest =>
      {| pending := rest; queue := queue b ++ [item_of a]; consumer := consumer b |}
  end.

(** The handler asks the iterator for the next item: it stays blocked on an
    empty queue, leaves the loop on the stop signal, and runs the loop body
    on a chunk. *)
Definition handler_step (b : bridge) : bridge :=
  match consumer b with
  | Iterating all_audio_chunks =>
      match queue b with
      | [] => b
      | StopSignal :: q =>
          {| pending := pending b; queue := q; consumer := LoopEnded all_audio_chunks |}
      | Chunk c :: q =>
          {| pending := pending b; queue := q;
             consumer := match collect_chunk all_audio_chunks c with
                         | Ok chunks => Iterating chunks
                         | Raise e => LoopRaised e
                         end |}
      end
  | _ => b
  end.

Definition step (b : bridge) (t : turn) : bridge :=
  match t with
  | WorkerTurn => worker_step b
  | HandlerTurn => handler_step b
  end.

(** [generation_thread.start()] with [all_audio_chunks = []]. *)
Definition start (wk : worker) : bridge :=
  {| pending := actions wk; queue := []; consumer := Iterating [] |}.

(** The two threads interleaved as the schedule says. *)
Definition run (schedule : list turn) (b : bridge) : bridge :=
  fold_left step schedule b.

(** ** The handlers *)

(** How a request ends: with a response, with the error response FastAPI
    builds from an [HTTPException], without an answer as far as the schedule
    goes, or refused by FastAPI because the body did not validate. *)
Inductive outcome (A : Type) : Type :=
| Responds (a : A)
| Fails (status_code : Z) (detail : string)
| Waiting
| Unprocessable (errors : list exn).
Arguments Responds {A} a.
Arguments Fails {A} status_code detail.
Arguments Waiting {A}.
Arguments Unprocessable {A} errors.

(** The end of a handler body: [except HTTPException: raise], then
    [except Exception as e: raise HTTPException(500, "Generation failed: ...")]. *)
Definition respond {A : Type} (r : result A) : outcome A :=
  match except_clauses r with
  | Ok a => Responds a
  | Raise (HTTPException c d) => Fails c d
  | Raise (PyError _ msg) => Fails 500 ("Generation failed: " ++ msg)%string
  end.

(** [int / int] in Python: the quotient (as a double; kept exact here). *)
Definition py_truediv (a b : Z) : result Q :=
  if b =? 0 then Raise (PyError "ZeroDivisionError" "division by zero")
  else if 0 <? b then Ok (Qmake a (Z.to_pos b))
       else Ok (Qmake (- a) (Z.to_pos (- b))).

(** "Combine all audio chunks" *)
Definition combine_chunks (all_audio_chunks : list (ndarray Z))
  : result (ndarray float32) :=
  match all_audio_chunks with
  | _ :: _ =>
      a <- np_concatenate all_audio_chunks ;; Ok (astype_float32 a)
  | [] => Raise (HTTPException 500 "No audio chunks were generated")
  end.

(** [sample_rate = int(os.getenv(...))] and [duration = len(audio_data) / sample_rate] *)
Definition measure (w : World) (audio_data : ndarray float32) : result (Z * Q) :=
  sample_rate <- env_sample_rate w ;;
  n <- py_len audio_data ;;
  duration <- py_truediv n sample_rate ;;
  Ok (sample_rate, duration).

(** [audio_to_base64(audio_data, sample_rate)] *)
Definition audio_to_base64 (w : World) (audio_data : ndarray float32)
  (sample_rate : Z) : result string :=
  audio_16bit <- convert_to_16_bit_wav audio_data ;;
  wav_bytes <- sf_write w audio_16bit sample_rate ;;
  Ok (b64encode wav_bytes).

(** The response of [POST /generate], without the fields that carry clock
    readings ([generation_id], [message]). *)
Record GenerationResponse : Type := {
  status : string;
  audio_base64 : string;
  duration : Q;
  sample_rate : Z
}.

(** [generate_podcast], from "Validate script" to the call of the processor. *)
Definition prepare_generate (w : World) (srv : VibeVoiceServer)
  (request : GenerationRequest) : result unit :=
  _ <- (if PyStr.is_empty (PyStr.strip (script request))
        then Raise (HTTPException 400 "Script cannot be empty")
        else Ok tt) ;;
  let script := script request in      (* .replace("'", "'") *)
  let selected_speakers :=
    match speakers request with
    | [] => default_selection srv (num_speakers request)
    | _ :: _ => speakers request
    end in
  _ <- check_speakers srv selected_speakers ;;
  voice_samples <- load_voice_samples w srv selected_speakers ;;
  formatted_script <- format_script (num_speakers request) script ;;
  call_processor srv formatted_script voice_samples.

(** [generate_podcast], after the loop.  [generation_thread.join(timeout=10.0)]
    waits ten seconds at most and its result is not looked at;
    [save_audio_file] catches every exception and its result is not used. *)
Definition finish_generate (w : World) (all_audio_chunks : list (ndarray Z))
  : result GenerationResponse :=
  audio_data <- combine_chunks all_audio_chunks ;;
  m <- measure w audio_data ;;
  let (sample_rate, duration) := m in
  audio_base64 <- audio_to_base64 w audio_data sample_rate ;;
  Ok {| status := "success"; audio_base64 := audio_base64;
        duration := duration; sample_rate := sample_rate |}.

(** The part both handlers share: the thread is started, the sample rate is
    read a first time, and the stream is iterated, as far as [schedule] goes. *)
Definition stream_and_finish {A : Type} (w : World) (wk : worker)
  (schedule : list turn) (finish : list (ndarray Z) -> result A) : outcome A :=
  match env_sample_rate w with
  | Raise e => respond (Raise e)
  | Ok _ =>
      match consumer (run schedule (start wk)) with
      | Iterating _ => Waiting
      | LoopRaised e => respond (Raise e)
      | LoopEnded all_audio_chunks => respond (finish all_audio_chunks)
      end
  end.

(** [POST /generate] *)
Definition generate_podcast (w : World) (srv : VibeVoiceServer)
  (request : GenerationRequest) (wk : worker) (schedule : list turn)
  : outcome GenerationResponse :=
  if negb (is_initialized srv) then Fails 503 "Server is still initializing"
  else
    match prepare_generate w srv request with
    | Raise e => respond (Raise e)
    | Ok _ => stream_and_finish w wk schedule (finish_generate w)
    end.

(** The [FileResponse] of [POST /generate/wav]: the bytes written to the
    temporary file and the header [X-Duration]. *)
Record WavResponse : Type := {
  wav_bytes : string;
  x_duration : Q
}.

(** [generate_podcast_wav], from the top to the call of the processor. *)
Definition prepare_generate_wav (w : World) (srv : VibeVoiceServer)
  (request : GenerationRequest) : result unit :=
  let script := PyStr.strip (script request) in
  _ <- (if PyStr.is_empty script
        then Raise (HTTPException 400 "Script cannot be empty")
        else Ok tt) ;;
  selected_speakers <-
    match speakers request with
    | _ :: _ => Ok (py_prefix (num_speakers request) (speakers request))
    | [] =>
        let available_speaker_list := map fst (available_voices srv) in
        let n := Z.of_nat (List.length available_speaker_list) in
        if n <? num_speakers request
        then Raise (HTTPException 400
                      ("Requested " ++ PyStr.of_int (num_speakers request)
                       ++ " speakers but only " ++ PyStr.of_int n ++ " available")%string)
        else Ok (py_prefix (num_speakers request) available_speaker_list)
    end ;;
  _ <- check_speakers srv selected_speakers ;;
  voice_samples <- load_voice_samples w srv selected_speakers ;;
  formatted_script <- format_script (num_speakers request) script ;;
  call_processor srv formatted_script voice_samples.

(** [generate_podcast_wav], after the loop. *)
Definition finish_generate_wav (w : World) (all_audio_chunks : list (ndarray Z))
  : result WavResponse :=
  audio_data <- combine_chunks all_audio_chunks ;;
  m <- measure w audio_data ;;
  let (sample_rate, duration) := m in
  audio_16bit <- convert_to_16_bit_wav audio_data ;;
  wav_bytes <- sf_write w audio_16bit sample_rate ;;
  Ok {| wav_bytes := wav_bytes; x_duration := duration |}.

(** [POST /generate/wav] *)
Definition generate_podcast_wav (w : World) (srv : VibeVoiceServer)
  (request : GenerationRequest) (wk : worker) (schedule : list turn)
  : outcome WavResponse :=
  match prepare_generate_wav w srv request with
  | Raise e => respond (Raise e)
  | Ok _ => stream_and_finish w wk schedule (finish_generate_wav w)
  end.

(** One line of the [application/x-ndjson] body of [POST /generate/stream]. *)
Record frame : Type := {
  frame_type : string;
  frame_message : string
}.

(** [POST /generate/stream]: the frames of [generate_stream()]. *)
Definition generate_podcast_stream (srv : VibeVoiceServer)
  (request : GenerationRequest) : outcome (list frame) :=
  if negb (is_initialized srv) then Fails 503 "Server is still initializing"
  else
    Responds [ {| frame_type := "status"; frame_message := "Generation starting..." |};
               {| frame_type := "complete";
                  frame_message := "Streaming not yet fully implemented" |} ].

(** FastAPI in front of a handler: the body is validated into the request
    model first, and a handler runs only on a request that validated.  The
    dependency [verify_api_key], which answers 401 on a wrong key, and the
    logging middleware are left out. *)
Definition endpoint {A : Type} (handler : GenerationRequest -> outcome A)
  (body : RequestBody) : outcome A :=
  match validate_request body with
  | inl errors => Unprocessable errors
  | inr request => handler request
  end.

Definition post_generate (w : World) (srv : VibeVoiceServer) (body : RequestBody)
  (wk : worker) (schedule : list turn) : outcome GenerationResponse :=
  endpoint (fun request => generate_podcast w srv request wk schedule) body.

Definition post_generate_wav (w : World) (srv : VibeVoiceServer) (body : RequestBody)
  (wk : worker) (schedule : list turn) : outcome WavResponse :=
  endpoint (fun request => generate_podcast_wav w srv request wk schedule) body.

Definition post_generate_stream (srv : VibeVoiceServer) (body : RequestBody)
  : outcome (list frame) :=
  endpoint (generate_podcast_stream srv) body.

(** ** What the specification says of the formatting, in its words *)

(** The lines the loop keeps: the lines of the stripped script, each
    stripped, without those that are then empty. *)
Definition script_lines (script : string) : list string :=
  filter (fun line => negb (PyStr.is_empty line))
    (map PyStr.strip (PyStr.split PyStr.nl (PyStr.strip script))).

(** A kept line at a position among the formatted lines: as it is when it
    has the speaker format, else under the label of that position. *)
Definition label_line (num_speakers : Z) (position : nat) (line : string) : string :=
  if has_speaker_format line then line
  else ("Speaker " ++ PyStr.of_int (Z.of_nat position mod num_speakers + 1)
        ++ ": " ++ line)%string.

Fixpoint label_from (num_speakers : Z) (position : nat) (lines : list string)
  : list string :=
  match lines with
  | [] => []
  | line :: rest =>
      label_line num_speakers position line :: label_from num_speakers (S position) rest
  end.

Definition labelled_script (num_speakers : Z) (script : string) : list string :=
  label_from num_speakers 0 (script_lines script).

(** ** The loop, read off the stream *)

(** The state of the loop once it has taken the given items, in order. *)
Fixpoint drain (its : list item) (all_audio_chunks : list (ndarray Z)) : loop_state :=
  match its with
  | [] => Iterating all_audio_chunks
  | StopSignal :: _ => LoopEnded all_audio_chunks
  | Chunk c :: rest =>
      match collect_chunk all_audio_chunks c with
      | Ok chunks => drain rest chunks
      | Raise e => LoopRaised e
      end
  end.

(** Everything the generation thread ever hands to the streamer. *)
Definition stream_items (wk : worker) : list item := map item_of (actions wk).

(** The chunks handed over before the stream is closed. *)
Fixpoint chunks_before_stop (its : list item) : list audio_chunk :=
  match its with
  | Chunk c :: rest => c :: chunks_before_stop rest
  | _ => []
  end.

Definition produced_chunks (wk : worker) : list audio_chunk :=
  chunks_before_stop (stream_items wk).

(** The worker closes its stream at some point. *)
Definition closes (wk : worker) : Prop := In End (actions wk).

(** A chunk as the loop body hands it to [convert_to_16_bit_wav]: in single
    precision, squeezed when it has more than one axis. *)
Definition flatten_chunk (c : audio_chunk) : ndarray float32 :=
  let audio_np := chunk_to_numpy c in
  if (1 <? ndim audio_np)%nat then np_squeeze audio_np else audio_np.

(** [audio_data] at the end of a run, when the run gets that far. *)
Definition assembled_audio (wk : worker) (schedule : list turn)
  : option (ndarray float32) :=
  match consumer (run schedule (start wk)) with
  | LoopEnded all_audio_chunks =>
      match combine_chunks all_audio_chunks with
      | Ok audio_data => Some audio_data
      | Raise _ => None
      end
  | _ => None
  end.

(** What holds of the bridge all along a run: the loop has taken a prefix of
    the worker's items, and while it iterates the rest is in the queue or
    still to come. *)
Definition bridge_inv (all : list item) (b : bridge) : Prop :=
  exists consumed,
    consumer b = drain consumed [] /\
    match consumer b with
    | Iterating _ => all = consumed ++ queue b ++ map item_of (pending b)
    | _ => exists rest, all = consumed ++ rest
    end.

(** A request reaches the generation: the server is initialised, the steps
    before the thread is started succeed and the sample rate reads. *)
Definition reaches_generation (w : World) (srv : VibeVoiceServer)
  (request : GenerationRequest) : Prop :=
  is_initialized srv = true /\
  prepare_generate w srv request = Ok tt /\
  exists r, env_sample_rate w = Ok r.

Definition reaches_generation_wav (w : World) (srv : VibeVoiceServer)
  (request : GenerationRequest) : Prop :=
  prepare_generate_wav w srv request = Ok tt /\
  exists r, env_sample_rate w = Ok r.

(** A handler that has no answer however long the two threads run. *)
Definition never_answers {A : Type} (handler : list turn -> outcome A) : Prop :=
  forall schedule, handler schedule = Waiting.

(** The schedule that lets the worker do [n] actions and then the handler
    take [n] items. *)
Definition settle (n : nat) : list turn :=
  repeat WorkerTurn n ++ repeat HandlerTurn n.

(** A chunk whose items number what its shape says. *)
Definition chunk_well_formed (c : audio_chunk) : Prop :=
  well_formed (chunk_to_numpy c).

(** [num_speakers] as the body asks for it: the field, or its default. *)
Definition requested_num_speakers (body : RequestBody) : Z :=
  match body_num_speakers body with
  | Some n => n
  | None => 2
  end.

(** The constants of [convert_to_16_bit_wav], in single precision. *)
Definition f32_one : float32 := F32.of_Z 1.
Definition f32_scale : float32 := F32.of_Z 32767.

(** One sample quantised as it stands, and quantised after the division by
    the peak. *)
Definition quantise (x : float32) : Z := int16_of_float (F32.mul x f32_scale).

Definition quantise_rescaled (peak x : float32) : Z :=
  int16_of_float (F32.mul (F32.div x peak) f32_scale).

(** The integer part of [x * 32767], before any cast to 16 bits. *)
Definition unrescaled_value (x : float32) : option Z :=
  F32.trunc (F32.mul x f32_scale).

(** ** Rounding to single precision, step by step *)

(** The exponent single precision gives a value of [k] binary digits. *)
Definition fexp32 (k : Z) : Z := Z.max (k - 24) (-149).

(** The mantissa and the exponent [binary_round_aux] ends with. *)
Definition round_core (M E : Z) (l : location) : Z * Z :=
  let '(mrs', e') := shr_fexp F32.prec F32.emax M E l in
  let '(mrs'', e'') :=
    shr_fexp F32.prec F32.emax
      (round_nearest_even (shr_m mrs') (loc_of_shr_record mrs')) e' loc_Exact in
  (shr_m mrs'', e'').

(** The value [binary_round_aux] builds from them. *)
Definition of_core (s : bool) (c : Z * Z) : float32 :=
  match fst c with
  | Z0 => S754_zero s
  | Zpos m => if snd c <=? 104 then S754_finite s m (snd c) else S754_infinity s
  | Zneg _ => S754_nan
  end.

(** By how many bits the first step shifts. *)
Definition shift1 (M E : Z) : Z := Z.max 0 (fexp32 (Zdigits2 M + E) - E).

(** 2.0 *)
Definition f32_two : float32 := S754_finite false 8388608 (-22).

(** A value of magnitude at most 2.0, read off its representation. *)
Definition at_most_two (x : float32) : Prop :=
  match x with
  | S754_zero _ => True
  | S754_finite _ m e => e < -22 \/ (e = -22 /\ Zpos m <= 8388608)
  | _ => False
  end.

(** A value whose sign bit is clear, as every [np.abs] gives. *)
Definition sign_clear (x : float32) : Prop :=
  match x with
  | S754_zero s | S754_infinity s | S754_finite s _ _ => s = false
  | S754_nan => True
  end.

(** -1.0 *)
Definition f32_minus_one : float32 := S754_finite true 8388608 (-23).

(** ** Sample data *)
Module Sample.

(** 0.5 and 0.25 *)
Definition half : float32 := S754_finite false 8388608 (-24).
Definition quarter : float32 := S754_finite false 8388608 (-25).

Definition hello_world : string :=
  ("Hello" ++ String PyStr.nl "World")%string.

Definition voices : list (string * string) :=
  [("en-Alice_woman", "voices/en-Alice_woman.wav");
   ("en-Carter_man", "voices/en-Carter_man.wav")].

(** The server once [initialize] has run. *)
Definition srv : VibeVoiceServer :=
  {| is_initialized := true;
     available_voices := voices;
     processor := Some (fun _ _ => Ok tt) |}.

(** The server as [VibeVoiceServer.__init__] leaves it. *)
Definition srv_starting : VibeVoiceServer :=
  {| is_initialized := false; available_voices := []; processor := None |}.

(** The little-endian bytes of the samples, standing for the file
    soundfile writes. *)
Definition pcm_bytes (a : ndarray Z) : string :=
  fold_right
    (fun z s =>
       let u := Z.to_N (z mod 65536) in
       String (ascii_of_N (u mod 256)) (String (ascii_of_N (u / 256)) s))
    EmptyString (items a).

(** Two-sample voice files, a rate of 24000, and a writer that refuses a
    negative rate. *)
Definition world : World :=
  {| read_audio := fun _ => [half; quarter];
     env_sample_rate := Ok 24000;
     sf_write := fun a rate =>
                   if rate <? 0
                   then Raise (PyError "LibsndfileError" "Error opening file")
                   else Ok (pcm_bytes a) |}.

Definition request : GenerationRequest :=
  {| script := hello_world; num_speakers := 2; speakers := [];
     cfg_scale := (13 # 10)%Q |}.

(** A body with three speakers named for two. *)
Definition body_three_for_two : RequestBody :=
  {| body_script := Some hello_world; body_num_speakers := Some 2;
     body_speakers := Some ["A"; "B"; "C"]%string; body_cfg_scale := None |}.

(** Two chunks, the first a [bfloat16] tensor with a batch axis, then the
    stop signal. *)
Definition wk : worker :=
  {| actions := [Put (Tensor BFloat16 (mk_ndarray [1; 2]%nat [half; quarter]));
                 Put (ArrayLike (mk_ndarray [1]%nat [f32_two]));
                 End];
     exit := Returned |}.

(** A worker that closes the stream without a chunk. *)
Definition wk_empty : worker := {| actions := [End]; exit := Returned |}.

(** A worker whose [generate] raises at once. *)
Definition wk_raises : worker :=
  {| actions := []; exit := Raised "CUDA out of memory" |}.

(** A worker that hands over one chunk and then neither goes on nor
    closes the stream. *)
Definition wk_stuck : worker :=
  {| actions := [Put (ArrayLike (mk_ndarray [1]%nat [half]))];
     exit := StillRunning |}.

Definition schedule : list turn :=
  [WorkerTurn; HandlerTurn; HandlerTurn; WorkerTurn; WorkerTurn; HandlerTurn;
   HandlerTurn].

End Sample.

(** ** What the formatting hands to the processor *)

(** A line of the formatted script as the processor expects it: it has the
    speaker format, is not empty, has no white space at either end and no
    line break inside. *)
Definition speaker_turn (l : string) : Prop :=
  has_speaker_format l = true /\
  l <> EmptyString /\
  PyStr.strip l = l /\
  PyStr.contains PyStr.nl l = false.

(** ** The speakers of a request *)

(** [list(vibe_server.available_voices.keys())] *)
Definition available_speakers (srv : VibeVoiceServer) : list string :=
  map fst (available_voices srv).

(** The preset names [generate_podcast] selects first: those of the first
    [num_speakers] that are available. *)
Definition preset_speakers (srv : VibeVoiceServer) (num_speakers : Z) : list string :=
  filter (fun speaker => list_mem speaker (available_speakers srv))
    (py_prefix num_speakers default_speakers).

(** The voices it fills up with: the available ones, in the order of the
    dict, that are not selected yet. *)
Definition other_speakers (srv : VibeVoiceServer) (selected : list string)
  : list string :=
  filter (fun speaker => negb (list_mem speaker selected)) (available_speakers srv).

(** [speaker in vibe_server.available_voices] *)
Definition known_speaker (srv : VibeVoiceServer) (speaker : string) : Prop :=
  dict_mem speaker (available_voices srv) = true.

(** ** Chunks that make a response *)

(** A chunk the handlers can use: its items number what its shape says,
    there is at least one, and it has a single axis once the loop body has
    squeezed it. *)
Definition playable_chunk (c : audio_chunk) : Prop :=
  chunk_well_formed c /\
  items (chunk_to_numpy c) <> [] /\
  ndim (flatten_chunk c) = 1%nat.

(** All the samples of the chunks, in order. *)
Definition all_samples (cs : list audio_chunk) : list float32 :=
  List.concat (map (fun c => items (chunk_to_numpy c)) cs).

(** The worker with the same actions up to its first [End], and nothing
    after it. *)
Fixpoint until_end (acts : list worker_action) : list worker_action :=
  match acts with
  | [] => []
  | End :: _ => [End]
  | Put c :: rest => Put c :: until_end rest
  end.

Definition cut_at_end (wk : worker) : worker :=
  {| actions := until_end (actions wk); exit := exit wk |}.

(** ** Samples within full scale *)

(** A value of magnitude at most 1.0, read off its representation. *)
Definition at_most_one (x : float32) : Prop :=
  match x with
  | S754_zero _ => True
  | S754_finite _ m e => e < -23 \/ (e = -23 /\ Zpos m <= 8388608)
  | _ => False
  end.

(** The sample of full scale with the sign of [x]. *)
Definition full_scale (s : bool) : Z := if s then -32767 else 32767.

(** A value of magnitude at most that of the finite value with mantissa
    [mp] and exponent [ep], read off the representations. *)
Definition no_louder (mp : positive) (ep : Z) (x : float32) : Prop :=
  match x with
  | S754_zero _ => True
  | S754_finite _ m e => e < ep \/ (e = ep /\ Zpos m <= Zpos mp)
  | _ => False
  end.

(** Zero or a finite value: what a sample of a waveform is. *)
Definition is_sample (x : float32) : Prop :=
  match x with
  | S754_zero _ | S754_finite _ _ _ => True
  | _ => False
  end.

(** ** The host: environment, files and clock *)

(** [datetime.now()], as the fields [strftime] formats. *)
Record datetime : Type := {
  year : nat;
  month : nat;
  day : nat;
  hour : nat;
  minute : nat;
  second : nat
}.

(** What [setup_voice_presets] and [save_audio_file] ask
    of the machine: the environment variables, [os.path.exists],
    [os.listdir] (the names in the directory, or the [OSError] it raises),
    [os.path.isfile], the clock, [os.makedirs(path, exist_ok=True)] and
    soundfile's [sf.write] to a path. *)
Record Host : Type := {
  environ : string -> option string;
  path_exists : string -> bool;
  listdir : string -> result (list string);
  isfile : string -> bool;
  datetime_now : datetime;
  makedirs : string -> result unit;
  sf_write_file : string -> ndarray Z -> Z -> result unit
}.

(** [os.getenv(name, default)] *)
Definition os_getenv (h : Host) (name default : string) : string :=
  match environ h name with
  | Some v => v
  | None => default
  end.

(** ** More of Python's strings and paths *)

(** [c.lower()] on one code point below 256: the letters A-Z and the capital
    letters of Latin-1 (U+00C0..U+00DE without the multiplication sign) move
    up by 32. *)
Definition lower_char (c : ascii) : ascii :=
  let n := nat_of_ascii c in
  if ((65 <=? n) && (n <=? 90)
      || (192 <=? n) && (n <=? 222) && negb (n =? 215))%nat
  then ascii_of_nat (n + 32)
  else c.

(** [s.lower()] *)
Fixpoint py_lower (s : string) : string :=
  match s with
  | EmptyString => EmptyString
  | String c s' => String (lower_char c) (py_lower s')
  end.

(** [s.endswith(suffix)] *)
Definition py_endswith (s suffix : string) : bool :=
  (String.length suffix <=? String.length s)%nat
  && String.eqb (substring (String.length s - String.length suffix)
                   (String.length suffix) s) suffix.

(** [s.rfind(c)] for a one-character [c]: the last index of [c], or -1. *)
Fixpoint rfind_from (c : ascii) (s : string) (i last : Z) : Z :=
  match s with
  | EmptyString => last
  | String d s' => rfind_from c s' (i + 1) (if Ascii.eqb d c then i else last)
  end.

Definition py_rfind (c : ascii) (s : string) : Z := rfind_from c s 0 (-1).

(** [posixpath.join(a, b)] *)
Definition os_path_join (a b : string) : string :=
  if PyStr.startswith "/" b then b
  else if PyStr.is_empty a || py_endswith a "/" then (a ++ b)%string
  else (a ++ "/" ++ b)%string.

(** [posixpath.splitext(p)[0]]: the last dot splits, unless it comes before
    the last separator or only dots come between the two. *)
Definition splitext_root (p : string) : string :=
  let sepIndex := py_rfind "/" p in
  let dotIndex := py_rfind "." p in
  if sepIndex <? dotIndex
  then
    if existsb
         (fun filenameIndex =>
            match String.get filenameIndex p with
            | Some c => negb (Ascii.eqb c ".")
            | None => true
            end)
         (seq (Z.to_nat (sepIndex + 1)) (Z.to_nat (dotIndex - (sepIndex + 1))))
    then substring 0 (Z.to_nat dotIndex) p
    else p
  else p.

(** [d[name] = value] on a dict kept as an association list: a key that is
    there keeps its place. *)
Fixpoint dict_set (name value : string) (d : list (string * string))
  : list (string * string) :=
  match d with
  | [] => [(name, value)]
  | (k, v) :: d' =>
      if String.eqb k name then (k, value) :: d'
      else (k, v) :: dict_set name value d'
  end.

(** [a < b] on tuples of two strings. *)
Definition tuple_ltb (a b : string * string) : bool :=
  match String.compare (fst a) (fst b) with
  | Lt => true
  | Gt => false
  | Eq => String.ltb (snd a) (snd b)
  end.

(** [sorted(items)], as the stable insertion sort. *)
Fixpoint sorted_insert (x : string * string) (l : list (string * string))
  : list (string * string) :=
  match l with
  | [] => [x]
  | y :: l' => if tuple_ltb y x then y :: sorted_insert x l' else x :: y :: l'
  end.

Definition py_sorted (l : list (string * string)) : list (string * string) :=
  fold_right sorted_insert [] l.

(** ** [setup_voice_presets] *)

Definition audio_extensions : list string :=
  [".wav"; ".mp3"; ".flac"; ".ogg"; ".m4a"; ".aac"].

(** [any(file.lower().endswith(ext) for ext in audio_extensions)] *)
Definition has_audio_extension (file : string) : bool :=
  existsb (fun ext => py_endswith (py_lower file) ext) audio_extensions.

(** The files the scan keeps. *)
Definition is_voice_file (h : Host) (voices_dir file : string) : bool :=
  has_audio_extension file && isfile h (os_path_join voices_dir file).

(** [VibeVoiceServer.setup_voice_presets]: the new [available_voices]. *)
Definition setup_voice_presets (h : Host) : result (list (string * string)) :=
  let voices_dir := os_getenv h "VOICES_DIR" "voices" in
  if negb (path_exists h voices_dir) then Ok []
  else
    files <- listdir h voices_dir ;;
    let audio_files := filter (is_voice_file h voices_dir) files in
    let available_voices :=
      fold_left
        (fun d audio_file =>
           let name := splitext_root audio_file in
           let full_path := os_path_join voices_dir audio_file in
           dict_set name full_path d)
        audio_files [] in
    Ok (py_sorted available_voices).

(** [GET /voices]: the names and their count.  The dependency
    [verify_api_key] is left out, as for the other endpoints. *)
Definition get_voices (srv : VibeVoiceServer) : list string * Z :=
  (map fst (available_voices srv), Z.of_nat (List.length (available_voices srv))).

(** Keys in strictly ascending order. *)
Fixpoint ascending (keys : list string) : Prop :=
  match keys with
  | [] => True
  | k :: rest => Forall (fun k' => String.ltb k k' = true) rest /\ ascending rest
  end.

(** ** [save_audio_file] *)

(** [re.sub(r'[^a-zA-Z0-9]', '', s)] *)
Definition is_alnum (c : ascii) : bool :=
  let n := nat_of_ascii c in
  ((97 <=? n) && (n <=? 122) || (65 <=? n) && (n <=? 90)
   || (48 <=? n) && (n <=? 57))%nat.

Fixpoint re_sub_non_alnum (s : string) : string :=
  match s with
  | EmptyString => EmptyString
  | String c s' =>
      if is_alnum c then String c (re_sub_non_alnum s') else re_sub_non_alnum s'
  end.

(** [n] on two digits, as [%y], [%m], [%d], [%H], [%M] and [%S] print it. *)
Definition two_digits (n : nat) : string :=
  String (ascii_of_nat (48 + n / 10)) (String (ascii_of_nat (48 + n mod 10)) EmptyString).

(** [t.strftime("%y%m%d%H%M%S")] *)
Definition strftime (t : datetime) : string :=
  (two_digits (year t mod 100) ++ two_digits (month t) ++ two_digits (day t)
   ++ two_digits (hour t) ++ two_digits (minute t) ++ two_digits (second t))%string.

(** What [save_audio_file] does to the disk. *)
Inductive disk_call : Type :=
| Makedirs (path : string)
| SfWrite (path : string) (audio_16bit : ndarray Z) (sample_rate : Z).

(** The name of the file: [f"{first_chars}_{timestamp}.wav"]. *)
Definition save_filename (h : Host) (script : string) : string :=
  let first_chars := substring 0 10 (re_sub_non_alnum script) in
  let first_chars := if PyStr.is_empty first_chars then "audio" else first_chars in
  let timestamp := strftime (datetime_now h) in
  (first_chars ++ "_" ++ timestamp ++ ".wav")%string.

(** [save_audio_file(audio_data, sample_rate, script)]: the calls it makes
    to the disk, in order, and what it returns; the [except Exception]
    around the body gives [None] whatever was raised. *)
Definition save_audio_file (h : Host) (audio_data : ndarray float32)
  (sample_rate : Z) (script : string) : list disk_call * option string :=
  let save_enabled :=
    String.eqb (py_lower (os_getenv h "SAVE_GENERATED_AUDIO" "false")) "true" in
  if negb save_enabled then ([], None)
  else
    let output_dir := os_getenv h "OUTPUT_DIRECTORY" "outputs" in
    match makedirs h output_dir with
    | Raise _ => ([Makedirs output_dir], None)
    | Ok _ =>
        let filename := save_filename h script in
        let filepath := os_path_join output_dir filename in
        match convert_to_16_bit_wav audio_data with
        | Raise _ => ([Makedirs output_dir], None)
        | Ok audio_16bit =>
            match sf_write_file h filepath audio_16bit sample_rate with
            | Raise _ =>
                ([Makedirs output_dir; SfWrite filepath audio_16bit sample_rate], None)
            | Ok _ =>
                ([Makedirs output_dir; SfWrite filepath audio_16bit sample_rate],
                 Some filepath)
            end
        end
    end.

(** A clock reading as [datetime] builds them. *)
Definition valid_datetime (t : datetime) : Prop :=
  (1 <= month t <= 12)%nat /\ (1 <= day t <= 31)%nat /\
  (hour t < 24)%nat /\ (minute t < 60)%nat /\ (second t < 60)%nat.

Definition is_digit (c : ascii) : bool :=
  let n := nat_of_ascii c in ((48 <=? n) && (n <=? 57))%nat.

(** A name made of dots only, which [splitext] leaves whole. *)
Fixpoint only_dots (s : string) : bool :=
  match s with
  | EmptyString => true
  | String c s' => Ascii.eqb c "." && only_dots s'
  end.

(** ** More sample data *)
Module Example.

(** A machine without environment variables, with four names in [voices],
    where every path is a regular file and every write succeeds. *)
Definition host : Host :=
  {| environ := fun _ => None;
     path_exists := fun p => String.eqb p "voices";
     listdir := fun p =>
                  if String.eqb p "voices"
                  then Ok ["en-Carter_man.WAV"; "notes.txt"; "en-Alice_woman.wav";
                           ".mp3"]%string
                  else Raise (PyError "FileNotFoundError" p);
     isfile := fun _ => true;
     datetime_now := {| year := 2025; month := 3; day := 9;
                        hour := 14; minute := 5; second := 59 |};
     makedirs := fun _ => Ok tt;
     sf_write_file := fun _ _ _ => Ok tt |}.

(** The same machine with [SAVE_GENERATED_AUDIO=True]. *)
Definition host_saving : Host :=
  {| environ := fun name =>
                  if String.eqb name "SAVE_GENERATED_AUDIO" then Some "True"%string
                  else None;
     path_exists := path_exists host;
     listdir := listdir host;
     isfile := isfile host;
     datetime_now := datetime_now host;
     makedirs := makedirs host;
     sf_write_file := sf_write_file host |}.

(** The voices [setup_voice_presets] finds on it. *)
Definition voices : list (string * string) :=
  [(".mp3", "voices/.mp3");
   ("en-Alice_woman", "voices/en-Alice_woman.wav");
   ("en-Carter_man", "voices/en-Carter_man.WAV")]%string.

Definition srv : VibeVoiceServer :=
  {| is_initialized := true;
     available_voices := voices;
     processor := Some (fun _ _ => Ok tt) |}.

(** A body that names two speakers, and the request it validates into. *)
Definition body_named : RequestBody :=
  {| body_script := Some Sample.hello_world; body_num_speakers := None;
     body_speakers := Some ["en-Carter_man"; "en-Alice_woman"]%string;
     body_cfg_scale := None |}.

Definition request_named : GenerationRequest :=
  {| script := Sample.hello_world; num_speakers := 2;
     speakers := ["en-Carter_man"; "en-Alice_woman"]%string;
     cfg_scale := (13 # 10)%Q |}.

(** A body with the script only, and its request. *)
Definition body_plain : RequestBody :=
  {| body_script := Some Sample.hello_world; body_num_speakers := None;
     body_speakers := None; body_cfg_scale := None |}.


(** A worker whose only chunk is one sample under a batch axis. *)
Definition wk_scalar : worker :=
  {| actions := [Put (Tensor Float32 (mk_ndarray [1; 1]%nat [Sample.half])); End];
     exit := Returned |}.

End Example.

(** * Properties *)

(** ** The formatting *)

Lemma py_mod_ok (a b : Z) : b <> 0 -> py_mod a b = Ok (a mod b).
Proof.
  intros Hb. unfold py_mod.
  destruct (Z.eqb_spec b 0) as [E | _]; [contradiction | reflexivity].
Qed.

Lemma format_line_spec (n : Z) (acc : list string) (line : string) :
  n <> 0 ->
  format_line n acc line =
  Ok (acc ++ label_from n (List.length acc)
                (filter (fun l => negb (PyStr.is_empty l)) [PyStr.strip line])).
Proof.
  intros Hn. unfold format_line. cbn [filter].
  destruct (PyStr.is_empty (PyStr.strip line)) eqn:E; cbn [negb label_from].
  - now rewrite app_nil_r.
  - unfold label_line.
    destruct (has_speaker_format (PyStr.strip line)); [reflexivity |].
    rewrite py_mod_ok by assumption. reflexivity.
Qed.

Lemma label_from_app (n : Z) (xs ys : list string) (k : nat) :
  label_from n k (xs ++ ys) =
  label_from n k xs ++ label_from n (k + List.length xs) ys.
Proof.
  revert k. induction xs as [| x xs IH]; intros k; cbn [label_from List.app List.length].
  - now rewrite Nat.add_0_r.
  - rewrite IH. do 3 f_equal. lia.
Qed.

Lemma label_from_length (n : Z) (xs : list string) (k : nat) :
  List.length (label_from n k xs) = List.length xs.
Proof.
  revert k. induction xs as [| x xs IH]; intros k; cbn; [reflexivity | now rewrite IH].
Qed.

Lemma format_loop_spec (n : Z) (lines acc : list string) :
  n <> 0 ->
  for_each (format_line n) lines acc =
  Ok (acc ++ label_from n (List.length acc)
                (filter (fun l => negb (PyStr.is_empty l)) (map PyStr.strip lines))).
Proof.
  intros Hn. revert acc.
  induction lines as [| line lines IH]; intros acc; cbn [for_each map].
  - cbn. now rewrite app_nil_r.
  - rewrite format_line_spec by assumption. cbn [bind]. rewrite IH.
    f_equal. rewrite <- app_assoc. f_equal.
    change (PyStr.strip line :: map PyStr.strip lines)
      with ([PyStr.strip line] ++ map PyStr.strip lines).
    rewrite filter_app, label_from_app, length_app, label_from_length.
    reflexivity.
Qed.

Lemma format_script_lines_spec (n : Z) (script : string) :
  n <> 0 -> format_script_lines n script = Ok (labelled_script n script).
Proof.
  intros Hn. unfold format_script_lines, labelled_script, script_lines.
  now rewrite format_loop_spec.
Qed.

(** ** The loop under every schedule *)

Lemma drain_app (xs ys : list item) (acc : list (ndarray Z)) :
  drain (xs ++ ys) acc =
  match drain xs acc with
  | Iterating acc' => drain ys acc'
  | s => s
  end.
Proof.
  revert acc. induction xs as [| [c |] xs IH]; intros acc; cbn [List.app drain].
  - reflexivity.
  - destruct (collect_chunk acc c); [apply IH | reflexivity].
  - reflexivity.
Qed.

Lemma bridge_inv_start (wk : worker) : bridge_inv (stream_items wk) (start wk).
Proof. exists []. split; reflexivity. Qed.

Lemma bridge_inv_step (all : list item) (b : bridge) (t : turn) :
  bridge_inv all b -> bridge_inv all (step b t).
Proof.
  intros (consumed & Hc & Hall). destruct t; cbn [step].
  - unfold worker_step. destruct (pending b) as [| a rest] eqn:Hp.
    + exists consumed. now rewrite Hp.
    + exists consumed. cbn [consumer queue pending]. split; [assumption |].
      destruct (consumer b); [| assumption | assumption].
      cbn [map] in Hall. rewrite Hall, <- !app_assoc. reflexivity.
  - unfold handler_step. destruct (consumer b) as [acc | acc | e] eqn:Hs.
    + destruct (queue b) as [| [c |] q] eqn:Hq.
      * exists consumed. rewrite Hs, Hq. now split.
      * exists (consumed ++ [Chunk c]). cbn [consumer queue pending].
        rewrite drain_app, <- Hc. cbn [drain].
        destruct (collect_chunk acc c); (split; [reflexivity |]).
        -- rewrite Hall, <- !app_assoc. reflexivity.
        -- exists (q ++ map item_of (pending b)). rewrite Hall, <- !app_assoc. reflexivity.
      * exists (consumed ++ [StopSignal]). cbn [consumer queue pending].
        rewrite drain_app, <- Hc. cbn [drain]. split; [reflexivity |].
        exists (q ++ map item_of (pending b)). rewrite Hall, <- !app_assoc. reflexivity.
    + exists consumed. rewrite Hs. now split.
    + exists consumed. rewrite Hs. now split.
Qed.

Lemma bridge_inv_run (all : list item) (schedule : list turn) (b : bridge) :
  bridge_inv all b -> bridge_inv all (run schedule b).
Proof.
  revert b. unfold run.
  induction schedule as [| t schedule IH]; intros b Hb; cbn [fold_left].
  - assumption.
  - apply IH, bridge_inv_step, Hb.
Qed.

Lemma run_app (s1 s2 : list turn) (b : bridge) :
  run (s1 ++ s2) b = run s2 (run s1 b).
Proof. unfold run. apply fold_left_app. Qed.

(** Once the loop has left, its state is the one the whole stream gives. *)
Lemma bridge_inv_final (all : list item) (b : bridge) :
  bridge_inv all b ->
  (forall acc, consumer b <> Iterating acc) ->
  consumer b = drain all [].
Proof.
  intros (consumed & Hc & Hall) Hterm.
  destruct (consumer b) as [acc | acc | e] eqn:Hs.
  - now elim (Hterm acc).
  - destruct Hall as (rest & ->). now rewrite drain_app, <- Hc.
  - destruct Hall as (rest & ->). now rewrite drain_app, <- Hc.
Qed.

(** While the loop iterates it has taken a prefix of the stream. *)
Lemma bridge_inv_iterating (all : list item) (b : bridge) (acc : list (ndarray Z)) :
  bridge_inv all b ->
  consumer b = Iterating acc ->
  exists consumed rest, all = consumed ++ rest /\ drain consumed [] = Iterating acc.
Proof.
  intros (consumed & Hc & Hall) Hs. rewrite Hs in Hc, Hall.
  exists consumed, (queue b ++ map item_of (pending b)). now split.
Qed.

(** The state of the loop does not depend on the schedule: it is still
    iterating, or it is what the stream alone decides. *)
Lemma loop_state_schedule_free (wk : worker) (schedule : list turn) :
  (exists acc, consumer (run schedule (start wk)) = Iterating acc) \/
  consumer (run schedule (start wk)) = drain (stream_items wk) [].
Proof.
  pose proof (bridge_inv_run _ schedule _ (bridge_inv_start wk)) as Hinv.
  destruct (consumer (run schedule (start wk))) as [acc | acc | e] eqn:Hs.
  - left. now exists acc.
  - right. rewrite <- Hs. apply bridge_inv_final; [assumption |].
    intros acc'. rewrite Hs. discriminate.
  - right. rewrite <- Hs. apply bridge_inv_final; [assumption |].
    intros acc'. rewrite Hs. discriminate.
Qed.

Lemma step_pending_length (b : bridge) (t : turn) :
  (List.length (pending (step b t)) <= List.length (pending b))%nat.
Proof.
  destruct t; cbn [step].
  - unfold worker_step. destruct (pending b) eqn:E; [rewrite E |]; cbn; lia.
  - unfold handler_step.
    destruct (consumer b); [| lia | lia].
    destruct (queue b) as [| [c |] q]; cbn; lia.
Qed.

Lemma run_pending_length (schedule : list turn) (b : bridge) :
  (List.length (pending (run schedule b)) <= List.length (pending b))%nat.
Proof.
  revert b. unfold run.
  induction schedule as [| t schedule IH]; intros b; cbn [fold_left]; [lia |].
  etransitivity; [apply IH | apply step_pending_length].
Qed.

Lemma worker_turns_exhaust (n : nat) (b : bridge) :
  (List.length (pending b) <= n)%nat ->
  pending (run (repeat WorkerTurn n) b) = [].
Proof.
  revert b. induction n as [| n IH]; intros b Hn.
  - cbn. destruct (pending b); [reflexivity | cbn in Hn; lia].
  - cbn [repeat]. change (run (WorkerTurn :: repeat WorkerTurn n) b)
      with (run (repeat WorkerTurn n) (worker_step b)).
    apply IH. unfold worker_step.
    destruct (pending b) eqn:E; [rewrite E |]; cbn in *; lia.
Qed.

Lemma handler_turns_drain (all : list item) (n : nat) (b : bridge) :
  bridge_inv all b ->
  pending b = [] ->
  (forall acc, consumer b = Iterating acc -> (List.length (queue b) <= n)%nat) ->
  consumer (run (repeat HandlerTurn n) b) = drain all [].
Proof.
  revert b. induction n as [| n IH]; intros b Hinv Hp Hq.
  - cbn. destruct Hinv as (consumed & Hc & Hall).
    destruct (consumer b) as [acc | acc | e] eqn:Hs.
    + specialize (Hq acc eq_refl).
      destruct (queue b); [| cbn in Hq; lia].
      rewrite Hp in Hall. cbn in Hall. rewrite app_nil_r in Hall. now subst.
    + destruct Hall as (rest & ->). now rewrite drain_app, <- Hc.
    + destruct Hall as (rest & ->). now rewrite drain_app, <- Hc.
  - cbn [repeat]. change (run (HandlerTurn :: repeat HandlerTurn n) b)
      with (run (repeat HandlerTurn n) (handler_step b)).
    apply IH.
    + apply (bridge_inv_step all b HandlerTurn Hinv).
    + unfold handler_step. destruct (consumer b); [| assumption | assumption].
      destruct (queue b) as [| [c |] q]; assumption.
    + intros acc'. unfold handler_step.
      destruct (consumer b) as [acc | acc | e] eqn:Hs;
        [| rewrite Hs; discriminate | rewrite Hs; discriminate].
      specialize (Hq acc eq_refl).
      destruct (queue b) as [| [c |] q] eqn:Hqb; cbn [consumer queue].
      * intros _. rewrite Hqb. cbn. lia.
      * intros _. cbn in Hq. lia.
      * discriminate.
Qed.

(** Whatever has happened so far, enough further turns bring the loop to
    the state the stream decides. *)
Lemma run_settles (wk : worker) (schedule : list turn) (n : nat) :
  (List.length (actions wk) <= n)%nat ->
  consumer (run (schedule ++ settle n) (start wk)) = drain (stream_items wk) [].
Proof.
  intros Hn. unfold settle. rewrite !run_app.
  set (b1 := run schedule (start wk)).
  set (b2 := run (repeat WorkerTurn n) b1).
  assert (Hinv1 : bridge_inv (stream_items wk) b1)
    by apply bridge_inv_run, bridge_inv_start.
  assert (Hinv2 : bridge_inv (stream_items wk) b2)
    by apply bridge_inv_run, Hinv1.
  assert (Hp : pending b2 = []).
  { apply worker_turns_exhaust.
    etransitivity; [apply run_pending_length | exact Hn]. }
  apply handler_turns_drain; [assumption | assumption |].
  intros acc Hs.
  destruct Hinv2 as (consumed & Hc & Hall). rewrite Hs in Hall.
  assert (Hlen : List.length (stream_items wk) = List.length (actions wk))
    by apply length_map.
  rewrite Hall, !length_app in Hlen. lia.
Qed.

(** ** Reading results *)

Lemma bind_ok {A B : Type} (r : result A) (k : A -> result B) (b : B) :
  bind r k = Ok b -> exists a, r = Ok a /\ k a = Ok b.
Proof. destruct r as [a | e]; cbn; [eauto | discriminate]. Qed.

Lemma respond_responds {A : Type} (r : result A) (a : A) :
  respond r = Responds a -> r = Ok a.
Proof.
  unfold respond. destruct r as [a' | [c d | cls msg]]; cbn; congruence.
Qed.

Lemma respond_raise {A : Type} (e : exn) :
  exists c d, respond (@Raise A e) = Fails c d.
Proof. destruct e as [c d | cls msg]; cbn; eauto. Qed.

Lemma respond_raise_py {A : Type} (cls msg : string) :
  respond (@Raise A (PyError cls msg)) = Fails 500 ("Generation failed: " ++ msg)%string.
Proof. reflexivity. Qed.

Ltac inv_bind H :=
  let a := fresh "a" in
  let Ha := fresh "H" a in
  apply bind_ok in H; destruct H as (a & Ha & H).

(** ** The loop and the chunks *)

Lemma collect_chunk_flatten (acc : list (ndarray Z)) (c : audio_chunk) :
  collect_chunk acc c =
  (q <- convert_to_16_bit_wav (flatten_chunk c) ;; Ok (acc ++ [q])).
Proof. reflexivity. Qed.

(** The loop ends only on the stop signal, and then holds the conversion of
    every chunk that came before it, in order. *)
Lemma drain_ended (its : list item) (acc out : list (ndarray Z)) :
  drain its acc = LoopEnded out ->
  In StopSignal its /\
  exists qs,
    out = acc ++ qs /\
    Forall2 (fun c q => convert_to_16_bit_wav (flatten_chunk c) = Ok q)
      (chunks_before_stop its) qs.
Proof.
  revert acc. induction its as [| [c |] its IH]; intros acc; cbn [drain chunks_before_stop].
  - discriminate.
  - rewrite collect_chunk_flatten.
    destruct (convert_to_16_bit_wav (flatten_chunk c)) as [q | e] eqn:Hq; cbn [bind];
      [| discriminate].
    intros H. destruct (IH _ H) as (Hin & qs & -> & HF).
    split; [now right |]. exists (q :: qs). split.
    + now rewrite <- app_assoc.
    + now constructor.
  - intros [= ->]. split; [now left |]. exists []. split.
    + now rewrite app_nil_r.
    + constructor.
Qed.

Lemma drain_stop_first (rest : list item) (acc : list (ndarray Z)) :
  drain (StopSignal :: rest) acc = LoopEnded acc.
Proof. reflexivity. Qed.

(** The loop raises only what the conversion of one of the chunks raised. *)
Lemma drain_raised (its : list item) (acc : list (ndarray Z)) (e : exn) :
  drain its acc = LoopRaised e ->
  exists c, In c (chunks_before_stop its) /\
            convert_to_16_bit_wav (flatten_chunk c) = Raise e.
Proof.
  revert acc. induction its as [| [c |] its IH]; intros acc; cbn [drain chunks_before_stop].
  - discriminate.
  - rewrite collect_chunk_flatten.
    destruct (convert_to_16_bit_wav (flatten_chunk c)) as [q | e'] eqn:Hq; cbn [bind].
    + intros H. destruct (IH _ H) as (c' & Hin & Hc'). exists c'. split; [now right | assumption].
    + intros [= ->]. exists c. split; [now left | assumption].
  - discriminate.
Qed.

Lemma stream_items_stop (wk : worker) : In StopSignal (stream_items wk) <-> closes wk.
Proof.
  unfold stream_items, closes. rewrite in_map_iff. split.
  - intros ([c |] & H & Hin); [discriminate | assumption].
  - intros H. now exists End.
Qed.

(** A stream that holds no chunk leaves the loop waiting, or ends it with
    nothing collected. *)
Lemma drain_no_chunk (its : list item) :
  (forall c, ~ In (Chunk c) its) ->
  (its = [] /\ drain its [] = Iterating []) \/
  (In StopSignal its /\ drain its [] = LoopEnded []).
Proof.
  intros H. destruct its as [| [c |] its].
  - now left.
  - elim (H c). now left.
  - right. split; [now left | reflexivity].
Qed.

(** ** The handlers, case by case *)

Lemma stream_and_finish_cases {A : Type} (w : World) (wk : worker)
  (schedule : list turn) (finish : list (ndarray Z) -> result A) (r : Z) :
  env_sample_rate w = Ok r ->
  stream_and_finish w wk schedule finish = Waiting \/
  stream_and_finish w wk schedule finish =
    match drain (stream_items wk) [] with
    | Iterating _ => Waiting
    | LoopRaised e => respond (Raise e)
    | LoopEnded chunks => respond (finish chunks)
    end.
Proof.
  intros Hr. unfold stream_and_finish. rewrite Hr.
  destruct (loop_state_schedule_free wk schedule) as [(acc & ->) | ->].
  - now left.
  - right. reflexivity.
Qed.

Lemma stream_and_finish_settled {A : Type} (w : World) (wk : worker)
  (schedule : list turn) (n : nat) (finish : list (ndarray Z) -> result A) (r : Z) :
  env_sample_rate w = Ok r ->
  (List.length (actions wk) <= n)%nat ->
  stream_and_finish w wk (schedule ++ settle n) finish =
    match drain (stream_items wk) [] with
    | Iterating _ => Waiting
    | LoopRaised e => respond (Raise e)
    | LoopEnded chunks => respond (finish chunks)
    end.
Proof.
  intros Hr Hn. unfold stream_and_finish. now rewrite Hr, run_settles.
Qed.

Lemma stream_and_finish_responds {A : Type} (w : World) (wk : worker)
  (schedule : list turn) (finish : list (ndarray Z) -> result A) (a : A) :
  stream_and_finish w wk schedule finish = Responds a ->
  exists r chunks,
    env_sample_rate w = Ok r /\
    consumer (run schedule (start wk)) = LoopEnded chunks /\
    drain (stream_items wk) [] = LoopEnded chunks /\
    finish chunks = Ok a.
Proof.
  unfold stream_and_finish.
  destruct (env_sample_rate w) as [r | e] eqn:Hr.
  - destruct (loop_state_schedule_free wk schedule) as [(acc & ->) | Hd];
      [discriminate |].
    rewrite Hd.
    destruct (drain (stream_items wk) []) as [acc | chunks | e].
    + discriminate.
    + intros H. apply respond_responds in H. now exists r, chunks.
    + destruct (@respond_raise A e) as (c & d & ->). discriminate.
  - destruct (@respond_raise A e) as (c & d & ->). discriminate.
Qed.

Lemma generate_podcast_reached (w : World) (srv : VibeVoiceServer)
  (request : GenerationRequest) (wk : worker) (schedule : list turn) :
  reaches_generation w srv request ->
  generate_podcast w srv request wk schedule =
  stream_and_finish w wk schedule (finish_generate w).
Proof.
  intros (Hi & Hp & _). unfold generate_podcast. now rewrite Hi, Hp.
Qed.

Lemma generate_podcast_wav_reached (w : World) (srv : VibeVoiceServer)
  (request : GenerationRequest) (wk : worker) (schedule : list turn) :
  reaches_generation_wav w srv request ->
  generate_podcast_wav w srv request wk schedule =
  stream_and_finish w wk schedule (finish_generate_wav w).
Proof.
  intros (Hp & _). unfold generate_podcast_wav. now rewrite Hp.
Qed.

Lemma generate_podcast_responds (w : World) (srv : VibeVoiceServer)
  (request : GenerationRequest) (wk : worker) (schedule : list turn)
  (resp : GenerationResponse) :
  generate_podcast w srv request wk schedule = Responds resp ->
  reaches_generation w srv request /\
  exists chunks,
    consumer (run schedule (start wk)) = LoopEnded chunks /\
    drain (stream_items wk) [] = LoopEnded chunks /\
    finish_generate w chunks = Ok resp.
Proof.
  unfold generate_podcast.
  destruct (is_initialized srv) eqn:Hi; cbn [negb]; [| discriminate].
  destruct (prepare_generate w srv request) as [[] | e] eqn:Hp.
  - intros H. apply stream_and_finish_responds in H.
    destruct H as (r & chunks & Hr & Hc & Hd & Hf).
    split; [repeat split; eauto |]. now exists chunks.
  - destruct (@respond_raise GenerationResponse e) as (c & d & ->). discriminate.
Qed.

Lemma generate_podcast_wav_responds (w : World) (srv : VibeVoiceServer)
  (request : GenerationRequest) (wk : worker) (schedule : list turn)
  (resp : WavResponse) :
  generate_podcast_wav w srv request wk schedule = Responds resp ->
  reaches_generation_wav w srv request /\
  exists chunks,
    consumer (run schedule (start wk)) = LoopEnded chunks /\
    drain (stream_items wk) [] = LoopEnded chunks /\
    finish_generate_wav w chunks = Ok resp.
Proof.
  unfold generate_podcast_wav.
  destruct (prepare_generate_wav w srv request) as [[] | e] eqn:Hp.
  - intros H. apply stream_and_finish_responds in H.
    destruct H as (r & chunks & Hr & Hc & Hd & Hf).
    split; [split; eauto |]. now exists chunks.
  - destruct (@respond_raise WavResponse e) as (c & d & ->). discriminate.
Qed.

(** ** A stream closed without a chunk *)

Lemma finish_generate_nil (w : World) :
  respond (finish_generate w []) = Fails 500 "No audio chunks were generated".
Proof. reflexivity. Qed.

Lemma finish_generate_wav_nil (w : World) :
  respond (finish_generate_wav w []) = Fails 500 "No audio chunks were generated".
Proof. reflexivity. Qed.

(** C3: when the generation thread closes the stream before it has produced
    a chunk, neither [generate_podcast] nor [generate_podcast_wav] ever
    answers with a response; a request that reached the generation is
    waiting until the handler has seen the stop signal, which enough turns
    bring about, and then fails with status 500 and the detail "No audio
    chunks were generated". *)
Theorem empty_generation_fails (w : World) (srv : VibeVoiceServer)
  (request : GenerationRequest) (wk : worker) (rest : list worker_action) :
  actions wk = End :: rest ->
  (forall schedule resp,
      generate_podcast w srv request wk schedule <> Responds resp) /\
  (forall schedule resp,
      generate_podcast_wav w srv request wk schedule <> Responds resp) /\
  (reaches_generation w srv request ->
   forall schedule,
     (generate_podcast w srv request wk schedule = Waiting \/
      generate_podcast w srv request wk schedule =
        Fails 500 "No audio chunks were generated") /\
     forall n, (List.length (actions wk) <= n)%nat ->
       generate_podcast w srv request wk (schedule ++ settle n) =
         Fails 500 "No audio chunks were generated") /\
  (reaches_generation_wav w srv request ->
   forall schedule,
     (generate_podcast_wav w srv request wk schedule = Waiting \/
      generate_podcast_wav w srv request wk schedule =
        Fails 500 "No audio chunks were generated") /\
     forall n, (List.length (actions wk) <= n)%nat ->
       generate_podcast_wav w srv request wk (schedule ++ settle n) =
         Fails 500 "No audio chunks were generated").
Proof.
  intros Hact.
  assert (Hd : drain (stream_items wk) [] = LoopEnded []).
  { unfold stream_items. rewrite Hact. reflexivity. }
  repeat split.
  - intros schedule resp H.
    apply generate_podcast_responds in H.
    destruct H as (_ & chunks & _ & Hd' & Hf).
    rewrite Hd in Hd'. injection Hd' as <-. discriminate.
  - intros schedule resp H.
    apply generate_podcast_wav_responds in H.
    destruct H as (_ & chunks & _ & Hd' & Hf).
    rewrite Hd in Hd'. injection Hd' as <-. discriminate.
  - rewrite generate_podcast_reached by assumption.
    destruct H as (_ & _ & r & Hr).
    destruct (stream_and_finish_cases w wk schedule (finish_generate w) r Hr)
      as [-> | ->]; [now left | right].
    rewrite Hd. apply finish_generate_nil.
  - intros n Hn. rewrite generate_podcast_reached by assumption.
    destruct H as (_ & _ & r & Hr).
    rewrite (stream_and_finish_settled w wk schedule n _ r Hr Hn), Hd.
    apply finish_generate_nil.
  - rewrite generate_podcast_wav_reached by assumption.
    destruct H as (_ & r & Hr).
    destruct (stream_and_finish_cases w wk schedule (finish_generate_wav w) r Hr)
      as [-> | ->]; [now left | right].
    rewrite Hd. apply finish_generate_wav_nil.
  - intros n Hn. rewrite generate_podcast_wav_reached by assumption.
    destruct H as (_ & r & Hr).
    rewrite (stream_and_finish_settled w wk schedule n _ r Hr Hn), Hd.
    apply finish_generate_wav_nil.
Qed.

Lemma sample_reaches_generation :
  reaches_generation Sample.world Sample.srv Sample.request.
Proof. repeat split. now exists 24000. Qed.

Lemma sample_reaches_generation_wav :
  reaches_generation_wav Sample.world Sample.srv Sample.request.
Proof. split; [reflexivity | now exists 24000]. Qed.

Lemma empty_generation_fails_witness :
  generate_podcast Sample.world Sample.srv Sample.request Sample.wk_empty
    (Sample.schedule ++ settle 1)
  = Fails 500 "No audio chunks were generated".
Proof.
  destruct (empty_generation_fails Sample.world Sample.srv Sample.request
              Sample.wk_empty [] eq_refl) as (_ & _ & H & _).
  apply (H sample_reaches_generation Sample.schedule).
  cbn. lia.
Defined.

(** ** A generation thread that raises, or never closes the stream *)

Lemma stream_items_no_chunk (wk : worker) :
  (forall c, ~ In (Put c) (actions wk)) ->
  forall c, ~ In (Chunk c) (stream_items wk).
Proof.
  intros H c Hin. unfold stream_items in Hin. apply in_map_iff in Hin.
  destruct Hin as ([c' |] & Heq & Hin); [| discriminate].
  injection Heq as ->. exact (H c Hin).
Qed.

(** The handlers never read how the thread ended. *)
Lemma exit_is_not_observed (w : World) (srv : VibeVoiceServer)
  (request : GenerationRequest) (wk : worker) (x : worker_exit)
  (schedule : list turn) :
  generate_podcast w srv request wk schedule =
  generate_podcast w srv request {| actions := actions wk; exit := x |} schedule.
Proof. reflexivity. Qed.

(** C5, as the code has it: when [generate] raises in the generation thread
    before any chunk was produced, the exception stays in that thread.  A
    request that reached the generation then has no answer for as long as
    the stream is open (for ever, when the thread died without closing it),
    and fails with 500 "No audio chunks were generated" once the handler
    has seen the stream closed; it never answers with a response, its
    failure is not "Generation failed: <reason>", and the answer is the one
    it would give had the thread returned normally. *)
Theorem worker_exception_is_not_reported (w : World) (srv : VibeVoiceServer)
  (request : GenerationRequest) (wk : worker) (reason : string) :
  exit wk = Raised reason ->
  (forall c, ~ In (Put c) (actions wk)) ->
  reaches_generation w srv request ->
  (forall schedule,
      generate_podcast w srv request wk schedule = Waiting \/
      generate_podcast w srv request wk schedule =
        Fails 500 "No audio chunks were generated") /\
  (~ closes wk -> never_answers (generate_podcast w srv request wk)) /\
  (closes wk ->
   forall schedule n, (List.length (actions wk) <= n)%nat ->
     generate_podcast w srv request wk (schedule ++ settle n) =
       Fails 500 "No audio chunks were generated") /\
  (forall schedule,
      generate_podcast w srv request wk schedule <>
        Fails 500 ("Generation failed: " ++ reason)%string) /\
  (forall schedule,
      generate_podcast w srv request wk schedule =
      generate_podcast w srv request
        {| actions := actions wk; exit := Returned |} schedule).
Proof.
  intros _ Hnone Hreach.
  pose proof (drain_no_chunk _ (stream_items_no_chunk wk Hnone)) as Hd.
  destruct Hreach as (Hi & Hp & r & Hr).
  assert (Hreach : reaches_generation w srv request) by (repeat split; eauto).
  assert (Hcases : forall schedule,
             generate_podcast w srv request wk schedule = Waiting \/
             generate_podcast w srv request wk schedule =
               Fails 500 "No audio chunks were generated").
  { intros schedule. rewrite generate_podcast_reached by assumption.
    destruct (stream_and_finish_cases w wk schedule (finish_generate w) r Hr)
      as [-> | ->]; [now left |].
    destruct Hd as [(_ & ->) | (_ & ->)]; [now left | right].
    apply finish_generate_nil. }
  split; [exact Hcases |]. split; [| split; [| split]].
  - intros Hopen schedule. rewrite generate_podcast_reached by assumption.
    destruct (stream_and_finish_cases w wk schedule (finish_generate w) r Hr)
      as [-> | ->]; [reflexivity |].
    destruct Hd as [(_ & ->) | (Hstop & _)]; [reflexivity |].
    elim Hopen. now apply stream_items_stop.
  - intros Hclosed schedule n Hn. rewrite generate_podcast_reached by assumption.
    rewrite (stream_and_finish_settled w wk schedule n _ r Hr Hn).
    destruct Hd as [(Hnil & _) | (_ & ->)]; [| apply finish_generate_nil].
    apply stream_items_stop in Hclosed. rewrite Hnil in Hclosed. destruct Hclosed.
  - intros schedule. destruct (Hcases schedule) as [-> | ->]; discriminate.
  - intros schedule. reflexivity.
Qed.

Lemma worker_exception_is_not_reported_witness :
  never_answers
    (generate_podcast Sample.world Sample.srv Sample.request Sample.wk_raises).
Proof.
  destruct (worker_exception_is_not_reported Sample.world Sample.srv Sample.request
              Sample.wk_raises "CUDA out of memory" eq_refl
              (fun c (H : In (Put c) []) => H) sample_reaches_generation)
    as (_ & H & _).
  apply H. intros [].
Defined.

(** The claim C5 fails where [generate] raises at once and the stream stays
    open: the request is to fail with "Generation failed: CUDA out of
    memory", and has no answer at all, however long it runs. *)
Lemma worker_exception_counterexample :
  exit Sample.wk_raises = Raised "CUDA out of memory" /\
  produced_chunks Sample.wk_raises = [] /\
  never_answers
    (generate_podcast Sample.world Sample.srv Sample.request Sample.wk_raises) /\
  generate_podcast Sample.world Sample.srv Sample.request Sample.wk_raises
    (settle 100)
  <> Fails 500 "Generation failed: CUDA out of memory".
Proof.
  repeat split.
  - intros schedule. unfold generate_podcast. cbn -[run].
    pose proof (bridge_inv_run _ schedule _ (bridge_inv_start Sample.wk_raises))
      as (consumed & Hc & Hall).
    destruct (consumer (run schedule (start Sample.wk_raises))) as [acc | acc | e].
    + reflexivity.
    + destruct Hall as (rest & Hall). destruct consumed; [discriminate | discriminate].
    + destruct Hall as (rest & Hall). destruct consumed; [discriminate | discriminate].
  - vm_compute. discriminate.
Qed.

(** C6, as the code has it: the stream is built with [timeout=None], so
    when the generation thread never closes it a request that reached the
    generation has no answer, whatever the schedule and however long it
    runs, unless the conversion of one of the chunks raises; then the
    request fails with what [except Exception] makes of that exception.  It
    never answers with a response, and no failure comes from a deadline. *)
Theorem open_stream_never_times_out (w : World) (srv : VibeVoiceServer)
  (request : GenerationRequest) (wk : worker) :
  ~ closes wk ->
  reaches_generation w srv request ->
  (forall schedule,
      generate_podcast w srv request wk schedule = Waiting \/
      exists c e,
        In c (produced_chunks wk) /\
        convert_to_16_bit_wav (flatten_chunk c) = Raise e /\
        generate_podcast w srv request wk schedule = respond (Raise e)) /\
  ((forall c, In c (produced_chunks wk) ->
              exists q, convert_to_16_bit_wav (flatten_chunk c) = Ok q) ->
   never_answers (generate_podcast w srv request wk)).
Proof.
  intros Hopen Hreach.
  assert (Hnostop : ~ In StopSignal (stream_items wk))
    by (intros H; apply Hopen; now apply stream_items_stop).
  destruct Hreach as (Hi & Hp & r & Hr).
  assert (Hreach : reaches_generation w srv request) by (repeat split; eauto).
  assert (Hcases : forall schedule,
      generate_podcast w srv request wk schedule = Waiting \/
      exists c e,
        In c (produced_chunks wk) /\
        convert_to_16_bit_wav (flatten_chunk c) = Raise e /\
        generate_podcast w srv request wk schedule = respond (Raise e)).
  { intros schedule. rewrite generate_podcast_reached by assumption.
    destruct (stream_and_finish_cases w wk schedule (finish_generate w) r Hr)
      as [-> | ->]; [now left |].
    destruct (drain (stream_items wk) []) as [acc | chunks | e] eqn:Hd.
    - now left.
    - apply drain_ended in Hd. destruct Hd as (Hstop & _). contradiction.
    - right. apply drain_raised in Hd. destruct Hd as (c & Hin & Hc).
      now exists c, e. }
  split; [exact Hcases |].
  intros Hconv schedule.
  destruct (Hcases schedule) as [H | (c & e & Hin & Hc & _)]; [exact H |].
  destruct (Hconv c Hin) as (q & Hq). congruence.
Qed.

Lemma sample_stuck_open : ~ closes Sample.wk_stuck.
Proof. intros [H | []]. discriminate. Qed.

Lemma open_stream_never_times_out_witness :
  never_answers
    (generate_podcast Sample.world Sample.srv Sample.request Sample.wk_stuck).
Proof.
  destruct (open_stream_never_times_out Sample.world Sample.srv Sample.request
              Sample.wk_stuck sample_stuck_open sample_reaches_generation)
    as (_ & H).
  apply H. intros c [<- | []]. vm_compute. eauto.
Defined.

(** The claim C6 fails on a worker that hands over a chunk and then does
    nothing more: after a hundred turns of each thread, as after any
    number, the request has not failed, with a timeout or otherwise. *)
Lemma timeout_counterexample :
  ~ closes Sample.wk_stuck /\
  generate_podcast Sample.world Sample.srv Sample.request Sample.wk_stuck
    (settle 100) = Waiting /\
  generate_podcast_wav Sample.world Sample.srv Sample.request Sample.wk_stuck
    (settle 100) = Waiting.
Proof.
  split; [exact sample_stuck_open |]. split; vm_compute; reflexivity.
Qed.

(** ** Arrays: items and shapes through the loop *)

Lemma concatenate_items {A : Type} (rest : list (ndarray A)) (a0 a : ndarray A) :
  for_each concatenate_step rest a0 = Ok a ->
  items a = items a0 ++ List.concat (map items rest).
Proof.
  revert a0. induction rest as [| b rest IH]; intros a0; cbn [for_each map List.concat].
  - intros [= <-]. now rewrite app_nil_r.
  - unfold concatenate_step at 1.
    destruct (shape a0) as [| n sh]; [discriminate |].
    destruct (shape b) as [| m sh']; [discriminate |].
    destruct (list_eq_dec Nat.eq_dec sh sh'); [| discriminate].
    cbn [bind]. intros H. apply IH in H. cbn [items] in H.
    now rewrite H, app_assoc.
Qed.

Lemma np_concatenate_items {A : Type} (arrs : list (ndarray A)) (a : ndarray A) :
  np_concatenate arrs = Ok a -> items a = List.concat (map items arrs).
Proof.
  destruct arrs as [| a0 rest]; cbn [np_concatenate]; [discriminate |].
  destruct (shape a0); [discriminate |].
  apply concatenate_items.
Qed.

Lemma combine_chunks_items (qs : list (ndarray Z)) (audio_data : ndarray float32) :
  combine_chunks qs = Ok audio_data ->
  qs <> [] /\ items audio_data = map F32.of_Z (List.concat (map items qs)).
Proof.
  unfold combine_chunks. destruct qs as [| q qs]; [discriminate |].
  intros H. inv_bind H. injection H as <-.
  split; [discriminate |]. cbn [astype_float32 np_map items].
  f_equal. now apply np_concatenate_items.
Qed.

Lemma prod_filter_ones (sh : list nat) :
  fold_right Nat.mul 1%nat (filter (fun d => negb (d =? 1)%nat) sh) =
  fold_right Nat.mul 1%nat sh.
Proof.
  induction sh as [| d sh IH]; cbn [filter fold_right]; [reflexivity |].
  destruct (Nat.eqb_spec d 1) as [-> | _]; cbn [negb fold_right]; lia.
Qed.

Lemma flatten_chunk_well_formed (c : audio_chunk) :
  chunk_well_formed c -> well_formed (flatten_chunk c).
Proof.
  unfold chunk_well_formed, flatten_chunk, well_formed.
  destruct (1 <? ndim (chunk_to_numpy c))%nat; [| trivial].
  cbn [np_squeeze shape items]. now rewrite prod_filter_ones.
Qed.

Lemma convert_shape (data : ndarray float32) (q : ndarray Z) :
  convert_to_16_bit_wav data = Ok q ->
  shape q = shape data /\ List.length (items q) = List.length (items data).
Proof.
  unfold convert_to_16_bit_wav. intros H. inv_bind H.
  destruct (F32.ltb (F32.of_Z 1) a).
  - inv_bind H. inv_bind Ha0. injection Ha0 as <-. injection H as <-.
    cbn. now rewrite !length_map.
  - cbn [bind] in H. injection H as <-. cbn. now rewrite !length_map.
Qed.










(** ** A request that succeeds *)

Lemma finish_generate_ok (w : World) (chunks : list (ndarray Z))
  (resp : GenerationResponse) :
  finish_generate w chunks = Ok resp ->
  exists audio_data,
    combine_chunks chunks = Ok audio_data /\
    measure w audio_data = Ok (sample_rate resp, duration resp) /\
    audio_to_base64 w audio_data (sample_rate resp) = Ok (audio_base64 resp) /\
    exists audio_16bit bytes, sf_write w audio_16bit (sample_rate resp) = Ok bytes.
Proof.
  unfold finish_generate. intros H. inv_bind H. inv_bind H.
  destruct a0 as (sr, d). inv_bind H. injection H as <-. cbn.
  exists a. repeat split; try assumption.
  unfold audio_to_base64 in Ha1. inv_bind Ha1. inv_bind Ha1. eauto.
Qed.


Lemma assembled_audio_ended (wk : worker) (schedule : list turn)
  (chunks : list (ndarray Z)) (audio_data : ndarray float32) :
  consumer (run schedule (start wk)) = LoopEnded chunks ->
  combine_chunks chunks = Ok audio_data ->
  assembled_audio wk schedule = Some audio_data.
Proof. intros Hc Ha. unfold assembled_audio. now rewrite Hc, Ha. Qed.

(** C1, as the code has it: when [generate_podcast] answers with a
    response, every chunk [c1..cN] the thread produced before the stop
    signal went through [convert_to_16_bit_wav] on its own, after the
    conversion to single precision and the squeeze, giving the 16-bit
    arrays [q1..qN]; the assembled buffer [audio_data] holds the items of
    [q1..qN] in that order, as [float32], and it is the buffer whose
    encoding the response carries.  The schedule of the two threads does
    not matter: under any other one the request is still waiting or gives
    the same response. *)
Theorem assembled_audio_is_converted_chunks (w : World) (srv : VibeVoiceServer)
  (request : GenerationRequest) (wk : worker) (schedule : list turn)
  (resp : GenerationResponse) :
  generate_podcast w srv request wk schedule = Responds resp ->
  exists qs audio_data,
    Forall2 (fun c q => convert_to_16_bit_wav (flatten_chunk c) = Ok q)
      (produced_chunks wk) qs /\
    assembled_audio wk schedule = Some audio_data /\
    items audio_data = map F32.of_Z (List.concat (map items qs)) /\
    audio_to_base64 w audio_data (sample_rate resp) = Ok (audio_base64 resp) /\
    forall schedule',
      generate_podcast w srv request wk schedule' = Waiting \/
      generate_podcast w srv request wk schedule' = Responds resp.
Proof.
  intros H. apply generate_podcast_responds in H.
  destruct H as (Hreach & chunks & Hc & Hd & Hf).
  pose proof (drain_ended _ _ _ Hd) as (_ & qs & Hqs & HF). cbn in Hqs. subst chunks.
  pose proof (finish_generate_ok _ _ _ Hf) as (audio_data & Ha & _ & Hb & _).
  exists qs, audio_data. repeat split.
  - exact HF.
  - now apply assembled_audio_ended with (chunks := qs).
  - now apply combine_chunks_items.
  - exact Hb.
  - intros schedule'. rewrite generate_podcast_reached by assumption.
    destruct Hreach as (_ & _ & r & Hr).
    destruct (stream_and_finish_cases w wk schedule' (finish_generate w) r Hr)
      as [-> | ->]; [now left | right].
    rewrite Hd. unfold respond. now rewrite Hf.
Qed.

Lemma sample_response :
  generate_podcast Sample.world Sample.srv Sample.request Sample.wk Sample.schedule
  = Responds {| status := "success"; audio_base64 := "/z//H/9/";
                duration := (3 # 24000)%Q; sample_rate := 24000 |}.
Proof. vm_compute. reflexivity. Qed.

Lemma assembled_audio_is_converted_chunks_witness :
  exists qs audio_data,
    Forall2 (fun c q => convert_to_16_bit_wav (flatten_chunk c) = Ok q)
      (produced_chunks Sample.wk) qs /\
    assembled_audio Sample.wk Sample.schedule = Some audio_data /\
    items audio_data = map F32.of_Z (List.concat (map items qs)).
Proof.
  destruct (assembled_audio_is_converted_chunks _ _ _ _ _ _ sample_response)
    as (qs & audio_data & H1 & H2 & H3 & _).
  now exists qs, audio_data.
Defined.

(** The claim C1 fails on the sample request: the chunks, in single
    precision and squeezed, are 0.5, 0.25 and 2.0, and the assembled buffer
    holds 16383.0, 8191.0 and 32767.0. *)
Lemma assembled_audio_counterexample :
  List.concat (map (fun c => items (flatten_chunk c)) (produced_chunks Sample.wk))
  = [Sample.half; Sample.quarter; f32_two] /\
  assembled_audio Sample.wk Sample.schedule
  = Some (mk_ndarray [3%nat] [F32.of_Z 16383; F32.of_Z 8191; F32.of_Z 32767]) /\
  [F32.of_Z 16383; F32.of_Z 8191; F32.of_Z 32767]
  <> [Sample.half; Sample.quarter; f32_two] /\
  exists resp,
    generate_podcast Sample.world Sample.srv Sample.request Sample.wk Sample.schedule
    = Responds resp.
Proof.
  repeat split.
  - vm_compute. discriminate.
  - eexists. apply sample_response.
Qed.





(** ** Validation of the request *)

Lemma field_num_speakers_ok (body : RequestBody) (n : Z) :
  field_num_speakers (body_num_speakers body) = Ok n ->
  n = requested_num_speakers body.
Proof.
  unfold field_num_speakers, requested_num_speakers.
  destruct (body_num_speakers body) as [m |]; [| now intros [= <-]].
  destruct (m <? 1); [discriminate |]. destruct (4 <? m); [discriminate |].
  now intros [= <-].
Qed.

Lemma validate_request_rejects (body : RequestBody) (v : list string) :
  body_speakers body = Some v ->
  v <> [] ->
  Z.of_nat (List.length v) <> requested_num_speakers body ->
  exists errors, errors <> [] /\ validate_request body = inl errors.
Proof.
  intros Hv Hne Hlen. unfold validate_request. rewrite Hv.
  destruct (field_num_speakers (body_num_speakers body)) as [n | e] eqn:Hn.
  - apply field_num_speakers_ok in Hn. subst n.
    assert (Hs : exists e, field_speakers (Some v) (Ok (requested_num_speakers body))
                           = Raise e).
    { cbn. unfold validate_speakers.
      destruct (Z.ltb_spec 0 (Z.of_nat (List.length v))) as [_ | H0].
      - destruct (Z.eqb_spec (Z.of_nat (List.length v)) (requested_num_speakers body));
          [contradiction | cbn; eauto].
      - destruct v; [contradiction | cbn in H0; lia]. }
    destruct Hs as (e & ->).
    destruct (field_script (body_script body)), (field_cfg_scale (body_cfg_scale body));
      eexists; (split; [| reflexivity]); cbn;
      try discriminate; intros H; apply app_eq_nil in H; destruct H; discriminate.
  - destruct (field_script (body_script body)),
      (field_speakers (Some v) (Raise e)),
      (field_cfg_scale (body_cfg_scale body));
      eexists; (split; [| reflexivity]); cbn; discriminate.
Qed.

(** C7: a body whose [speakers] list is not empty and whose length differs
    from [num_speakers] (the field of the body, 2 when the body has none)
    does not validate: each of the three endpoints answers with the
    validation errors, whatever the handler would do, so without running
    it. *)
Theorem speakers_count_mismatch_rejected (body : RequestBody) (v : list string) :
  body_speakers body = Some v ->
  v <> [] ->
  Z.of_nat (List.length v) <> requested_num_speakers body ->
  exists errors,
    errors <> [] /\
    (forall (A : Type) (handler : GenerationRequest -> outcome A),
        endpoint handler body = Unprocessable errors) /\
    (forall w srv wk schedule,
        post_generate w srv body wk schedule = Unprocessable errors) /\
    (forall w srv wk schedule,
        post_generate_wav w srv body wk schedule = Unprocessable errors) /\
    (forall srv, post_generate_stream srv body = Unprocessable errors).
Proof.
  intros Hv Hne Hlen.
  destruct (validate_request_rejects body v Hv Hne Hlen) as (errors & Herr & Hval).
  exists errors. split; [exact Herr |].
  assert (H : forall (A : Type) (handler : GenerationRequest -> outcome A),
             endpoint handler body = Unprocessable errors).
  { intros A handler. unfold endpoint. now rewrite Hval. }
  repeat split; intros; apply H.
Qed.

Lemma speakers_count_mismatch_rejected_witness :
  exists errors,
    errors <> [] /\
    forall w srv wk schedule,
      post_generate w srv Sample.body_three_for_two wk schedule
      = Unprocessable errors.
Proof.
  destruct (speakers_count_mismatch_rejected Sample.body_three_for_two
              ["A"; "B"; "C"]%string eq_refl)
    as (errors & Herr & _ & H & _).
  - discriminate.
  - cbn. lia.
  - now exists errors.
Defined.

(** ** The readiness check *)

(** [generate_podcast] and [generate_podcast_stream] fail with 503 on a
    server that is not initialised, before anything else. *)
Lemma not_ready_is_503 (w : World) (srv : VibeVoiceServer)
  (request : GenerationRequest) (wk : worker) (schedule : list turn) :
  is_initialized srv = false ->
  generate_podcast w srv request wk schedule
    = Fails 503 "Server is still initializing" /\
  generate_podcast_stream srv request = Fails 503 "Server is still initializing".
Proof.
  intros H. unfold generate_podcast, generate_podcast_stream. now rewrite H.
Qed.

Lemma for_each_raises {A S : Type} (P : exn -> Prop)
  (body : S -> A -> result S) (xs : list A) (st : S) (e : exn) :
  (forall st' x e', body st' x = Raise e' -> P e') ->
  for_each body xs st = Raise e -> P e.
Proof.
  intros Hbody. revert st. induction xs as [| x xs IH]; intros st; cbn [for_each].
  - discriminate.
  - destruct (body st x) as [st' | e'] eqn:Hb; cbn [bind].
    + apply IH.
    + intros [= <-]. exact (Hbody _ _ _ Hb).
Qed.

(** The formatting raises nothing but the [ZeroDivisionError] of [%]. *)
Lemma format_script_raises (n : Z) (script : string) (e : exn) :
  format_script n script = Raise e -> exists cls msg, e = PyError cls msg.
Proof.
  unfold format_script, format_script_lines.
  destruct (for_each _ _ _) as [ls | e'] eqn:Hf; cbn [bind]; [discriminate |].
  intros [= <-].
  apply (for_each_raises (fun e => exists cls msg, e = PyError cls msg)) in Hf;
    [exact Hf |].
  intros st line e0. unfold format_line, py_mod.
  destruct (PyStr.is_empty _); [discriminate |].
  destruct (has_speaker_format _); [discriminate |].
  destruct (n =? 0); cbn [bind]; [| discriminate].
  intros [= <-]. eauto.
Qed.

Lemma py_prefix_nil {A : Type} (n : Z) : py_prefix n (@nil A) = [].
Proof. unfold py_prefix. destruct (0 <=? n); apply firstn_nil. Qed.

(** On the server as [__init__] leaves it, [generate_podcast_wav] stops
    before the thread is started, with a 400 or with an exception that is
    not an [HTTPException]. *)
Lemma prepare_generate_wav_starting (w : World) (request : GenerationRequest) :
  exists e,
    prepare_generate_wav w Sample.srv_starting request = Raise e /\
    ((exists d, e = HTTPException 400 d) \/ (exists cls msg, e = PyError cls msg)).
Proof.
  assert (Hno_speaker : exists e,
             (_ <- check_speakers Sample.srv_starting [] ;;
              voice_samples <- load_voice_samples w Sample.srv_starting [] ;;
              formatted_script <-
                format_script (num_speakers request) (PyStr.strip (script request)) ;;
              call_processor Sample.srv_starting formatted_script voice_samples)
             = Raise e /\
             ((exists d, e = HTTPException 400 d) \/
              (exists cls msg, e = PyError cls msg))).
  { cbn [check_speakers load_voice_samples for_each bind].
    destruct (format_script _ _) as [f | e] eqn:Hf; cbn [bind].
    - eexists. split; [reflexivity |]. right. eauto.
    - exists e. split; [reflexivity |]. right. exact (format_script_raises _ _ _ Hf). }
  unfold prepare_generate_wav.
  destruct (PyStr.is_empty (PyStr.strip (script request))); cbn [bind].
  { eexists. split; [reflexivity |]. left. eauto. }
  destruct (speakers request) as [| s0 l].
  - cbn [Sample.srv_starting available_voices map List.length Z.of_nat].
    destruct (0 <? num_speakers request); cbn [bind].
    + eexists. split; [reflexivity |]. left. eauto.
    + rewrite py_prefix_nil. exact Hno_speaker.
  - cbn [bind].
    destruct (py_prefix (num_speakers request) (s0 :: l)) as [| x xs].
    + exact Hno_speaker.
    + cbn [check_speakers for_each bind Sample.srv_starting available_voices dict_mem
             existsb negb].
      eexists. split; [reflexivity |]. left. eauto.
Qed.

(** C4 fails for [generate_podcast_wav], which has no readiness check: on
    the server as [__init__] leaves it, not initialised, it answers no
    request with 503, and the sample request with 400 from the speaker
    selection, where [generate_podcast] answers 503. *)
Theorem wav_endpoint_has_no_readiness_check :
  is_initialized Sample.srv_starting = false /\
  (forall w request wk schedule,
      exists c d,
        generate_podcast_wav w Sample.srv_starting request wk schedule = Fails c d /\
        c <> 503) /\
  generate_podcast_wav Sample.world Sample.srv_starting Sample.request
    Sample.wk Sample.schedule
  = Fails 400 "Requested 2 speakers but only 0 available" /\
  generate_podcast Sample.world Sample.srv_starting Sample.request
    Sample.wk Sample.schedule
  = Fails 503 "Server is still initializing".
Proof.
  split; [reflexivity |]. split; [| split; reflexivity].
  intros w request wk schedule. unfold generate_podcast_wav.
  destruct (prepare_generate_wav_starting w request)
    as (e & -> & [(d & ->) | (cls & msg & ->)]).
  - exists 400, d. split; [reflexivity | discriminate].
  - eexists 500, _. split; [reflexivity | discriminate].
Qed.

(** ** The formatting, as claimed and as it is *)

Lemma label_position_in_range (n : Z) (position : nat) :
  1 <= n -> 1 <= Z.of_nat position mod n + 1 <= n.
Proof. intros Hn. pose proof (Z.mod_pos_bound (Z.of_nat position) n). lia. Qed.

(** C8, as the code has it: the script is stripped and split at the line
    breaks, and every line is stripped; the lines that are then empty are
    dropped; a stripped line that starts with "Speaker " and contains ":"
    is kept as stripped, every other one is put under "Speaker k: " where
    [k] is its position among the formatted lines modulo [num_speakers],
    plus one, so between 1 and [num_speakers].  "Hello" and "World" on two
    lines with two speakers give "Speaker 1: Hello" and "Speaker 2: World". *)
Theorem format_script_labels (num_speakers : Z) (script : string) :
  1 <= num_speakers ->
  format_script_lines num_speakers script = Ok (labelled_script num_speakers script) /\
  format_script num_speakers script
    = Ok (PyStr.join (String PyStr.nl EmptyString) (labelled_script num_speakers script)) /\
  (forall position : nat,
      1 <= Z.of_nat position mod num_speakers + 1 <= num_speakers) /\
  format_script_lines 2 Sample.hello_world
    = Ok ["Speaker 1: Hello"; "Speaker 2: World"]%string.
Proof.
  intros Hn.
  assert (H : format_script_lines num_speakers script
              = Ok (labelled_script num_speakers script))
    by (apply format_script_lines_spec; lia).
  repeat split.
  - exact H.
  - unfold format_script. now rewrite H.
  - now apply label_position_in_range.
  - now apply label_position_in_range.
Qed.

Lemma format_script_labels_witness :
  format_script_lines 2 Sample.hello_world
  = Ok (labelled_script 2 Sample.hello_world).
Proof.
  destruct (format_script_labels 2 Sample.hello_world) as (H & _); [lia | exact H].
Defined.

(** The claim C8 fails on a line with a blank at its end: the line starts
    with "Speaker " and contains ":", and what the formatting passes on is
    not that line but the line without the blank. *)
Lemma format_script_counterexample :
  let script := ("Speaker 1: Hello " ++ String PyStr.nl "World")%string in
  In "Speaker 1: Hello "%string (PyStr.split PyStr.nl script) /\
  has_speaker_format "Speaker 1: Hello " = true /\
  format_script_lines 2 script = Ok ["Speaker 1: Hello"; "Speaker 2: World"]%string /\
  ~ In "Speaker 1: Hello "%string ["Speaker 1: Hello"; "Speaker 2: World"]%string.
Proof.
  cbv zeta. repeat split.
  - now left.
  - intros [H | [H | []]]; discriminate.
Qed.

(** ** [convert_to_16_bit_wav]: the two branches *)

Lemma np_max_nonempty (a : ndarray float32) :
  items a <> [] -> exists peak, np_max a = Ok peak.
Proof.
  unfold np_max. destruct (items a) as [| x xs]; [contradiction | eauto].
Qed.

Lemma np_max_empty (a : ndarray float32) :
  items a = [] ->
  np_max a = Raise (PyError "ValueError"
                      "zero-size array to reduction operation maximum which has no identity").
Proof. unfold np_max. now intros ->. Qed.

Lemma convert_branches (data : ndarray float32) (peak : float32) :
  np_max (np_abs data) = Ok peak ->
  convert_to_16_bit_wav data =
  Ok (astype_int16
        (np_mul (if F32.ltb f32_one peak then np_div data peak else data) f32_scale)).
Proof.
  intros Hp. unfold convert_to_16_bit_wav. rewrite Hp. cbn [bind].
  fold f32_one f32_scale.
  destruct (F32.ltb f32_one peak); reflexivity.
Qed.

Lemma compare_cont_antisym_not_lt (p q : positive) (c : comparison) :
  Pos.compare_cont Eq p q = c -> c <> Gt -> Pos.compare_cont Eq q p <> Lt.
Proof.
  intros <- Hc. change (Pos.compare_cont Eq p q) with (Pos.compare p q) in Hc.
  change (Pos.compare_cont Eq q p) with (Pos.compare q p).
  rewrite Pos.compare_antisym. destruct (Pos.compare p q); cbn; congruence.
Qed.

Lemma f32_one_eq : f32_one = S754_finite false 8388608 (-23).
Proof. vm_compute. reflexivity. Qed.

Lemma f32_scale_eq : f32_scale = S754_finite false 16776704 (-9).
Proof. vm_compute. reflexivity. Qed.

(** A peak that is at most one is not above one. *)
Lemma leb_one_not_above (peak : float32) :
  F32.leb peak f32_one = true -> F32.ltb f32_one peak = false.
Proof.
  rewrite f32_one_eq.
  unfold F32.leb, F32.ltb, SFleb, SFltb.
  destruct peak as [s | s | | s m e]; cbn [SFcompare]; try discriminate; try reflexivity.
  - destruct s; [reflexivity | discriminate].
  - destruct s; [reflexivity |].
    rewrite (Z.compare_antisym e (-23)).
    destruct (Z.compare e (-23)) eqn:He; cbn [CompOpp]; try reflexivity; [| discriminate].
    intros H.
    destruct (Pos.compare_cont Eq 8388608 m) eqn:Hc; try reflexivity.
    exfalso.
    refine (compare_cont_antisym_not_lt m 8388608 _ eq_refl _ Hc).
    destruct (Pos.compare_cont Eq m 8388608); congruence.
Qed.

(** The divisor of the rescaling is never a zero. *)
Lemma above_one_not_zero (peak : float32) :
  F32.ltb f32_one peak = true -> forall s, peak <> S754_zero s.
Proof. intros H s ->. vm_compute in H. discriminate. Qed.

Lemma np_max_abs_zeros (xs : list float32) (x0 : float32) :
  (forall x, In x (x0 :: xs) -> exists s, x = S754_zero s) ->
  fold_left np_maximum (map F32.abs xs) (F32.abs x0) = S754_zero false.
Proof.
  revert x0. induction xs as [| x xs IH]; intros x0 H; cbn [map fold_left].
  - destruct (H x0 (or_introl eq_refl)) as (s & ->). reflexivity.
  - destruct (H x0 (or_introl eq_refl)) as (s0 & ->).
    destruct (H x (or_intror (or_introl eq_refl))) as (s & Hx).
    replace (np_maximum (F32.abs (S754_zero s0)) (F32.abs x)) with (F32.abs x)
      by (subst x; reflexivity).
    apply IH. intros y [<- | Hy]; [eauto | apply H; right; now right].
Qed.

Lemma quantise_zero (s : bool) : quantise (S754_zero s) = 0.
Proof. destruct s; vm_compute; reflexivity. Qed.

(** C10, as the code has it: on a buffer with at least one sample the
    conversion returns; it divides only when the peak is strictly above
    1.0, and then by that peak, which is not zero; an all-zero buffer is
    turned into zeros.  On a buffer without samples the conversion does not
    return: [np.max] raises [ValueError]. *)
Theorem convert_total_on_samples (data : ndarray float32) :
  (items data <> [] ->
   exists peak,
     np_max (np_abs data) = Ok peak /\
     convert_to_16_bit_wav data =
       Ok (astype_int16
             (np_mul (if F32.ltb f32_one peak then np_div data peak else data)
                f32_scale)) /\
     (F32.ltb f32_one peak = true -> forall s, peak <> S754_zero s)) /\
  (items data <> [] ->
   (forall x, In x (items data) -> exists s, x = S754_zero s) ->
   convert_to_16_bit_wav data
     = Ok (mk_ndarray (shape data) (map (fun _ => 0) (items data)))) /\
  (items data = [] ->
   convert_to_16_bit_wav data
     = Raise (PyError "ValueError"
                "zero-size array to reduction operation maximum which has no identity")).
Proof.
  repeat split.
  - intros Hne.
    destruct (np_max_nonempty (np_abs data)) as (peak & Hp).
    { cbn. destruct (items data); [contradiction | discriminate]. }
    exists peak. split; [exact Hp |]. split.
    + now apply convert_branches.
    + apply above_one_not_zero.
  - intros Hne Hz.
    assert (Hp : np_max (np_abs data) = Ok (S754_zero false)).
    { unfold np_max, np_abs, np_map. cbn [items].
      destruct (items data) as [| x0 xs]; [contradiction |].
      cbn [map]. f_equal. now apply np_max_abs_zeros. }
    rewrite (convert_branches _ _ Hp).
    replace (F32.ltb f32_one (S754_zero false)) with false
      by (vm_compute; reflexivity).
    unfold astype_int16, np_mul, np_map. cbn [shape items]. do 2 f_equal.
    rewrite map_map. apply map_ext_in. intros x Hx.
    destruct (Hz x Hx) as (s & ->). exact (quantise_zero s).
  - intros He. unfold convert_to_16_bit_wav.
    rewrite np_max_empty; [reflexivity |]. cbn. now rewrite He.
Qed.

(** The claim C10 fails on the array without items, of shape [(0,)]. *)
Lemma convert_empty_counterexample :
  convert_to_16_bit_wav (mk_ndarray [0%nat] [])
  = Raise (PyError "ValueError"
             "zero-size array to reduction operation maximum which has no identity").
Proof. reflexivity. Qed.

(** ** Rounding to single precision: what the steps do *)

Lemma fexp_eq (k : Z) : fexp F32.prec F32.emax k = fexp32 k.
Proof. reflexivity. Qed.

Lemma digits2_pos_bounds (p : positive) :
  2 ^ (Zpos (digits2_pos p) - 1) <= Zpos p < 2 ^ Zpos (digits2_pos p).
Proof.
  induction p as [p IH | p IH |]; cbn [digits2_pos].
  - rewrite Pos2Z.inj_succ.
    replace (Z.succ (Zpos (digits2_pos p)) - 1) with (Z.succ (Zpos (digits2_pos p) - 1)) by lia.
    rewrite !Z.pow_succ_r by lia. lia.
  - rewrite Pos2Z.inj_succ.
    replace (Z.succ (Zpos (digits2_pos p)) - 1) with (Z.succ (Zpos (digits2_pos p) - 1)) by lia.
    rewrite !Z.pow_succ_r by lia. lia.
  - cbn. lia.
Qed.

Lemma Zdigits2_bounds (m : Z) :
  0 < m -> 2 ^ (Zdigits2 m - 1) <= m < 2 ^ Zdigits2 m.
Proof.
  destruct m as [| p | p]; try lia. intros _. apply digits2_pos_bounds.
Qed.

Lemma Zdigits2_nonneg (m : Z) : 0 <= Zdigits2 m.
Proof. destruct m; cbn; lia. Qed.

Lemma Zdigits2_le (m : Z) (k : Z) : 0 <= m -> 0 <= k -> m < 2 ^ k -> Zdigits2 m <= k.
Proof.
  intros Hm Hk Hlt. destruct (Z.eq_dec m 0) as [-> | Hne]; [cbn; lia |].
  pose proof (Zdigits2_bounds m ltac:(lia)) as (Hlo & _).
  destruct (Z.le_gt_cases (Zdigits2 m) k) as [H | H]; [exact H |].
  assert (2 ^ k <= 2 ^ (Zdigits2 m - 1)) by (apply Z.pow_le_mono_r; lia).
  lia.
Qed.

Lemma Zdigits2_ge (m : Z) (k : Z) : 0 <= k -> 2 ^ k <= m -> k + 1 <= Zdigits2 m.
Proof.
  intros Hk Hle.
  assert (Hm : 0 < m) by (pose proof (Z.pow_pos_nonneg 2 k); lia).
  pose proof (Zdigits2_bounds m Hm) as (_ & Hhi).
  destruct (Z.le_gt_cases (k + 1) (Zdigits2 m)) as [H | H]; [exact H |].
  assert (2 ^ Zdigits2 m <= 2 ^ k)
    by (apply Z.pow_le_mono_r; [lia | pose proof (Zdigits2_nonneg m); lia]).
  lia.
Qed.

Lemma shr_1_m (mrs : shr_record) :
  0 <= shr_m mrs -> shr_m (shr_1 mrs) = shr_m mrs / 2 /\ 0 <= shr_m (shr_1 mrs).
Proof.
  destruct mrs as [m r s]. cbn [shr_m shr_1].
  destruct m as [| [p | p |] | p]; cbn [shr_m]; intros H; try lia.
  - split; [reflexivity | lia].
  - split; [| lia]. rewrite (Pos2Z.inj_xI p). apply Z.div_unique with 1; lia.
  - split; [| lia]. rewrite (Pos2Z.inj_xO p). apply Z.div_unique with 0; lia.
  - split; [reflexivity | lia].
Qed.

Lemma shr_iter_m (p : positive) (mrs : shr_record) :
  0 <= shr_m mrs ->
  shr_m (iter_pos shr_1 p mrs) = shr_m mrs / 2 ^ Zpos p /\
  0 <= shr_m (iter_pos shr_1 p mrs).
Proof.
  revert mrs. induction p as [p IH | p IH |]; intros mrs H; cbn [iter_pos].
  - destruct (shr_1_m mrs H) as (E1 & H1).
    destruct (IH _ H1) as (E2 & H2). destruct (IH _ H2) as (E3 & H3).
    split; [| exact H3]. rewrite E3, E2, E1.
    rewrite !Z.div_div by (try apply Z.pow_pos_nonneg; lia).
    f_equal. rewrite (Pos2Z.inj_xI p).
    replace (2 * Zpos p + 1) with (1 + Zpos p + Zpos p) by lia.
    rewrite (Z.pow_add_r 2 (1 + Zpos p) (Zpos p)), (Z.pow_add_r 2 1 (Zpos p)) by lia.
    change (2 ^ 1) with 2. lia.
  - destruct (IH _ H) as (E2 & H2). destruct (IH _ H2) as (E3 & H3).
    split; [| exact H3]. rewrite E3, E2.
    rewrite !Z.div_div by (try apply Z.pow_pos_nonneg; lia).
    f_equal. rewrite (Pos2Z.inj_xO p).
    replace (2 * Zpos p) with (Zpos p + Zpos p) by lia.
    rewrite (Z.pow_add_r 2 (Zpos p) (Zpos p)) by lia. reflexivity.
  - destruct (shr_1_m mrs H) as (E1 & H1). split; [| exact H1].
    rewrite E1. reflexivity.
Qed.

Lemma shr_max (mrs : shr_record) (e n : Z) : shr mrs e n = shr mrs e (Z.max 0 n).
Proof. destruct n; reflexivity. Qed.

Lemma shr_spec (mrs : shr_record) (e n : Z) :
  0 <= shr_m mrs ->
  snd (shr mrs e n) = e + Z.max 0 n /\
  shr_m (fst (shr mrs e n)) = shr_m mrs / 2 ^ Z.max 0 n /\
  0 <= shr_m (fst (shr mrs e n)).
Proof.
  intros H. destruct n as [| p | p]; cbn [shr fst snd Z.max Z.compare].
  - rewrite Z.add_0_r. cbn. rewrite Z.div_1_r. auto.
  - destruct (shr_iter_m p mrs H) as (E & H'). auto.
  - rewrite Z.add_0_r. cbn. rewrite Z.div_1_r. auto.
Qed.

Lemma shr_record_of_loc_m (m : Z) (l : location) : shr_m (shr_record_of_loc m l) = m.
Proof. destruct l as [| []]; reflexivity. Qed.

Lemma round_nearest_even_bounds (m : Z) (l : location) :
  m <= round_nearest_even m l <= m + 1.
Proof.
  destruct l as [| []]; cbn [round_nearest_even]; try lia.
  destruct (Z.even m); lia.
Qed.

Lemma binary_round_aux_core (s : bool) (M E : Z) (l : location) :
  binary_round_aux F32.prec F32.emax s M E l = of_core s (round_core M E l).
Proof.
  unfold binary_round_aux, round_core, of_core.
  destruct (shr_fexp F32.prec F32.emax M E l) as (mrs', e').
  destruct (shr_fexp F32.prec F32.emax _ e' loc_Exact) as (mrs'', e'').
  reflexivity.
Qed.

Lemma shr_fexp_spec (M E : Z) (l : location) :
  0 <= M ->
  snd (shr_fexp F32.prec F32.emax M E l) = E + shift1 M E /\
  shr_m (fst (shr_fexp F32.prec F32.emax M E l)) = M / 2 ^ shift1 M E /\
  0 <= shr_m (fst (shr_fexp F32.prec F32.emax M E l)).
Proof.
  intros HM. unfold shr_fexp. rewrite fexp_eq.
  pose proof (shr_spec (shr_record_of_loc M l) E (fexp32 (Zdigits2 M + E) - E)) as H.
  rewrite shr_record_of_loc_m in H. exact (H HM).
Qed.

Lemma shift1_nonneg (M E : Z) : 0 <= shift1 M E.
Proof. unfold shift1. lia. Qed.

Lemma round_core_bound (M E : Z) (l : location) :
  0 <= M ->
  exists n2,
    0 <= n2 /\
    snd (round_core M E l) = E + shift1 M E + n2 /\
    0 <= fst (round_core M E l) /\
    fst (round_core M E l) * 2 ^ (shift1 M E + n2) <= M + 2 ^ shift1 M E.
Proof.
  intros HM. unfold round_core.
  pose proof (shr_fexp_spec M E l HM) as (He1 & Hm1 & Hp1).
  destruct (shr_fexp F32.prec F32.emax M E l) as (mrs', e'). cbn [fst snd] in *.
  set (m2 := round_nearest_even (shr_m mrs') (loc_of_shr_record mrs')).
  pose proof (round_nearest_even_bounds (shr_m mrs') (loc_of_shr_record mrs')) as Hm2.
  fold m2 in Hm2.
  assert (Hp2 : 0 <= m2) by lia.
  pose proof (shr_fexp_spec m2 e' loc_Exact Hp2) as (He2 & Hm3 & Hp3).
  destruct (shr_fexp F32.prec F32.emax m2 e' loc_Exact) as (mrs'', e''). cbn [fst snd] in *.
  exists (shift1 m2 e').
  pose proof (shift1_nonneg M E) as Hn1.
  pose proof (shift1_nonneg m2 e') as Hn2.
  split; [exact Hn2 |]. split; [lia |]. split; [exact Hp3 |].
  rewrite Z.pow_add_r by lia.
  assert (P1 : 0 < 2 ^ shift1 M E) by (apply Z.pow_pos_nonneg; lia).
  assert (P2 : 0 < 2 ^ shift1 m2 e') by (apply Z.pow_pos_nonneg; lia).
  pose proof (Z.mul_div_le m2 _ P2) as A2. rewrite <- Hm3 in A2.
  pose proof (Z.mul_div_le M _ P1) as A1. rewrite <- Hm1 in A1.
  nia.
Qed.

(** A rounded value that stays below [B + 1] is finite, and its integer
    part is at most [B]. *)
Lemma round_small (s : bool) (M E : Z) (l : location) (B : Z) :
  0 <= M -> E <= 0 -> 0 <= B < 2 ^ 100 ->
  M + 2 ^ shift1 M E < (B + 1) * 2 ^ (- E) ->
  exists t, F32.trunc (of_core s (round_core M E l)) = Some t /\ Z.abs t <= B.
Proof.
  intros HM HE HB Hlt.
  destruct (round_core_bound M E l HM) as (n2 & Hn2 & He3 & Hm3 & Hle).
  pose proof (shift1_nonneg M E) as Hn1.
  destruct (round_core M E l) as (m3, e3). cbn [fst snd] in *.
  set (N := shift1 M E + n2) in *.
  assert (HN : 0 <= N) by lia.
  assert (PN : 0 < 2 ^ N) by (apply Z.pow_pos_nonneg; lia).
  assert (PE : 0 < 2 ^ (- E)) by (apply Z.pow_pos_nonneg; lia).
  unfold of_core. cbn [fst snd].
  destruct m3 as [| p | p]; [| | lia].
  - exists 0. cbn. split; [reflexivity | lia].
  - assert (Hcore : Zpos p * 2 ^ N < (B + 1) * 2 ^ (- E)) by lia.
    destruct (Z.le_gt_cases 0 e3) as [Hpos | Hneg].
    + (* the exponent is not negative: the value is an integer *)
      assert (HNE : N = e3 + - E) by lia.
      rewrite HNE, Z.pow_add_r in Hcore by lia.
      assert (Hval : Zpos p * 2 ^ e3 < B + 1) by nia.
      assert (P3 : 0 < 2 ^ e3) by (apply Z.pow_pos_nonneg; lia).
      assert (He100 : e3 < 100).
      { apply (Z.pow_lt_mono_r_iff 2); [lia | lia |]. nia. }
      destruct (Z.leb_spec e3 104); [| lia].
      unfold F32.trunc. destruct (Z.leb_spec 0 e3); [| lia].
      rewrite Z.shiftl_mul_pow2 by lia.
      exists (if s then - (Zpos p * 2 ^ e3) else Zpos p * 2 ^ e3).
      split; [reflexivity |]. destruct s; nia.
    + destruct (Z.leb_spec e3 104); [| lia].
      unfold F32.trunc. destruct (Z.leb_spec 0 e3); [lia |].
      rewrite Z.shiftr_div_pow2 by lia.
      assert (Hk : - E = - e3 + N) by lia.
      rewrite Hk, Z.pow_add_r in Hcore by lia.
      assert (Pk : 0 < 2 ^ (- e3)) by (apply Z.pow_pos_nonneg; lia).
      assert (Hp : Zpos p < 2 ^ (- e3) * (B + 1)) by nia.
      pose proof (Z.div_lt_upper_bound _ _ _ Pk Hp) as Hq.
      pose proof (Z.div_pos (Zpos p) (2 ^ (- e3)) ltac:(lia) Pk) as Hq0.
      exists (if s then - (Zpos p / 2 ^ (- e3)) else Zpos p / 2 ^ (- e3)).
      split; [reflexivity |]. destruct s; lia.
Qed.

Lemma shr_exp_pred (mrs : shr_record) (e n : Z) :
  shr mrs (e - 1) n = (fst (shr mrs e n), snd (shr mrs e n) - 1).
Proof. destruct n; cbn [shr fst snd]; f_equal; lia. Qed.

Lemma shr_fexp_shift (M E : Z) (l : location) :
  Z.max 0 (fexp32 (Zdigits2 M + (E - 1)) - (E - 1))
  = Z.max 0 (fexp32 (Zdigits2 M + E) - E) ->
  shr_fexp F32.prec F32.emax M (E - 1) l
  = (fst (shr_fexp F32.prec F32.emax M E l),
     snd (shr_fexp F32.prec F32.emax M E l) - 1).
Proof.
  intros H. unfold shr_fexp. rewrite !fexp_eq.
  rewrite (shr_max _ (E - 1)), (shr_max _ E), H. apply shr_exp_pred.
Qed.

(** In the range of the normal numbers the rounding does not look at the
    exponent: one less at the start is one less at the end. *)
Lemma round_core_shift (M E : Z) (l : location) :
  0 <= M ->
  -149 <= Zdigits2 M + E - 25 ->
  -148 <= E + shift1 M E ->
  round_core M (E - 1) l = (fst (round_core M E l), snd (round_core M E l) - 1).
Proof.
  intros HM Hlin Hsecond. unfold round_core.
  pose proof (shr_fexp_spec M E l HM) as (He1 & _ & _).
  rewrite shr_fexp_shift by (unfold fexp32; lia).
  destruct (shr_fexp F32.prec F32.emax M E l) as (mrs', e').
  cbn [fst snd] in *.
  rewrite shr_fexp_shift by (unfold fexp32; lia).
  destruct (shr_fexp F32.prec F32.emax _ e' loc_Exact) as (mrs'', e'').
  reflexivity.
Qed.

Lemma mul_scale_finite (s : bool) (m : positive) (e : Z) :
  F32.mul (S754_finite s m e) f32_scale
  = of_core s (round_core (Zpos (m * 16776704)) (e + -9) loc_Exact).
Proof.
  rewrite f32_scale_eq. unfold F32.mul, SFmul.
  rewrite binary_round_aux_core. now destruct s.
Qed.

Lemma mul_scale_zero (s : bool) : F32.mul (S754_zero s) f32_scale = S754_zero s.
Proof. rewrite f32_scale_eq. now destruct s. Qed.

Lemma div_eucl_pair (a b : Z) : Z.div_eucl a b = (a / b, a mod b).
Proof. unfold Z.div, Z.modulo. now destruct (Z.div_eucl a b). Qed.

(** A valid finite value is normal, or sits at the lowest exponent. *)
Lemma valid_finite (s : bool) (m : positive) (e : Z) :
  F32.valid (S754_finite s m e) = true ->
  -149 <= e <= 104 /\
  Zpos (digits2_pos m) <= 24 /\
  (-148 <= e -> Zpos (digits2_pos m) = 24).
Proof.
  unfold F32.valid, valid_binary, bounded, canonical_mantissa.
  rewrite fexp_eq. intros H. apply andb_prop in H. destruct H as (H1 & H2).
  apply Z.eqb_eq in H1. apply Z.leb_le in H2.
  change (F32.emax - F32.prec) with 104 in H2.
  unfold fexp32 in H1. lia.
Qed.

Lemma shift1_le (M E K : Z) :
  0 <= M < 2 ^ (24 + K) -> 0 <= K -> -149 - E <= K -> shift1 M E <= K.
Proof.
  intros HM HK HE. unfold shift1, fexp32.
  pose proof (Zdigits2_le M (24 + K) ltac:(lia) ltac:(lia) ltac:(lia)). lia.
Qed.

(** Rounding a value that is already in format changes nothing. *)
Lemma round_core_exact (m : positive) (e : Z) :
  Zpos (digits2_pos m) <= 24 -> -149 <= e ->
  (-148 <= e -> Zpos (digits2_pos m) = 24) ->
  round_core (Zpos m) e loc_Exact = (Zpos m, e).
Proof.
  intros Hd He Hn. unfold round_core, shr_fexp. rewrite !fexp_eq.
  cbn [Zdigits2 shr_record_of_loc].
  rewrite shr_max.
  replace (Z.max 0 (fexp32 (Zpos (digits2_pos m) + e) - e)) with 0
    by (unfold fexp32; lia).
  cbn [shr shr_m loc_of_shr_record round_nearest_even Zdigits2 shr_record_of_loc].
  rewrite shr_max, fexp_eq.
  replace (Z.max 0 (fexp32 (Zpos (digits2_pos m) + e) - e)) with 0
    by (unfold fexp32; lia).
  reflexivity.
Qed.

(** Rounding twice a normal mantissa gives the mantissa back, one exponent up. *)
Lemma round_core_double (m : positive) (e : Z) :
  Zpos (digits2_pos m) = 24 -> -150 <= e ->
  round_core (Zpos m~0) e loc_Exact = (Zpos m, e + 1).
Proof.
  intros Hd He. unfold round_core, shr_fexp. rewrite !fexp_eq.
  cbn [Zdigits2 digits2_pos shr_record_of_loc].
  rewrite Pos2Z.inj_succ, Hd.
  replace (fexp32 (Z.succ 24 + e) - e) with 1 by (unfold fexp32; lia).
  cbn [shr iter_pos shr_1 shr_m loc_of_shr_record round_nearest_even orb
         Zdigits2 shr_record_of_loc].
  rewrite shr_max, fexp_eq, Hd.
  replace (Z.max 0 (fexp32 (24 + (e + 1)) - (e + 1))) with 0
    by (unfold fexp32; lia).
  reflexivity.
Qed.

(** Halving a normal value that is not in the lowest binade is exact. *)
Lemma div_two_exact (s : bool) (m : positive) (e : Z) :
  F32.valid (S754_finite s m e) = true ->
  -148 <= e ->
  F32.div (S754_finite s m e) f32_two = S754_finite s m (e - 1).
Proof.
  intros Hv He. destruct (valid_finite s m e Hv) as (Hr & _ & Hd).
  specialize (Hd He).
  unfold F32.div, f32_two, SFdiv, SFdiv_core_binary.
  change (Zdigits2 (Zpos 8388608)) with 24.
  cbn [Zdigits2]. rewrite Hd, fexp_eq.
  replace (xorb s false) with s by now destruct s.
  destruct (Z.eq_dec e (-148)) as [-> | Hne].
  - cbn -[binary_round_aux Z.div_eucl Z.shiftl].
    rewrite Z.shiftl_mul_pow2 by lia.
    rewrite div_eucl_pair.
    replace (Zpos m * 2 ^ 23 / 8388608) with (Zpos m)
      by (apply Z.div_unique with 0; lia).
    replace ((Zpos m * 2 ^ 23) mod 8388608) with 0
      by (apply Z.mod_unique with (Zpos m); lia).
    change (new_location 8388608 0) with loc_Exact.
    rewrite binary_round_aux_core, round_core_exact by lia.
    reflexivity.
  - replace (Z.min (fexp32 (24 + e - (24 + -22))) (e - -22)) with (e - 2)
      by (unfold fexp32; lia).
    replace (e - -22 - (e - 2)) with 24 by lia.
    cbv iota beta.
    rewrite Z.shiftl_mul_pow2 by lia.
    rewrite div_eucl_pair.
    replace (Zpos m * 2 ^ 24 / 8388608) with (Zpos m~0)
      by (apply Z.div_unique with 0; lia).
    replace ((Zpos m * 2 ^ 24) mod 8388608) with 0
      by (apply Z.mod_unique with (Zpos m~0); lia).
    change (new_location 8388608 0) with loc_Exact.
    rewrite binary_round_aux_core, round_core_double by lia.
    unfold of_core. cbn [fst snd].
    destruct (Z.leb_spec (e - 2 + 1) 104); [| lia].
    f_equal. lia.
Qed.

Lemma pow2_le (a b : Z) : 0 <= a <= b -> 2 ^ a <= 2 ^ b.
Proof. intros H. apply Z.pow_le_mono_r; lia. Qed.

(** A sample far below one has no integer part after the scaling. *)
Lemma scale_tiny (s : bool) (p : positive) (e : Z) :
  Zpos p <= 2 ^ 24 -> -149 <= e <= -100 ->
  F32.trunc (F32.mul (S754_finite s p e) f32_scale) = Some 0.
Proof.
  intros Hp He. rewrite mul_scale_finite.
  assert (HM : 0 <= Zpos (p * 16776704) < 2 ^ (24 + 24)).
  { rewrite Pos2Z.inj_mul. change (2 ^ (24 + 24)) with 281474976710656.
    change (2 ^ 24) with 16777216 in Hp. lia. }
  pose proof (shift1_le (Zpos (p * 16776704)) (e + -9) 24 HM ltac:(lia) ltac:(lia)) as Hs.
  pose proof (shift1_nonneg (Zpos (p * 16776704)) (e + -9)) as Hs0.
  destruct (round_small s (Zpos (p * 16776704)) (e + -9) loc_Exact 0) as (t & Ht & Hb).
  - lia.
  - lia.
  - split; [lia | apply Z.pow_pos_nonneg; lia].
  - pose proof (pow2_le (shift1 (Zpos (p * 16776704)) (e + -9)) 24 ltac:(lia)).
    pose proof (pow2_le 109 (- (e + -9)) ltac:(lia)).
    change (2 ^ (24 + 24)) with 281474976710656 in HM.
    change (2 ^ 24) with 16777216 in *.
    change (2 ^ 109) with 649037107316853453566312041152512 in *.
    lia.
  - rewrite Ht. f_equal. lia.
Qed.

(** Halving a value of the lowest binade gives a zero or a value far below one. *)
Lemma div_two_lowest (s : bool) (m : positive) :
  F32.valid (S754_finite s m (-149)) = true ->
  (exists s', F32.div (S754_finite s m (-149)) f32_two = S754_zero s') \/
  (exists p e, F32.div (S754_finite s m (-149)) f32_two = S754_finite s p e /\
               Zpos p <= 2 ^ 24 /\ -149 <= e <= -100).
Proof.
  intros Hv. destruct (valid_finite s m (-149) Hv) as (_ & Hd & _).
  pose proof (digits2_pos_bounds m) as (_ & Hm).
  assert (Hm24 : Zpos m < 2 ^ 24).
  { eapply Z.lt_le_trans; [exact Hm | apply pow2_le; lia]. }
  change (2 ^ 24) with 16777216 in Hm24.
  unfold F32.div, f32_two, SFdiv, SFdiv_core_binary.
  change (Zdigits2 (Zpos 8388608)) with 24.
  cbn [Zdigits2]. rewrite fexp_eq.
  replace (xorb s false) with s by now destruct s.
  replace (Z.min (fexp32 (Zpos (digits2_pos m) + -149 - (24 + -22))) (-149 - -22))
    with (-149) by (unfold fexp32; lia).
  cbn -[binary_round_aux Z.div_eucl Z.shiftl].
  rewrite Z.shiftl_mul_pow2 by lia.
  rewrite div_eucl_pair.
  set (q := Zpos m * 2 ^ 22 / 8388608).
  match goal with
  | |- context [binary_round_aux _ _ _ _ _ ?lz] => set (l := lz)
  end.
  assert (Hq : 0 <= q < 8388608).
  { subst q. split.
    - apply Z.div_pos; lia.
    - apply Z.div_lt_upper_bound; lia. }
  rewrite binary_round_aux_core.
  destruct (round_core_bound q (-149) l ltac:(lia)) as (n2 & Hn2 & He3 & Hm3 & Hle).
  pose proof (shift1_le q (-149) 0 ltac:(change (2 ^ (24 + 0)) with 16777216; lia)
                ltac:(lia) ltac:(lia)) as Hs.
  pose proof (shift1_nonneg q (-149)) as Hs0.
  assert (Hs1 : shift1 q (-149) = 0) by lia. rewrite Hs1 in *.
  change (2 ^ 0) with 1 in Hle. cbn [Z.add] in Hle.
  destruct (round_core q (-149) l) as (m3, e3). cbn [fst snd] in *.
  unfold of_core. cbn [fst snd].
  destruct m3 as [| p | p]; [left; exists s; reflexivity | | lia].
  assert (P2 : 0 < 2 ^ n2) by (apply Z.pow_pos_nonneg; lia).
  assert (Hpp : 2 ^ n2 <= Zpos p * 2 ^ n2 /\ Zpos p <= Zpos p * 2 ^ n2) by nia.
  assert (Hn23 : n2 <= 23).
  { destruct (Z.le_gt_cases n2 23) as [H | H]; [exact H |].
    pose proof (pow2_le 24 n2 ltac:(lia)) as H24.
    change (2 ^ 24) with 16777216 in H24. lia. }
  right. exists p, e3.
  destruct (Z.leb_spec e3 104); [| lia].
  split; [reflexivity |]. split; [| lia].
  change (2 ^ 24) with 16777216. lia.
Qed.

(** One exponent less halves the integer part, up to the dropped fraction. *)
Lemma trunc_half (s : bool) (p : positive) (e : Z) :
  exists t t',
    F32.trunc (S754_finite s p e) = Some t /\
    F32.trunc (S754_finite s p (e - 1)) = Some t' /\
    Z.abs (2 * t' - t) <= 1.
Proof.
  unfold F32.trunc.
  destruct (Z.leb_spec 0 e) as [He | He]; destruct (Z.leb_spec 0 (e - 1)) as [He' | He'];
    try lia.
  - (* both exponents are non-negative *)
    rewrite !Z.shiftl_mul_pow2 by lia.
    assert (Hpow : 2 ^ e = 2 * 2 ^ (e - 1)).
    { rewrite <- Z.pow_succ_r by lia. f_equal. lia. }
    rewrite Hpow.
    eexists. eexists. split; [reflexivity |]. split; [reflexivity |].
    destruct s; lia.
  - (* [e = 0] *)
    assert (e = 0) by lia. subst e.
    rewrite Z.shiftl_mul_pow2, Z.shiftr_div_pow2 by lia.
    change (2 ^ 0) with 1. change (2 ^ (- (0 - 1))) with 2.
    eexists. eexists. split; [reflexivity |]. split; [reflexivity |].
    pose proof (Z.div_mod (Zpos p) 2 ltac:(lia)).
    pose proof (Z.mod_pos_bound (Zpos p) 2 ltac:(lia)).
    destruct s; lia.
  - rewrite !Z.shiftr_div_pow2 by lia.
    assert (Hpow : 2 ^ (- (e - 1)) = 2 ^ (- e) * 2).
    { rewrite Z.mul_comm, <- Z.pow_succ_r by lia. f_equal. lia. }
    assert (P : 0 < 2 ^ (- e)) by (apply Z.pow_pos_nonneg; lia).
    rewrite Hpow, <- Z.div_div by lia.
    eexists. eexists. split; [reflexivity |]. split; [reflexivity |].
    pose proof (Z.div_mod (Zpos p / 2 ^ (- e)) 2 ltac:(lia)).
    pose proof (Z.mod_pos_bound (Zpos p / 2 ^ (- e)) 2 ltac:(lia)).
    destruct s; lia.
Qed.

Lemma wrap16_small (z : Z) : Z.abs z <= 32767 -> wrap16 z = z.
Proof. intros H. unfold wrap16. rewrite Z.mod_small; lia. Qed.

Lemma int16_of_float_small (x : float32) (t : Z) :
  F32.trunc x = Some t -> Z.abs t <= 32767 -> int16_of_float x = t.
Proof.
  intros Ht Hb. unfold int16_of_float. rewrite Ht.
  destruct (Z.leb_spec (-2147483648) t); [| lia].
  destruct (Z.ltb_spec t 2147483648); [| lia].
  cbn [andb]. now apply wrap16_small.
Qed.

Lemma of_core_finite_trunc (s : bool) (p : positive) (e : Z) (t : Z) :
  F32.trunc (of_core s (Zpos p, e)) = Some t ->
  of_core s (Zpos p, e) = S754_finite s p e.
Proof.
  unfold of_core. cbn [fst snd]. destruct (e <=? 104); [reflexivity | discriminate].
Qed.

(** The halving, on one sample: with a peak of 2.0 the output is half the
    integer part of [x * 32767], up to the fraction the cast drops. *)
Lemma halving_sample (x : float32) :
  F32.valid x = true ->
  at_most_two x ->
  exists u,
    unrescaled_value x = Some u /\
    Z.abs (2 * quantise_rescaled f32_two x - u) <= 1.
Proof.
  intros Hv Hle. destruct x as [s | s | | s m e]; try contradiction.
  - exists 0. split; destruct s; vm_compute; try reflexivity; discriminate.
  - destruct (valid_finite s m e Hv) as (Hr & Hd & Hn).
    unfold at_most_two in Hle.
    unfold unrescaled_value, quantise_rescaled.
    destruct (Z.le_gt_cases (-148) e) as [He | He].
    + (* the half is exact *)
      specialize (Hn He).
      rewrite (div_two_exact s m e Hv He), !mul_scale_finite.
      replace (e - 1 + -9) with (e + -9 - 1) by lia.
      set (M := Zpos (m * 16776704)).
      pose proof (digits2_pos_bounds m) as Hm. rewrite Hn in Hm.
      change (2 ^ (24 - 1)) with 8388608 in Hm. change (2 ^ 24) with 16777216 in Hm.
      assert (HM : 140737488355328 - 4294967296 <= M < 281474976710656 - 8589934592
                   /\ (e = -22 -> M = 140737488355328 - 4294967296)).
      { subst M. rewrite Pos2Z.inj_mul. lia. }
      assert (HD : 47 <= Zdigits2 M).
      { apply (Zdigits2_ge M 46); [lia |]. change (2 ^ 46) with 70368744177664. lia. }
      assert (Hs24 : forall E, -173 <= E -> shift1 M E <= 24).
      { intros E HE. apply shift1_le; [| lia | lia].
        change (2 ^ (24 + 24)) with 281474976710656. lia. }
      assert (Hs23 : 23 <= shift1 M (e + -9)) by (unfold shift1, fexp32; lia).
      rewrite (round_core_shift M (e + -9) loc_Exact) by lia.
      (* the unrescaled product is finite *)
      destruct (round_small s M (e + -9) loc_Exact 262144) as (t & Ht & _).
      { lia. } { lia. } { change (2 ^ 100) with 1267650600228229401496703205376. lia. }
      { pose proof (pow2_le (shift1 M (e + -9)) 24
                      ltac:(pose proof (Hs24 (e + -9)); lia)) as P1.
        pose proof (pow2_le 31 (- (e + -9)) ltac:(lia)) as P2.
        change (2 ^ 24) with 16777216 in P1. change (2 ^ 31) with 2147483648 in P2.
        lia. }
      (* the rescaled product stays within 16 bits *)
      destruct (round_small s M (e + -9 - 1) loc_Exact 32767) as (t1 & Ht1 & Hb1).
      { lia. } { lia. } { change (2 ^ 100) with 1267650600228229401496703205376. lia. }
      { pose proof (pow2_le (shift1 M (e + -9 - 1)) 24
                      ltac:(pose proof (Hs24 (e + -9 - 1));
                            pose proof (shift1_nonneg M (e + -9 - 1)); lia)) as P1.
        change (2 ^ 24) with 16777216 in P1.
        destruct Hle as [Hlt | (-> & _)].
        - pose proof (pow2_le 33 (- (e + -9 - 1)) ltac:(lia)) as P2.
          change (2 ^ 33) with 8589934592 in P2. lia.
        - change (2 ^ (- (-22 + -9 - 1))) with 4294967296.
          destruct HM as (_ & HM). specialize (HM eq_refl). lia. }
      rewrite (round_core_shift M (e + -9) loc_Exact) in Ht1 by lia.
      destruct (round_core M (e + -9) loc_Exact) as (m3, e3). cbn [fst snd] in *.
      exists t. split; [exact Ht |].
      destruct m3 as [| p | p].
      * (* both products are zero *)
        unfold of_core in *. cbn [fst snd] in *. cbn in Ht.
        injection Ht as <-.
        replace (int16_of_float (S754_zero s)) with 0 by (destruct s; reflexivity).
        lia.
      * rewrite (of_core_finite_trunc _ _ _ _ Ht) in Ht.
        rewrite (of_core_finite_trunc _ _ _ _ Ht1) in Ht1 |- *.
        destruct (trunc_half s p e3) as (u & u' & Hu & Hu' & Habs).
        rewrite Hu in Ht. injection Ht as <-.
        rewrite Hu' in Ht1. injection Ht1 as <-.
        rewrite (int16_of_float_small _ _ Hu' Hb1). exact Habs.
      * unfold of_core in Ht. discriminate.
    + (* the lowest binade: both products have no integer part *)
      assert (e = -149) by lia. subst e.
      pose proof (digits2_pos_bounds m) as (_ & Hm).
      assert (Hm24 : Zpos m <= 2 ^ 24).
      { apply Z.lt_le_incl. eapply Z.lt_le_trans; [exact Hm | apply pow2_le; lia]. }
      exists 0. split; [apply scale_tiny; lia |].
      destruct (div_two_lowest s m Hv) as [(s' & ->) | (p & e' & -> & Hp & He')].
      * rewrite mul_scale_zero.
        replace (int16_of_float (S754_zero s')) with 0 by (destruct s'; reflexivity).
        lia.
      * rewrite (int16_of_float_small _ 0 (scale_tiny s p e' Hp He')) by lia. lia.
Qed.

Lemma abs_sign_clear (x : float32) : sign_clear (F32.abs x).
Proof. destruct x; reflexivity. Qed.

Lemma at_most_two_abs (x : float32) : at_most_two (F32.abs x) -> at_most_two x.
Proof. destruct x; trivial. Qed.

Lemma np_maximum_sign_clear (a y : float32) :
  sign_clear a -> sign_clear y -> sign_clear (np_maximum a y).
Proof.
  intros Ha Hy. unfold np_maximum.
  destruct (F32.is_nan a); [exact Ha |].
  destruct (F32.is_nan y); [exact Hy |].
  destruct (F32.ltb a y); assumption.
Qed.

(** When the larger of two magnitudes is at most 2.0, both are. *)
Lemma np_maximum_at_most_two (a y : float32) :
  sign_clear a -> sign_clear y ->
  at_most_two (np_maximum a y) -> at_most_two a /\ at_most_two y.
Proof.
  intros Ha Hy.
  destruct a as [sa | sa | | sa ma ea]; cbn [sign_clear] in Ha; try subst sa;
    destruct y as [sy | sy | | sy my ey]; cbn [sign_clear] in Hy; try subst sy;
    unfold np_maximum, F32.ltb, SFltb;
    cbn [F32.is_nan SFcompare at_most_two]; try tauto.
  change (Pos.compare_cont Eq ma my) with (Pos.compare ma my).
  destruct (Z.compare_spec ea ey) as [-> | Hlt | Hgt].
  - destruct (Pos.compare_spec ma my) as [-> | Hlt | Hgt]; cbn [at_most_two];
      intros H; (split; [try exact H | try exact H]); lia.
  - cbn [at_most_two]. intros H; (split; [try exact H | try exact H]); lia.
  - cbn [at_most_two]. intros H; (split; [try exact H | try exact H]); lia.
Qed.

Lemma fold_maximum_at_most_two (xs : list float32) (a : float32) :
  sign_clear a ->
  at_most_two (fold_left np_maximum (map F32.abs xs) a) ->
  at_most_two a /\ Forall at_most_two xs.
Proof.
  revert a. induction xs as [| x xs IH]; intros a Ha; cbn [map fold_left].
  - intros H. split; [exact H | constructor].
  - intros H.
    destruct (IH _ (np_maximum_sign_clear _ _ Ha (abs_sign_clear x)) H) as (H1 & H2).
    destruct (np_maximum_at_most_two _ _ Ha (abs_sign_clear x) H1) as (H3 & H4).
    split; [exact H3 |]. constructor; [now apply at_most_two_abs | exact H2].
Qed.

(** With a peak of 2.0 no sample is above 2.0 in magnitude. *)
Lemma peak_two_bounds (data : ndarray float32) :
  np_max (np_abs data) = Ok f32_two -> Forall at_most_two (items data).
Proof.
  unfold np_max, np_abs, np_map. cbn [items].
  destruct (items data) as [| x0 xs]; cbn [map]; [discriminate |].
  intros [= H].
  assert (H2 : at_most_two (fold_left np_maximum (map F32.abs xs) (F32.abs x0))).
  { rewrite H. right. split; [reflexivity | lia]. }
  destruct (fold_maximum_at_most_two xs _ (abs_sign_clear x0) H2) as (H3 & H4).
  constructor; [now apply at_most_two_abs | exact H4].
Qed.

Lemma convert_rescaled (data : ndarray float32) (peak : float32) :
  np_max (np_abs data) = Ok peak ->
  F32.ltb f32_one peak = true ->
  convert_to_16_bit_wav data
  = Ok (mk_ndarray (shape data) (map (quantise_rescaled peak) (items data))).
Proof.
  intros Hp Hlt. rewrite (convert_branches _ _ Hp), Hlt.
  unfold astype_int16, np_mul, np_div, np_map. cbn [shape items].
  now rewrite !map_map.
Qed.

Lemma convert_unscaled (data : ndarray float32) (peak : float32) :
  np_max (np_abs data) = Ok peak ->
  F32.ltb f32_one peak = false ->
  convert_to_16_bit_wav data
  = Ok (mk_ndarray (shape data) (map quantise (items data))).
Proof.
  intros Hp Hlt. rewrite (convert_branches _ _ Hp), Hlt.
  unfold astype_int16, np_mul, np_map. cbn [shape items].
  now rewrite !map_map.
Qed.

(** C2: for a buffer whose peak absolute sample is [peak], if [peak] is
    above 1.0 every output sample is the sample divided by [peak], times
    32767, cast to 16 bits; if [peak] is at most 1.0 every output sample is
    the sample itself times 32767, cast to 16 bits.  With a peak of 2.0 and
    well-formed samples, twice an output sample differs by at most one from
    the integer part of the sample times 32767: the output is half the
    unrescaled value, within the rounding of the cast. *)
Theorem convert_rescales_above_one (data : ndarray float32) (peak : float32) :
  np_max (np_abs data) = Ok peak ->
  (F32.ltb f32_one peak = true ->
   convert_to_16_bit_wav data
   = Ok (mk_ndarray (shape data) (map (quantise_rescaled peak) (items data)))) /\
  (F32.leb peak f32_one = true ->
   convert_to_16_bit_wav data
   = Ok (mk_ndarray (shape data) (map quantise (items data)))) /\
  (peak = f32_two ->
   Forall (fun x => F32.valid x = true) (items data) ->
   convert_to_16_bit_wav data
   = Ok (mk_ndarray (shape data) (map (quantise_rescaled f32_two) (items data))) /\
   Forall (fun x => exists u,
               unrescaled_value x = Some u /\
               Z.abs (2 * quantise_rescaled f32_two x - u) <= 1)
     (items data)).
Proof.
  intros Hp. split; [| split].
  - now apply convert_rescaled.
  - intros Hle. apply (convert_unscaled _ _ Hp). now apply leb_one_not_above.
  - intros -> Hvalid. split.
    + apply (convert_rescaled _ _ Hp). vm_compute. reflexivity.
    + pose proof (peak_two_bounds data Hp) as Hb.
      rewrite Forall_forall in *. intros x Hx.
      apply halving_sample; auto.
Qed.

Lemma convert_rescales_above_one_witness :
  convert_to_16_bit_wav
    (mk_ndarray [3%nat] [Sample.half; f32_two; f32_minus_one])
  = Ok (mk_ndarray [3%nat] [8191; 32767; -16383]) /\
  Forall (fun x => exists u,
              unrescaled_value x = Some u /\
              Z.abs (2 * quantise_rescaled f32_two x - u) <= 1)
    [Sample.half; f32_two; f32_minus_one].
Proof.
  assert (Hp : np_max (np_abs (mk_ndarray [3%nat] [Sample.half; f32_two; f32_minus_one]))
               = Ok f32_two) by (vm_compute; reflexivity).
  destruct (convert_rescales_above_one _ _ Hp) as (_ & _ & H).
  destruct (H eq_refl) as (H1 & H2).
  - repeat constructor.
  - split; [| exact H2]. rewrite H1. vm_compute. reflexivity.
Defined.

(** A buffer with a peak of 0.5 is quantised as it stands. *)
Lemma convert_peak_half :
  convert_to_16_bit_wav (mk_ndarray [2%nat] [Sample.half; Sample.quarter])
  = Ok (mk_ndarray [2%nat] [16383; 8191]).
Proof. vm_compute. reflexivity. Qed.

(** ** Strings without white space at the ends *)

Lemma lstrip_length (s : string) :
  (String.length (PyStr.lstrip s) <= String.length s)%nat.
Proof.
  induction s as [| c s IH]; cbn [PyStr.lstrip String.length]; [lia |].
  destruct (PyStr.isspace c); cbn [String.length]; lia.
Qed.

Lemma lstrip_fixed_head (c : ascii) (s : string) :
  PyStr.lstrip (String c s) = String c s -> PyStr.isspace c = false.
Proof.
  cbn [PyStr.lstrip]. destruct (PyStr.isspace c); [| reflexivity].
  intros H. pose proof (lstrip_length s) as Hl. rewrite H in Hl.
  cbn [String.length] in Hl. lia.
Qed.

Lemma lstrip_head (s : string) (c : ascii) (r : string) :
  PyStr.lstrip s = String c r -> PyStr.isspace c = false.
Proof.
  induction s as [| d s IH]; cbn [PyStr.lstrip]; [discriminate |].
  destruct (PyStr.isspace d) eqn:Hd; [exact IH |].
  intros [= <- <-]. exact Hd.
Qed.

Lemma lstrip_app (a b : string) :
  a <> EmptyString -> PyStr.lstrip a = a -> PyStr.lstrip (a ++ b) = (a ++ b)%string.
Proof.
  destruct a as [| c a]; [congruence |]. intros _ H.
  apply lstrip_fixed_head in H. cbn [append PyStr.lstrip]. now rewrite H.
Qed.

Lemma rstrip_head (s : string) (c : ascii) (r : string) :
  PyStr.rstrip s = String c r -> exists s', s = String c s'.
Proof.
  destruct s as [| d s]; cbn [PyStr.rstrip]; [discriminate |].
  destruct (PyStr.rstrip s).
  - destruct (PyStr.isspace d); [discriminate |]. intros [= <- <-]. eauto.
  - intros [= <- <-]. eauto.
Qed.

Lemma rstrip_idem (s : string) : PyStr.rstrip (PyStr.rstrip s) = PyStr.rstrip s.
Proof.
  induction s as [| c s IH]; [reflexivity |]. cbn [PyStr.rstrip].
  destruct (PyStr.rstrip s) as [| d r] eqn:Hr.
  - destruct (PyStr.isspace c) eqn:Hc; [reflexivity |].
    cbn [PyStr.rstrip]. now rewrite Hc.
  - cbn [PyStr.rstrip] in *. now rewrite IH.
Qed.

Lemma rstrip_app (a b : string) :
  b <> EmptyString -> PyStr.rstrip b = b -> PyStr.rstrip (a ++ b) = (a ++ b)%string.
Proof.
  intros Hb H. induction a as [| c a IH]; [exact H |].
  cbn [append PyStr.rstrip]. rewrite IH.
  destruct (a ++ b)%string eqn:Hab; [| reflexivity].
  destruct a; cbn [append] in Hab; congruence.
Qed.

(** A stripped string that is not empty has no white space at either end. *)
Lemma strip_tight (s : string) :
  PyStr.strip s <> EmptyString ->
  PyStr.lstrip (PyStr.strip s) = PyStr.strip s /\
  PyStr.rstrip (PyStr.strip s) = PyStr.strip s.
Proof.
  intros Hne. split; [| apply rstrip_idem].
  unfold PyStr.strip in *.
  destruct (PyStr.rstrip (PyStr.lstrip s)) as [| c r] eqn:Hr; [congruence |].
  destruct (rstrip_head _ _ _ Hr) as (s' & Hs').
  apply lstrip_head in Hs'. cbn [PyStr.lstrip]. now rewrite Hs'.
Qed.

Lemma strip_idem (s : string) : PyStr.strip (PyStr.strip s) = PyStr.strip s.
Proof.
  destruct (string_dec (PyStr.strip s) EmptyString) as [He | Hne].
  - now rewrite He.
  - destruct (strip_tight s Hne) as (Hl & Hr).
    unfold PyStr.strip at 1. now rewrite Hl.
Qed.

Lemma tight_strip (s : string) :
  PyStr.lstrip s = s -> PyStr.rstrip s = s -> PyStr.strip s = s.
Proof. intros Hl Hr. unfold PyStr.strip. now rewrite Hl. Qed.

Lemma is_empty_false (s : string) : PyStr.is_empty s = false <-> s <> EmptyString.
Proof. destruct s; cbn; split; congruence. Qed.

(** ** Characters that stay out *)

Lemma contains_app (c : ascii) (a b : string) :
  PyStr.contains c (a ++ b) = PyStr.contains c a || PyStr.contains c b.
Proof.
  induction a as [| d a IH]; [reflexivity |].
  cbn [append PyStr.contains]. rewrite IH. now rewrite orb_assoc.
Qed.

Lemma contains_lstrip (c : ascii) (s : string) :
  PyStr.contains c s = false -> PyStr.contains c (PyStr.lstrip s) = false.
Proof.
  induction s as [| d s IH]; [reflexivity |]. cbn [PyStr.lstrip].
  destruct (PyStr.isspace d); [| trivial].
  cbn [PyStr.contains]. intros H. apply orb_false_iff in H. now apply IH.
Qed.

Lemma contains_rstrip (c : ascii) (s : string) :
  PyStr.contains c s = false -> PyStr.contains c (PyStr.rstrip s) = false.
Proof.
  induction s as [| d s IH]; [reflexivity |]. cbn [PyStr.rstrip PyStr.contains].
  intros H. apply orb_false_iff in H. destruct H as (Hd & Hs).
  specialize (IH Hs). destruct (PyStr.rstrip s).
  - destruct (PyStr.isspace d); [reflexivity |]. cbn [PyStr.contains].
    now rewrite Hd.
  - cbn [PyStr.contains] in *. now rewrite Hd, IH.
Qed.

Lemma contains_strip (c : ascii) (s : string) :
  PyStr.contains c s = false -> PyStr.contains c (PyStr.strip s) = false.
Proof. intros H. unfold PyStr.strip. now apply contains_rstrip, contains_lstrip. Qed.

Lemma split_pieces (sep : ascii) (s : string) :
  Forall (fun p => PyStr.contains sep p = false) (PyStr.split sep s).
Proof.
  induction s as [| c s IH]; cbn [PyStr.split].
  - constructor; [reflexivity | constructor].
  - destruct (Ascii.eqb c sep) eqn:Hc.
    + constructor; [reflexivity | exact IH].
    + destruct (PyStr.split sep s) as [| w ws].
      * constructor; [| constructor]. cbn [PyStr.contains]. now rewrite Hc.
      * inversion IH; subst. constructor; [| assumption].
        cbn [PyStr.contains]. now rewrite Hc.
Qed.

Lemma split_none (sep : ascii) (s : string) :
  PyStr.contains sep s = false -> PyStr.split sep s = [s].
Proof.
  induction s as [| c s IH]; [reflexivity |]. cbn [PyStr.contains PyStr.split].
  intros H. apply orb_false_iff in H. destruct H as (Hc & Hs).
  now rewrite Hc, (IH Hs).
Qed.

Lemma split_app (sep : ascii) (p s : string) :
  PyStr.contains sep p = false ->
  PyStr.split sep (p ++ String sep s) = p :: PyStr.split sep s.
Proof.
  induction p as [| c p IH]; cbn [append PyStr.contains PyStr.split].
  - intros _. now rewrite Ascii.eqb_refl.
  - intros H. apply orb_false_iff in H. destruct H as (Hc & Hp).
    now rewrite Hc, (IH Hp).
Qed.

(** Splitting what [join] built gives the parts back. *)
Lemma split_join (sep : ascii) (ls : list string) :
  ls <> [] ->
  Forall (fun p => PyStr.contains sep p = false) ls ->
  PyStr.split sep (PyStr.join (String sep EmptyString) ls) = ls.
Proof.
  induction ls as [| p ls IH]; [congruence |]. intros _ Hall.
  inversion Hall as [| ? ? Hp Hls]; subst.
  destruct ls as [| q ls].
  - cbn [PyStr.join]. now apply split_none.
  - change (PyStr.join (String sep EmptyString) (p :: q :: ls))
      with (p ++ String sep (PyStr.join (String sep EmptyString) (q :: ls)))%string.
    rewrite split_app by assumption. f_equal. apply IH; [discriminate | assumption].
Qed.

Lemma uint_no_char (c : ascii) (d : Decimal.uint) :
  (nat_of_ascii c < 48)%nat ->
  PyStr.contains c (NilEmpty.string_of_uint d) = false.
Proof.
  intros Hc.
  induction d; cbn [NilEmpty.string_of_uint PyStr.contains]; rewrite ?IHd;
    try reflexivity.
  all: rewrite orb_false_r; apply Ascii.eqb_neq; intros <-; vm_compute in Hc; lia.
Qed.

Lemma of_int_no_nl (n : Z) : PyStr.contains PyStr.nl (PyStr.of_int n) = false.
Proof.
  unfold PyStr.of_int, NilZero.string_of_int.
  assert (H : forall d, PyStr.contains PyStr.nl (NilZero.string_of_uint d) = false).
  { intros d. unfold NilZero.string_of_uint.
    destruct d; try reflexivity;
      apply (uint_no_char PyStr.nl); vm_compute; lia. }
  destruct (Z.to_int n); [apply H |].
  cbn [PyStr.contains]. now rewrite H.
Qed.

Lemma string_app_assoc (a b c : string) : ((a ++ b) ++ c = a ++ (b ++ c))%string.
Proof. induction a as [| x a IH]; cbn [append]; [reflexivity | now rewrite IH]. Qed.

Lemma prefix_app (p s : string) : String.prefix p (p ++ s) = true.
Proof.
  induction p as [| c p IH]; cbn [append String.prefix]; [now destruct s |].
  destruct (ascii_dec c c); [exact IH | congruence].
Qed.

(** ** The lines of the formatted script *)

Lemma labelled_line_turn (k : Z) (l : string) :
  l <> EmptyString ->
  PyStr.lstrip l = l -> PyStr.rstrip l = l ->
  PyStr.contains PyStr.nl l = false ->
  speaker_turn ("Speaker " ++ PyStr.of_int k ++ ": " ++ l).
Proof.
  intros Hne Hl Hr Hnl. unfold speaker_turn. repeat split.
  - unfold has_speaker_format, PyStr.startswith. rewrite prefix_app.
    rewrite !contains_app. cbn [andb].
    replace (PyStr.contains ":" ": ") with true by reflexivity.
    now rewrite !orb_true_r.
  - discriminate.
  - apply tight_strip.
    + reflexivity.
    + rewrite <- !string_app_assoc. now apply rstrip_app.
  - rewrite !contains_app, of_int_no_nl, Hnl. reflexivity.
Qed.

(** One iteration keeps the lines formatted so far and adds at most one,
    which is a speaker line. *)
Lemma format_line_turns (n : Z) (acc acc' : list string) (line : string) :
  PyStr.contains PyStr.nl line = false ->
  format_line n acc line = Ok acc' ->
  exists new,
    acc' = acc ++ new /\ Forall speaker_turn new /\
    List.length new
    = List.length (filter (fun l => negb (PyStr.is_empty l)) [PyStr.strip line]).
Proof.
  intros Hnl. unfold format_line. cbn [filter].
  destruct (PyStr.is_empty (PyStr.strip line)) eqn:He; cbn [negb].
  - intros [= <-]. exists []. rewrite app_nil_r. repeat split. constructor.
  - apply is_empty_false in He. destruct (strip_tight line He) as (Hl & Hr).
    pose proof (contains_strip _ _ Hnl) as Hnl'.
    destruct (has_speaker_format (PyStr.strip line)) eqn:Hf.
    + intros [= <-]. eexists. split; [reflexivity |]. split; [| reflexivity].
      constructor; [| constructor]. unfold speaker_turn.
      rewrite strip_idem. auto.
    + unfold py_mod. destruct (n =? 0); cbn [bind]; [discriminate |].
      intros [= <-]. eexists. split; [reflexivity |]. split; [| reflexivity].
      constructor; [| constructor]. now apply labelled_line_turn.
Qed.

Lemma format_loop_turns (n : Z) (lines acc out : list string) :
  Forall (fun p => PyStr.contains PyStr.nl p = false) lines ->
  for_each (format_line n) lines acc = Ok out ->
  exists new,
    out = acc ++ new /\ Forall speaker_turn new /\
    List.length new
    = List.length (filter (fun l => negb (PyStr.is_empty l)) (map PyStr.strip lines)).
Proof.
  intros Hall. revert acc. induction Hall as [| line lines Hnl Hall IH]; intros acc.
  - cbn [for_each]. intros [= <-]. exists []. rewrite app_nil_r. repeat split.
    constructor.
  - cbn [for_each]. intros H. inv_bind H.
    destruct (format_line_turns _ _ _ _ Hnl Ha) as (new1 & -> & Hf1 & Hl1).
    destruct (IH _ H) as (new2 & -> & Hf2 & Hl2).
    exists (new1 ++ new2). rewrite app_assoc. split; [reflexivity |].
    split; [now apply Forall_app |].
    rewrite length_app, Hl1, Hl2. cbn [map filter].
    destruct (negb _); cbn [List.length]; lia.
Qed.

Lemma format_script_lines_turns (n : Z) (script : string) (ls : list string) :
  format_script_lines n script = Ok ls ->
  Forall speaker_turn ls /\ List.length ls = List.length (script_lines script).
Proof.
  unfold format_script_lines, script_lines. intros H.
  apply format_loop_turns in H; [| apply split_pieces].
  destruct H as (new & -> & Hf & Hl). cbn [app]. now split.
Qed.

(** A script with something else than white space has a first line that is
    kept. *)
Lemma script_lines_nonempty (script : string) :
  PyStr.strip script <> EmptyString -> script_lines script <> [].
Proof.
  intros Hne. unfold script_lines.
  destruct (strip_tight script Hne) as (Hl & _).
  destruct (PyStr.strip script) as [| c s] eqn:Hs; [congruence |].
  apply lstrip_fixed_head in Hl.
  assert (Hc : Ascii.eqb c PyStr.nl = false).
  { apply Ascii.eqb_neq. intros ->. vm_compute in Hl. discriminate. }
  cbn [PyStr.split]. rewrite Hc.
  assert (Hkeep : forall w, PyStr.is_empty (PyStr.strip (String c w)) = false).
  { intros w. unfold PyStr.strip. cbn [PyStr.lstrip]. rewrite Hl.
    cbn [PyStr.rstrip]. destruct (PyStr.rstrip w); [now rewrite Hl | reflexivity]. }
  destruct (PyStr.split PyStr.nl s) as [| w ws]; cbn [map filter];
    rewrite Hkeep; discriminate.
Qed.

Lemma join_turns_tight (ls : list string) :
  ls <> [] -> Forall speaker_turn ls ->
  let t := PyStr.join (String PyStr.nl EmptyString) ls in
  t <> EmptyString /\ PyStr.lstrip t = t /\ PyStr.rstrip t = t.
Proof.
  assert (Htight : forall l, speaker_turn l ->
            l <> EmptyString /\ PyStr.lstrip l = l /\ PyStr.rstrip l = l).
  { intros l (Hf & Hne & Hs & _). split; [exact Hne |].
    rewrite <- Hs. apply strip_tight. now rewrite Hs. }
  induction ls as [| p ls IH]; [congruence |]. intros _ Hall.
  inversion Hall as [| ? ? Hp Hls]; subst.
  destruct (Htight _ Hp) as (Hne & Hl & Hr).
  destruct ls as [| q ls]; [cbn; auto |].
  destruct (IH ltac:(discriminate) Hls) as (Hne' & Hl' & Hr').
  change (PyStr.join (String PyStr.nl EmptyString) (p :: q :: ls))
    with (p ++ String PyStr.nl (PyStr.join (String PyStr.nl EmptyString) (q :: ls)))%string.
  cbn zeta. split; [| split].
  - destruct p; [congruence | discriminate].
  - now apply lstrip_app.
  - change (String PyStr.nl ?x) with (String PyStr.nl EmptyString ++ x)%string.
    rewrite <- string_app_assoc. now apply rstrip_app.
Qed.

(** The loop leaves lines that are speaker lines already as they are. *)
Lemma format_loop_fixed (n : Z) (ls acc : list string) :
  Forall speaker_turn ls ->
  for_each (format_line n) ls acc = Ok (acc ++ ls).
Proof.
  intros Hall. revert acc. induction Hall as [| l ls (Hf & Hne & Hs & _) Hall IH];
    intros acc; cbn [for_each].
  - now rewrite app_nil_r.
  - unfold format_line at 1. rewrite Hs, Hf.
    apply is_empty_false in Hne. rewrite Hne. cbn [bind].
    rewrite IH, <- app_assoc. reflexivity.
Qed.

(** ** The request model, both ways *)

Lemma field_num_speakers_range (v : option Z) (n : Z) :
  field_num_speakers v = Ok n <->
  n = match v with Some k => k | None => 2 end /\ 1 <= n <= 4.
Proof.
  unfold field_num_speakers. destruct v as [k |].
  - destruct (k <? 1) eqn:H1; [| destruct (4 <? k) eqn:H4].
    + apply Z.ltb_lt in H1. split; [discriminate | lia].
    + apply Z.ltb_lt in H4. split; [discriminate | lia].
    + apply Z.ltb_ge in H1, H4. split; [intros [= <-]; lia | intros (-> & _); reflexivity].
  - split; [intros [= <-]; lia | intros (-> & _); reflexivity].
Qed.

Lemma field_cfg_scale_range (v : option Q) (c : Q) :
  field_cfg_scale v = Ok c <->
  c = match v with Some x => x | None => (13 # 10)%Q end /\ (1 <= c <= 2)%Q.
Proof.
  unfold field_cfg_scale. destruct v as [x |].
  - destruct (Qle_bool 1 x) eqn:H1; cbn [negb];
      [destruct (Qle_bool x 2) eqn:H2; cbn [negb] |].
    + apply Qle_bool_iff in H1, H2.
      split; [intros [= <-]; auto | intros (-> & _); reflexivity].
    + split; [discriminate |]. intros (-> & _ & H). apply Qle_bool_iff in H. congruence.
    + split; [discriminate |]. intros (-> & H & _). apply Qle_bool_iff in H. congruence.
  - split.
    + intros [= <-]. split; [reflexivity |]. split; unfold Qle; cbn; lia.
    + intros (-> & _). reflexivity.
Qed.

Lemma validate_speakers_ok (v l : list string) (n : Z) :
  validate_speakers v (Some n) = Ok l <->
  l = v /\ (v = [] \/ Z.of_nat (List.length v) = n).
Proof.
  unfold validate_speakers.
  destruct (0 <? Z.of_nat (List.length v)) eqn:H0; cbn [andb].
  - apply Z.ltb_lt in H0.
    destruct (Z.of_nat (List.length v) =? n) eqn:Hn; cbn [negb].
    + apply Z.eqb_eq in Hn. split; [intros [= <-]; auto | intros (-> & _); reflexivity].
    + apply Z.eqb_neq in Hn. split; [discriminate |].
      intros (_ & [-> | H]); [cbn in H0; lia | congruence].
  - apply Z.ltb_ge in H0. split; [| intros (-> & _); reflexivity].
    intros [= <-]. split; [reflexivity |]. left.
    destruct v; [reflexivity | cbn [List.length] in H0; lia].
Qed.

(** The formatting strips the script itself, so a script stripped before
    is formatted alike. *)
Lemma format_script_strip (n : Z) (script : string) :
  format_script n (PyStr.strip script) = format_script n script.
Proof. unfold format_script, format_script_lines. now rewrite strip_idem. Qed.

Lemma py_prefix_all {A : Type} (l : list A) :
  py_prefix (Z.of_nat (List.length l)) l = l.
Proof.
  unfold py_prefix. destruct (0 <=? Z.of_nat (List.length l)) eqn:H.
  - rewrite Nat2Z.id. apply firstn_all.
  - apply Z.leb_gt in H. lia.
Qed.

Lemma validate_request_inv (body : RequestBody) (request : GenerationRequest) :
  validate_request body = inr request ->
  body_script body = Some (script request) /\
  num_speakers request = requested_num_speakers body /\
  1 <= num_speakers request <= 4 /\
  speakers request = match body_speakers body with Some l => l | None => [] end /\
  (speakers request = [] \/
   Z.of_nat (List.length (speakers request)) = num_speakers request) /\
  cfg_scale request
    = match body_cfg_scale body with Some c => c | None => (13 # 10)%Q end /\
  (1 <= cfg_scale request <= 2)%Q.
Proof.
  destruct request as [s n l c]. cbn [script num_speakers speakers cfg_scale].
  unfold validate_request, requested_num_speakers.
  destruct (field_script (body_script body)) as [s' |] eqn:Hs; [| discriminate].
  destruct (field_num_speakers (body_num_speakers body)) as [n' |] eqn:Hn;
    [| discriminate].
  destruct (field_speakers (body_speakers body) (Ok n')) as [l' |] eqn:Hl;
    [| discriminate].
  destruct (field_cfg_scale (body_cfg_scale body)) as [c' |] eqn:Hc;
    [| discriminate].
  intros [= -> -> -> ->].
  apply field_num_speakers_range in Hn. apply field_cfg_scale_range in Hc.
  destruct Hn as (Hn1 & Hn2), Hc as (Hc1 & Hc2).
  unfold field_script in Hs. destruct (body_script body); [| discriminate].
  injection Hs as ->.
  unfold field_speakers in Hl. destruct (body_speakers body) as [v |].
  - apply validate_speakers_ok in Hl. destruct Hl as (-> & Hl). tauto.
  - injection Hl as <-. tauto.
Qed.

Lemma validate_request_intro (body : RequestBody) (request : GenerationRequest) :
  body_script body = Some (script request) ->
  num_speakers request = requested_num_speakers body ->
  1 <= num_speakers request <= 4 ->
  speakers request = match body_speakers body with Some l => l | None => [] end ->
  (speakers request = [] \/
   Z.of_nat (List.length (speakers request)) = num_speakers request) ->
  cfg_scale request
    = match body_cfg_scale body with Some c => c | None => (13 # 10)%Q end ->
  (1 <= cfg_scale request <= 2)%Q ->
  validate_request body = inr request.
Proof.
  destruct request as [s n l c]. cbn [script num_speakers speakers cfg_scale].
  unfold validate_request, requested_num_speakers.
  intros Hs Hn1 Hn2 Hl1 Hl2 Hc1 Hc2.
  rewrite Hs. cbn [field_script].
  assert (Hn : field_num_speakers (body_num_speakers body) = Ok n)
    by (apply field_num_speakers_range; auto).
  assert (Hc : field_cfg_scale (body_cfg_scale body) = Ok c)
    by (apply field_cfg_scale_range; auto).
  rewrite Hn, Hc.
  assert (Hl : field_speakers (body_speakers body) (Ok n) = Ok l).
  { unfold field_speakers. destruct (body_speakers body) as [v |].
    - apply validate_speakers_ok. subst l. auto.
    - now subst l. }
  now rewrite Hl.
Qed.

(** ** Speaker selection *)

Lemma list_mem_In (x : string) (l : list string) : list_mem x l = true <-> In x l.
Proof.
  unfold list_mem. rewrite existsb_exists. split.
  - intros (y & Hy & He). apply String.eqb_eq in He. now subst.
  - intros H. exists x. split; [exact H | apply String.eqb_refl].
Qed.

Lemma list_mem_false (x : string) (l : list string) :
  list_mem x l = false <-> ~ In x l.
Proof.
  rewrite <- list_mem_In. destruct (list_mem x l); split; congruence.
Qed.

Lemma dict_mem_In (x : string) (d : list (string * string)) :
  dict_mem x d = true <-> In x (map fst d).
Proof.
  unfold dict_mem. rewrite existsb_exists, in_map_iff. split.
  - intros (kv & Hkv & He). apply String.eqb_eq in He. eauto.
  - intros (kv & He & Hkv). exists kv. split; [exact Hkv |]. subst.
    apply String.eqb_refl.
Qed.

Lemma NoDup_firstn {A : Type} (n : nat) (l : list A) : NoDup l -> NoDup (firstn n l).
Proof.
  intros H. rewrite <- (firstn_skipn n l) in H. now apply NoDup_app_remove_r in H.
Qed.

Lemma In_firstn {A : Type} (n : nat) (l : list A) (x : A) : In x (firstn n l) -> In x l.
Proof. intros H. rewrite <- (firstn_skipn n l). apply in_or_app. now left. Qed.

(** The filling loop, in closed form: it appends the first [remaining]
    voices that are not selected yet. *)
Lemma fill_spec (l selected : list string) (remaining : Z) :
  NoDup l ->
  fst (fold_left
         (fun (st : list string * Z) speaker =>
            let (selected, remaining) := st in
            if remaining <=? 0 then st
            else if negb (list_mem speaker selected)
                 then (selected ++ [speaker], remaining - 1)
                 else st)
         l (selected, remaining))
  = selected ++ firstn (Z.to_nat remaining)
                  (filter (fun speaker => negb (list_mem speaker selected)) l).
Proof.
  intros Hnd. revert selected remaining.
  induction Hnd as [| x l Hx Hnd IH]; intros selected remaining; cbn [fold_left filter].
  - now rewrite firstn_nil, app_nil_r.
  - destruct (remaining <=? 0) eqn:Hr.
    + rewrite IH. apply Z.leb_le in Hr.
      replace (Z.to_nat remaining) with 0%nat by lia. reflexivity.
    + apply Z.leb_gt in Hr. destruct (list_mem x selected) eqn:Hm; cbn [negb].
      * apply IH.
      * rewrite IH, <- app_assoc. cbn [app]. f_equal.
        replace (Z.to_nat remaining) with (S (Z.to_nat (remaining - 1))) by lia.
        cbn [firstn]. f_equal. f_equal. apply filter_ext_in.
        intros y Hy. f_equal. unfold list_mem. rewrite existsb_app. cbn [existsb].
        rewrite orb_false_r.
        destruct (String.eqb y x) eqn:He; [| now rewrite orb_false_r].
        apply String.eqb_eq in He. subst. contradiction.
Qed.

Lemma default_selection_fill (srv : VibeVoiceServer) (n : Z) :
  NoDup (available_speakers srv) ->
  default_selection srv n
  = preset_speakers srv n
      ++ firstn (Z.to_nat (n - Z.of_nat (List.length (preset_speakers srv n))))
           (other_speakers srv (preset_speakers srv n)).
Proof. intros Hnd. unfold default_selection. now rewrite fill_spec. Qed.

Lemma default_speakers_NoDup : NoDup default_speakers.
Proof.
  unfold default_speakers.
  repeat (constructor; [cbn [In]; intros H; repeat destruct H as [H | H];
                        try discriminate; exact H |]).
  constructor.
Qed.

Lemma preset_speakers_facts (srv : VibeVoiceServer) (n : Z) :
  0 <= n ->
  NoDup (preset_speakers srv n) /\
  incl (preset_speakers srv n) (available_speakers srv) /\
  Z.of_nat (List.length (preset_speakers srv n)) <= n.
Proof.
  intros Hn. unfold preset_speakers, py_prefix.
  replace (0 <=? n) with true by (symmetry; now apply Z.leb_le).
  split; [| split].
  - apply NoDup_filter, NoDup_firstn, default_speakers_NoDup.
  - intros x Hx. apply filter_In in Hx. now apply list_mem_In.
  - pose proof (filter_length_le
                  (fun speaker => list_mem speaker (available_speakers srv))
                  (firstn (Z.to_nat n) default_speakers)) as H1.
    pose proof (firstn_le_length (Z.to_nat n) default_speakers) as H2. lia.
Qed.

(** How many voices are left once some of them are selected. *)
Lemma other_speakers_length (srv : VibeVoiceServer) (selected : list string) :
  NoDup (available_speakers srv) -> NoDup selected ->
  incl selected (available_speakers srv) ->
  (List.length (other_speakers srv selected) + List.length selected
   = List.length (available_speakers srv))%nat.
Proof.
  intros Hnd Hsel Hincl. unfold other_speakers.
  pose proof (filter_length (fun speaker => list_mem speaker selected)
                (available_speakers srv)) as Hlen.
  cbv beta in Hlen.
  assert (List.length (filter (fun speaker => list_mem speaker selected)
                         (available_speakers srv)) = List.length selected); [| lia].
  apply Nat.le_antisymm.
  - apply NoDup_incl_length; [now apply NoDup_filter |].
    intros x Hx. apply filter_In in Hx. now apply list_mem_In.
  - apply NoDup_incl_length; [exact Hsel |].
    intros x Hx. apply filter_In. split; [now apply Hincl | now apply list_mem_In].
Qed.

Lemma check_speakers_known (srv : VibeVoiceServer) (selected : list string) :
  Forall (known_speaker srv) selected -> check_speakers srv selected = Ok tt.
Proof.
  unfold check_speakers. induction 1 as [| s l Hs Hl IH]; cbn [for_each]; [reflexivity |].
  unfold known_speaker in Hs. rewrite Hs. cbn [negb bind]. exact IH.
Qed.

Lemma check_speakers_unknown (srv : VibeVoiceServer) (known : list string)
  (speaker : string) (rest : list string) :
  Forall (known_speaker srv) known ->
  dict_mem speaker (available_voices srv) = false ->
  check_speakers srv (known ++ speaker :: rest)
  = Raise (HTTPException 400 ("Speaker '" ++ speaker ++ "' not found")%string).
Proof.
  unfold check_speakers. intros Hk Hs.
  induction Hk as [| s l Hs' Hl IH]; cbn [app for_each].
  - now rewrite Hs.
  - unfold known_speaker in Hs'. rewrite Hs'. cbn [negb bind]. exact IH.
Qed.

(** A list is all known speakers, or has a first one that is not. *)
Lemma first_unknown (srv : VibeVoiceServer) (selected : list string) :
  Forall (known_speaker srv) selected \/
  exists known speaker rest,
    selected = known ++ speaker :: rest /\
    Forall (known_speaker srv) known /\
    dict_mem speaker (available_voices srv) = false.
Proof.
  induction selected as [| s l IH]; [left; constructor |].
  destruct (dict_mem s (available_voices srv)) eqn:Hs.
  - destruct IH as [IH | (known & speaker & rest & -> & Hk & Hu)].
    + left. now constructor.
    + right. exists (s :: known), speaker, rest. repeat split; [| assumption].
      now constructor.
  - right. exists [], s, l. repeat split; [constructor | assumption].
Qed.

Lemma dict_get_known (srv : VibeVoiceServer) (speaker : string) :
  known_speaker srv speaker ->
  exists path, dict_get speaker (available_voices srv) = Ok path /\
               In (speaker, path) (available_voices srv).
Proof.
  unfold known_speaker, dict_mem, dict_get. intros H.
  destruct (find _ _) as [kv |] eqn:Hf.
  - exists (snd kv). split; [reflexivity |].
    apply find_some in Hf. destruct Hf as (Hin & He).
    apply String.eqb_eq in He. destruct kv; cbn in *; now subst.
  - apply existsb_exists in H. destruct H as (kv & Hin & He).
    eapply find_none in Hf; [| exact Hin]. cbv beta in Hf. congruence.
Qed.

Lemma check_speakers_ok_known (srv : VibeVoiceServer) (selected : list string) :
  check_speakers srv selected = Ok tt -> Forall (known_speaker srv) selected.
Proof.
  intros H. destruct (first_unknown srv selected)
    as [Hk | (known & speaker & rest & -> & Hk & Hu)]; [exact Hk |].
  rewrite (check_speakers_unknown _ _ _ _ Hk Hu) in H. discriminate.
Qed.

Lemma bind_ret {A B : Type} (a : A) (k : A -> result B) : bind (Ok a) k = k a.
Proof. reflexivity. Qed.

Lemma bind_raise {A B : Type} (e : exn) (k : A -> result B) :
  bind (Raise e) k = Raise e.
Proof. reflexivity. Qed.

(** The loading loop on speakers that are known: a waveform for each, in
    order, or the first one that is empty. *)
Lemma load_loop (w : World) (srv : VibeVoiceServer) (selected : list string)
  (acc : list (list float32)) :
  Forall (known_speaker srv) selected ->
  (exists samples,
      for_each
        (fun voice_samples speaker_name =>
           audio_path <- dict_get speaker_name (available_voices srv) ;;
           let audio_data := read_audio w audio_path in
           if (List.length audio_data =? 0)%nat
           then Raise (HTTPException 500
                         ("Failed to load audio for " ++ speaker_name)%string)
           else Ok (voice_samples ++ [audio_data]))
        selected acc = Ok (acc ++ samples) /\
      Forall2 (fun speaker audio =>
                 exists path, In (speaker, path) (available_voices srv) /\
                              dict_get speaker (available_voices srv) = Ok path /\
                              audio = read_audio w path /\ audio <> [])
        selected samples) \/
  (exists loaded speaker rest path,
      selected = loaded ++ speaker :: rest /\
      Forall (fun earlier =>
                exists path', dict_get earlier (available_voices srv) = Ok path' /\
                              read_audio w path' <> [])
        loaded /\
      dict_get speaker (available_voices srv) = Ok path /\
      read_audio w path = [] /\
      for_each
        (fun voice_samples speaker_name =>
           audio_path <- dict_get speaker_name (available_voices srv) ;;
           let audio_data := read_audio w audio_path in
           if (List.length audio_data =? 0)%nat
           then Raise (HTTPException 500
                         ("Failed to load audio for " ++ speaker_name)%string)
           else Ok (voice_samples ++ [audio_data]))
        selected acc
      = Raise (HTTPException 500 ("Failed to load audio for " ++ speaker)%string)).
Proof.
  intros Hk. revert acc. induction Hk as [| s l Hs Hl IH]; intros acc.
  - left. exists []. cbn [for_each]. rewrite app_nil_r. split; [reflexivity | constructor].
  - destruct (dict_get_known _ _ Hs) as (path & Hg & Hin).
    cbn [for_each]. rewrite Hg, bind_ret. cbv zeta.
    destruct (read_audio w path) as [| x xs] eqn:Hr.
    + right. exists [], s, l, path. cbn [List.length Nat.eqb app].
      rewrite bind_raise. repeat split; auto.
    + cbn [List.length Nat.eqb]. rewrite bind_ret.
      destruct (IH (acc ++ [x :: xs]))
        as [(samples & Heq & Hf)
           | (ld & sp & rest & p & -> & Hld & Hg' & Hr' & Heq)].
      * left. exists ((x :: xs) :: samples). split.
        -- cbv zeta in Heq. rewrite Heq, <- app_assoc. reflexivity.
        -- constructor; [| exact Hf]. exists path. rewrite Hr. repeat split; auto.
           discriminate.
      * right. exists (s :: ld), sp, rest, p. cbv zeta in Heq.
        repeat split; auto.
        constructor; [| exact Hld]. exists path. rewrite Hr.
        split; [exact Hg | discriminate].
Qed.

(** The default selection: distinct, available, and as many as asked for
    or as there are voices. *)
Lemma default_selection_facts (srv : VibeVoiceServer) (n : Z) :
  NoDup (available_speakers srv) ->
  0 <= n ->
  NoDup (default_selection srv n) /\
  Forall (known_speaker srv) (default_selection srv n) /\
  Z.of_nat (List.length (default_selection srv n))
    = Z.min n (Z.of_nat (List.length (available_voices srv))) /\
  check_speakers srv (default_selection srv n) = Ok tt.
Proof.
  intros Hnd Hn. rewrite default_selection_fill by assumption.
  destruct (preset_speakers_facts srv n Hn) as (Hnd0 & Hincl & Hlen).
  pose proof (other_speakers_length srv _ Hnd Hnd0 Hincl) as Hoth.
  set (pre := preset_speakers srv n) in *.
  assert (Hknown : Forall (known_speaker srv)
                     (pre ++ firstn (Z.to_nat (n - Z.of_nat (List.length pre)))
                                (other_speakers srv pre))).
  { apply Forall_forall. intros x Hx. apply dict_mem_In.
    apply in_app_or in Hx. destruct Hx as [Hx | Hx]; [now apply Hincl |].
    apply In_firstn in Hx. unfold other_speakers in Hx.
    now apply filter_In in Hx. }
  split; [| split; [exact Hknown | split; [| now apply check_speakers_known]]].
  - apply NoDup_app; [exact Hnd0 | |].
    + apply NoDup_firstn. unfold other_speakers. now apply NoDup_filter.
    + intros x Hx Hx'. apply In_firstn in Hx'. unfold other_speakers in Hx'.
      apply filter_In in Hx'. destruct Hx' as (_ & Hx').
      apply negb_true_iff, list_mem_false in Hx'. contradiction.
  - rewrite length_app, length_firstn.
    unfold available_speakers in Hoth. rewrite length_map in Hoth. lia.
Qed.

(** ** The loop, item by item *)

Lemma chunks_before_stop_app (cs : list audio_chunk) (rest : list item) :
  chunks_before_stop (map Chunk cs ++ rest) = cs ++ chunks_before_stop rest.
Proof. induction cs as [| c cs IH]; cbn; [reflexivity | now rewrite IH]. Qed.

Lemma chunks_before_stop_cut (its rest : list item) :
  In StopSignal its -> chunks_before_stop (its ++ rest) = chunks_before_stop its.
Proof.
  induction its as [| [c |] its IH]; cbn [In app chunks_before_stop].
  - contradiction.
  - intros [H | H]; [discriminate |]. now rewrite IH.
  - reflexivity.
Qed.

(** While the loop iterates it has taken chunks only, and converted each. *)
Lemma drain_iterating (its : list item) (acc out : list (ndarray Z)) :
  drain its acc = Iterating out ->
  exists cs qs,
    its = map Chunk cs /\ out = acc ++ qs /\
    Forall2 (fun c q => convert_to_16_bit_wav (flatten_chunk c) = Ok q) cs qs.
Proof.
  revert acc. induction its as [| [c |] its IH]; intros acc; cbn [drain].
  - intros [= <-]. exists [], []. rewrite app_nil_r. repeat split. constructor.
  - rewrite collect_chunk_flatten.
    destruct (convert_to_16_bit_wav (flatten_chunk c)) as [q |] eqn:Hq;
      cbn [bind]; [| discriminate].
    intros H. destruct (IH _ H) as (cs & qs & -> & -> & Hf).
    exists (c :: cs), (q :: qs). rewrite <- app_assoc. repeat split.
    now constructor.
  - discriminate.
Qed.

(** The converse of [drain_ended]: chunks that all convert, then the stop
    signal, end the loop with the converted chunks. *)
Lemma drain_converts (cs : list audio_chunk) (qs : list (ndarray Z))
  (rest : list item) (acc : list (ndarray Z)) :
  Forall2 (fun c q => convert_to_16_bit_wav (flatten_chunk c) = Ok q) cs qs ->
  drain (map Chunk cs ++ StopSignal :: rest) acc = LoopEnded (acc ++ qs).
Proof.
  intros Hf. revert acc. induction Hf as [| c q cs qs Hq Hf IH]; intros acc.
  - cbn. now rewrite app_nil_r.
  - cbn [map app drain]. rewrite collect_chunk_flatten, Hq. cbn [bind].
    rewrite IH, <- app_assoc. reflexivity.
Qed.

(** The items of a stream that is closed: chunks, the stop signal, the rest. *)
Lemma split_at_stop (its : list item) :
  In StopSignal its ->
  exists rest, its = map Chunk (chunks_before_stop its) ++ StopSignal :: rest.
Proof.
  induction its as [| [c |] its IH]; cbn [In chunks_before_stop map app].
  - contradiction.
  - intros [H | H]; [discriminate |]. destruct (IH H) as (rest & Hr).
    exists rest. now rewrite <- Hr.
  - intros _. now exists its.
Qed.

(** ** Cutting a worker at its first [End] *)

Lemma until_end_items (acts : list worker_action) :
  In End acts ->
  map item_of (until_end acts)
  = map Chunk (chunks_before_stop (map item_of acts)) ++ [StopSignal].
Proof.
  induction acts as [| [c |] acts IH]; cbn [In until_end map item_of chunks_before_stop app].
  - contradiction.
  - intros [H | H]; [discriminate |]. now rewrite (IH H).
  - reflexivity.
Qed.

Lemma until_end_open (acts : list worker_action) :
  ~ In End acts -> until_end acts = acts.
Proof.
  induction acts as [| [c |] acts IH]; cbn [In until_end]; intros H.
  - reflexivity.
  - rewrite IH; [reflexivity |]. intros H'. apply H. now right.
  - exfalso. apply H. now left.
Qed.

Lemma until_end_length (acts : list worker_action) :
  (List.length (until_end acts) <= List.length acts)%nat.
Proof.
  induction acts as [| [c |] acts IH]; cbn [until_end List.length]; lia.
Qed.

Lemma drain_cut (its rest rest' : list item) (acc : list (ndarray Z)) :
  drain (its ++ StopSignal :: rest) acc = drain (its ++ StopSignal :: rest') acc.
Proof.
  rewrite !drain_app. destruct (drain its acc); reflexivity.
Qed.

(** What relates a run of a worker to the run of the worker cut at its
    first [End], under the same schedule. *)
Lemma cut_simulation (schedule : list turn) (b b' : bridge) :
  consumer b = consumer b' ->
  (queue b = queue b' /\ pending b' = until_end (pending b)) \/
  (exists q x, queue b' = q ++ [StopSignal] /\ queue b = q ++ StopSignal :: x /\
               pending b' = []) \/
  (forall acc, consumer b <> Iterating acc) ->
  consumer (run schedule b) = consumer (run schedule b').
Proof.
  revert b b'. induction schedule as [| t schedule IH]; intros b b' Hc Hrel;
    [exact Hc |].
  unfold run in *. cbn [fold_left]. destruct t; cbn [step].
  - (* the worker moves *)
    unfold worker_step.
    destruct Hrel as [(Hq & Hp) | [(q & x & Hq' & Hq & Hp) | Hdone]].
    + destruct (pending b) as [| [c |] rest] eqn:Hpb; cbn [until_end] in Hp; rewrite Hp.
      * apply IH; [exact Hc | left; rewrite Hpb; now split].
      * apply IH; cbn [consumer queue pending]; [exact Hc |].
        left. now rewrite Hq.
      * apply IH; cbn [consumer queue pending]; [exact Hc |].
        right; left. exists (queue b'), []. now rewrite Hq.
    + rewrite Hp. destruct (pending b) as [| a rest].
      * apply IH; [exact Hc |]. right; left. now exists q, x.
      * apply IH; cbn [consumer queue pending]; [exact Hc |].
        right; left. exists q, (x ++ [item_of a]). rewrite Hq, <- app_assoc.
        repeat split; assumption.
    + destruct (pending b), (pending b'); apply IH; cbn [consumer]; auto.
  - (* the handler moves *)
    unfold handler_step. rewrite <- Hc.
    destruct (consumer b) as [acc | acc | e] eqn:Hb.
    + destruct Hrel as [(Hq & Hp) | [(q & x & Hq' & Hq & Hp) | Hdone]].
      * rewrite <- Hq. destruct (queue b) as [| [c |] qs] eqn:Hqb.
        -- apply IH; [congruence | left; split; congruence].
        -- apply IH; cbn [consumer queue pending]; [reflexivity |].
           destruct (collect_chunk acc c); [left; now split | right; right; discriminate].
        -- apply IH; cbn [consumer]; [reflexivity | right; right; discriminate].
      * rewrite Hq, Hq'. destruct q as [| [c |] q]; cbn [app].
        -- apply IH; cbn [consumer]; [reflexivity | right; right; discriminate].
        -- apply IH; cbn [consumer queue pending]; [reflexivity |].
           destruct (collect_chunk acc c); [| right; right; discriminate].
           right; left. now exists q, x.
        -- apply IH; cbn [consumer]; [reflexivity | right; right; discriminate].
      * now destruct (Hdone acc).
    + apply IH; [congruence | right; right; rewrite Hb; discriminate].
    + apply IH; [congruence | right; right; rewrite Hb; discriminate].
Qed.

Lemma run_cut_at_end (wk : worker) (schedule : list turn) :
  consumer (run schedule (start wk)) = consumer (run schedule (start (cut_at_end wk))).
Proof.
  apply cut_simulation; [reflexivity |]. left. now split.
Qed.

Lemma stream_and_finish_cut {A : Type} (w : World) (wk : worker)
  (schedule : list turn) (finish : list (ndarray Z) -> result A) :
  stream_and_finish w wk schedule finish
  = stream_and_finish w (cut_at_end wk) schedule finish.
Proof. unfold stream_and_finish. now rewrite run_cut_at_end. Qed.

Lemma drain_cut_at_end (acts : list worker_action) (acc : list (ndarray Z)) :
  drain (map item_of (until_end acts)) acc = drain (map item_of acts) acc.
Proof.
  revert acc. induction acts as [| [c |] acts IH]; intros acc;
    cbn [until_end map item_of drain]; try reflexivity.
  destruct (collect_chunk acc c); [apply IH | reflexivity].
Qed.

(** ** Chunks that convert and concatenate *)

Lemma convert_nonempty (data : ndarray float32) :
  items data <> [] ->
  exists q,
    convert_to_16_bit_wav data = Ok q /\
    shape q = shape data /\
    List.length (items q) = List.length (items data).
Proof.
  intros Hne.
  destruct (np_max_nonempty (np_abs data)) as (peak & Hp).
  { unfold np_abs, np_map. cbn [items]. destruct (items data); [congruence | discriminate]. }
  pose proof (convert_branches _ _ Hp) as Hc.
  eexists. split; [exact Hc |]. now apply convert_shape.
Qed.

Lemma flatten_chunk_items (c : audio_chunk) :
  items (flatten_chunk c) = items (chunk_to_numpy c).
Proof. unfold flatten_chunk. now destruct (1 <? ndim (chunk_to_numpy c))%nat. Qed.

Lemma playable_flat (c : audio_chunk) :
  playable_chunk c ->
  shape (flatten_chunk c) = [List.length (items (flatten_chunk c))] /\
  items (flatten_chunk c) <> [].
Proof.
  intros (Hwf & Hne & Hdim). apply flatten_chunk_well_formed in Hwf.
  rewrite flatten_chunk_items. split; [| exact Hne].
  unfold well_formed, ndim in *. rewrite flatten_chunk_items in Hwf.
  destruct (shape (flatten_chunk c)) as [| n [| ? ?]]; try discriminate.
  cbn [fold_right] in Hwf. f_equal. lia.
Qed.

Lemma playable_convert (cs : list audio_chunk) :
  Forall playable_chunk cs ->
  exists qs,
    Forall2 (fun c q => convert_to_16_bit_wav (flatten_chunk c) = Ok q) cs qs /\
    Forall (fun q => shape q = [List.length (items q)]) qs /\
    List.length (List.concat (map items qs)) = List.length (all_samples cs).
Proof.
  induction 1 as [| c cs Hc Hcs (qs & Hf & Hsh & Hlen)].
  - exists []. repeat split; constructor.
  - destruct (playable_flat _ Hc) as (Hs & Hne).
    destruct (convert_nonempty _ Hne) as (q & Hq & Hqs & Hql).
    exists (q :: qs). split; [now constructor |]. split.
    + constructor; [| exact Hsh]. now rewrite Hqs, Hs, Hql.
    + unfold all_samples in *. cbn [map List.concat]. rewrite !length_app.
      rewrite Hql, flatten_chunk_items, Hlen. reflexivity.
Qed.

Lemma concatenate_one_axis {A : Type} (rest : list (ndarray A)) (a0 : ndarray A) :
  shape a0 = [List.length (items a0)] ->
  Forall (fun q => shape q = [List.length (items q)]) rest ->
  exists a,
    for_each concatenate_step rest a0 = Ok a /\
    shape a = [List.length (items a)] /\
    items a = items a0 ++ List.concat (map items rest).
Proof.
  intros H0 Hall. revert a0 H0.
  induction Hall as [| q rest Hq Hall IH]; intros a0 H0; cbn [for_each].
  - exists a0. cbn. now rewrite app_nil_r.
  - unfold concatenate_step at 1. rewrite H0, Hq.
    destruct (list_eq_dec Nat.eq_dec [] []) as [_ | Hn]; [| congruence].
    rewrite bind_ret.
    destruct (IH (mk_ndarray [(List.length (items a0) + List.length (items q))%nat]
                    (items a0 ++ items q))) as (a & Ha & Hs & Hi).
    { cbn [shape items]. now rewrite length_app. }
    exists a. split; [exact Ha |]. split; [exact Hs |].
    rewrite Hi. cbn [items map List.concat]. now rewrite <- app_assoc.
Qed.

Lemma combine_one_axis (qs : list (ndarray Z)) :
  qs <> [] ->
  Forall (fun q => shape q = [List.length (items q)]) qs ->
  exists audio_data,
    combine_chunks qs = Ok audio_data /\
    shape audio_data = [List.length (List.concat (map items qs))] /\
    List.length (items audio_data) = List.length (List.concat (map items qs)).
Proof.
  intros Hne Hall. destruct qs as [| q qs]; [congruence |].
  inversion Hall as [| ? ? Hq Hqs]; subst.
  destruct (concatenate_one_axis qs q Hq Hqs) as (a & Ha & Hs & Hi).
  exists (astype_float32 a). unfold combine_chunks, np_concatenate.
  rewrite Hq, Ha, bind_ret. cbn [map List.concat].
  unfold astype_float32, np_map. cbn [shape items]. rewrite length_map.
  rewrite Hs, Hi. auto.
Qed.

Lemma measure_one_axis (w : World) (audio_data : ndarray float32) (n : nat) (r : Z) :
  env_sample_rate w = Ok r -> 0 < r ->
  shape audio_data = [n] ->
  measure w audio_data = Ok (r, Qmake (Z.of_nat n) (Z.to_pos r)).
Proof.
  intros Hr Hpos Hs. unfold measure, py_len, py_truediv.
  rewrite Hr, Hs, !bind_ret.
  replace (r =? 0) with false by (symmetry; apply Z.eqb_neq; lia).
  replace (0 <? r) with true by (symmetry; now apply Z.ltb_lt).
  reflexivity.
Qed.

(** ** Full scale *)

Lemma new_location_exact (n : Z) : new_location n 0 = loc_Exact.
Proof. unfold new_location. now destruct (Z.even n). Qed.

(** A finite value divided by one of the same magnitude is 1.0, or -1.0. *)
Lemma div_self (s s' : bool) (m : positive) (e : Z) :
  F32.div (S754_finite s m e) (S754_finite s' m e)
  = S754_finite (xorb s s') 8388608 (-23).
Proof.
  unfold F32.div, SFdiv, SFdiv_core_binary.
  replace (Zdigits2 (Zpos m) + e - (Zdigits2 (Zpos m) + e)) with 0 by lia.
  replace (e - e) with 0 by lia.
  rewrite fexp_eq. change (Z.min (fexp32 0) 0) with (-24).
  change (0 - -24) with 24. cbv iota beta.
  rewrite Z.shiftl_mul_pow2 by lia.
  rewrite div_eucl_pair.
  replace (Zpos m * 2 ^ 24 / Zpos m) with 16777216
    by (apply Z.div_unique with 0; lia).
  replace ((Zpos m * 2 ^ 24) mod Zpos m) with 0
    by (apply Z.mod_unique with 16777216; lia).
  rewrite new_location_exact, binary_round_aux_core.
  replace (round_core 16777216 (-24) loc_Exact) with (8388608, -23)
    by (vm_compute; reflexivity).
  reflexivity.
Qed.

Lemma quantise_unit (s : bool) :
  int16_of_float (F32.mul (S754_finite s 8388608 (-23)) f32_scale) = full_scale s.
Proof. destruct s; vm_compute; reflexivity. Qed.

Lemma np_maximum_either (a y : float32) : np_maximum a y = a \/ np_maximum a y = y.
Proof.
  unfold np_maximum. destruct (F32.is_nan a); [now left |].
  destruct (F32.is_nan y); [now right |].
  destruct (F32.ltb a y); auto.
Qed.

Lemma fold_maximum_in (xs : list float32) (a : float32) :
  In (fold_left np_maximum xs a) (a :: xs).
Proof.
  revert a. induction xs as [| x xs IH]; intros a; cbn [fold_left]; [now left |].
  destruct (IH (np_maximum a x)) as [H | H].
  - destruct (np_maximum_either a x) as [He | He].
    + left. congruence.
    + right. left. congruence.
  - right. right. exact H.
Qed.

(** The peak is the magnitude of one of the samples. *)
Lemma np_max_abs_attained (data : ndarray float32) (peak : float32) :
  np_max (np_abs data) = Ok peak ->
  exists x, In x (items data) /\ F32.abs x = peak.
Proof.
  unfold np_max, np_abs, np_map. cbn [items].
  destruct (items data) as [| x0 xs]; cbn [map]; [discriminate |].
  intros [= H].
  pose proof (fold_maximum_in (map F32.abs xs) (F32.abs x0)) as Hin.
  rewrite H in Hin. change (F32.abs x0 :: map F32.abs xs) with (map F32.abs (x0 :: xs)) in Hin.
  apply in_map_iff in Hin. destruct Hin as (x & Hx & Hin). eauto.
Qed.

(** ** Samples no louder than the peak *)

Lemma no_louder_abs (mp : positive) (ep : Z) (x : float32) :
  no_louder mp ep (F32.abs x) -> no_louder mp ep x.
Proof. destruct x; trivial. Qed.

Lemma np_maximum_no_louder (mp : positive) (ep : Z) (a y : float32) :
  sign_clear a -> sign_clear y ->
  no_louder mp ep (np_maximum a y) -> no_louder mp ep a /\ no_louder mp ep y.
Proof.
  intros Ha Hy.
  destruct a as [sa | sa | | sa ma ea]; cbn [sign_clear] in Ha; try subst sa;
    destruct y as [sy | sy | | sy my ey]; cbn [sign_clear] in Hy; try subst sy;
    unfold np_maximum, F32.ltb, SFltb;
    cbn [F32.is_nan SFcompare no_louder]; try tauto.
  change (Pos.compare_cont Eq ma my) with (Pos.compare ma my).
  destruct (Z.compare_spec ea ey) as [-> | Hlt | Hgt].
  - destruct (Pos.compare_spec ma my) as [-> | Hlt | Hgt]; cbn [no_louder];
      intros H; (split; [try exact H | try exact H]); lia.
  - cbn [no_louder]. intros H; (split; [try exact H | try exact H]); lia.
  - cbn [no_louder]. intros H; (split; [try exact H | try exact H]); lia.
Qed.

Lemma fold_maximum_no_louder (mp : positive) (ep : Z) (xs : list float32) (a : float32) :
  sign_clear a ->
  no_louder mp ep (fold_left np_maximum (map F32.abs xs) a) ->
  no_louder mp ep a /\ Forall (no_louder mp ep) xs.
Proof.
  revert a. induction xs as [| x xs IH]; intros a Ha; cbn [map fold_left].
  - intros H. split; [exact H | constructor].
  - intros H.
    destruct (IH _ (np_maximum_sign_clear _ _ Ha (abs_sign_clear x)) H) as (H1 & H2).
    destruct (np_maximum_no_louder _ _ _ _ Ha (abs_sign_clear x) H1) as (H3 & H4).
    split; [exact H3 |]. constructor; [now apply no_louder_abs | exact H2].
Qed.

(** No sample is louder than the peak. *)
Lemma peak_bounds (data : ndarray float32) (mp : positive) (ep : Z) :
  np_max (np_abs data) = Ok (S754_finite false mp ep) ->
  Forall (no_louder mp ep) (items data).
Proof.
  unfold np_max, np_abs, np_map. cbn [items].
  destruct (items data) as [| x0 xs]; cbn [map]; [discriminate |].
  intros [= H].
  assert (H1 : no_louder mp ep (fold_left np_maximum (map F32.abs xs) (F32.abs x0))).
  { rewrite H. right. split; [reflexivity | lia]. }
  destruct (fold_maximum_no_louder _ _ xs _ (abs_sign_clear x0) H1) as (H3 & H4).
  constructor; [now apply no_louder_abs | exact H4].
Qed.

(** ** Samples at most 1.0 *)

Lemma fold_maximum_sign_clear (xs : list float32) (a : float32) :
  sign_clear a -> sign_clear (fold_left np_maximum (map F32.abs xs) a).
Proof.
  revert a. induction xs as [| x xs IH]; intros a Ha; cbn [map fold_left]; [exact Ha |].
  apply IH, np_maximum_sign_clear; [exact Ha | apply abs_sign_clear].
Qed.

(** The order of two positive finite values, read off their
    representations. *)
Lemma finite_leb (m1 m2 : positive) (e1 e2 : Z) :
  SFleb (S754_finite false m1 e1) (S754_finite false m2 e2) = true ->
  e1 < e2 \/ (e1 = e2 /\ Zpos m1 <= Zpos m2).
Proof.
  unfold SFleb. cbn [SFcompare].
  change (Pos.compare_cont Eq m1 m2) with (Pos.compare m1 m2).
  destruct (Z.compare_spec e1 e2) as [He | He | He].
  - destruct (Pos.compare_spec m1 m2) as [Hm | Hm | Hm]; intros H;
      try discriminate H; right; split; lia.
  - intros _. now left.
  - intros H. discriminate H.
Qed.

Lemma finite_not_ltb (m1 m2 : positive) (e1 e2 : Z) :
  SFltb (S754_finite false m1 e1) (S754_finite false m2 e2) = false ->
  e2 < e1 \/ (e2 = e1 /\ Zpos m2 <= Zpos m1).
Proof.
  unfold SFltb. cbn [SFcompare].
  change (Pos.compare_cont Eq m1 m2) with (Pos.compare m1 m2).
  destruct (Z.compare_spec e1 e2) as [He | He | He].
  - destruct (Pos.compare_spec m1 m2) as [Hm | Hm | Hm]; intros H;
      try discriminate H; right; split; lia.
  - intros H. discriminate H.
  - intros _. now left.
Qed.

Lemma leb_one_at_most_one (peak : float32) :
  sign_clear peak -> F32.leb peak f32_one = true -> at_most_one peak.
Proof.
  rewrite f32_one_eq. unfold F32.leb.
  destruct peak as [s | s | | s m e]; cbn [sign_clear at_most_one];
    intros Hs; try subst s; try (intros H; discriminate H); trivial.
  apply finite_leb.
Qed.

Lemma not_above_one_at_most_one (peak : float32) :
  sign_clear peak -> is_sample peak ->
  F32.ltb f32_one peak = false -> at_most_one peak.
Proof.
  rewrite f32_one_eq. unfold F32.ltb.
  destruct peak as [s | s | | s m e]; cbn [sign_clear is_sample at_most_one];
    intros Hs Hf; try subst s; try contradiction; trivial.
  apply finite_not_ltb.
Qed.

(** With a peak of at most 1.0 no sample is above 1.0 in magnitude. *)
Lemma peak_one_bounds (data : ndarray float32) (peak : float32) :
  np_max (np_abs data) = Ok peak ->
  at_most_one peak ->
  Forall at_most_one (items data).
Proof.
  unfold np_max, np_abs, np_map. cbn [items].
  destruct (items data) as [| x0 xs]; cbn [map]; [discriminate |].
  intros [= H] H1. rewrite <- H in H1.
  destruct (fold_maximum_no_louder 8388608 (-23) xs _ (abs_sign_clear x0) H1)
    as (H3 & H4).
  constructor; [exact (no_louder_abs _ _ _ H3) | exact H4].
Qed.

Lemma peak_sign_clear (data : ndarray float32) (peak : float32) :
  np_max (np_abs data) = Ok peak -> sign_clear peak.
Proof.
  unfold np_max, np_abs, np_map. cbn [items].
  destruct (items data) as [| x0 xs]; cbn [map]; [discriminate |].
  intros [= <-]. apply fold_maximum_sign_clear, abs_sign_clear.
Qed.

(** A sample of magnitude at most 1.0 times 32767 has an integer part within
    the 16 bits, which the cast gives as it is. *)
Lemma sample_fits (x : float32) :
  F32.valid x = true ->
  at_most_one x ->
  exists t,
    unrescaled_value x = Some t /\ quantise x = t /\ Z.abs t <= 32767.
Proof.
  intros Hv H1. unfold unrescaled_value, quantise.
  destruct x as [s | s | | s m e]; cbn [at_most_one] in H1; try contradiction.
  - rewrite mul_scale_zero. exists 0. split; [reflexivity |].
    split; [now destruct s | cbn; lia].
  - destruct (valid_finite s m e Hv) as (Hr & Hd & _).
    pose proof (digits2_pos_bounds m) as (_ & Hm).
    assert (Hm24 : Zpos m < 2 ^ 24).
    { eapply Z.lt_le_trans; [exact Hm |]. apply pow2_le. lia. }
    change (2 ^ 24) with 16777216 in Hm24.
    rewrite mul_scale_finite.
    assert (HM : 0 <= Zpos (m * 16776704) < 2 ^ (24 + 24)).
    { rewrite Pos2Z.inj_mul. change (2 ^ (24 + 24)) with 281474976710656. lia. }
    pose proof (shift1_le (Zpos (m * 16776704)) (e + -9) 24 HM ltac:(lia) ltac:(lia)) as Hs.
    assert (Hp : 2 ^ shift1 (Zpos (m * 16776704)) (e + -9) <= 2 ^ 24).
    { apply pow2_le. split; [apply shift1_nonneg | exact Hs]. }
    change (2 ^ 24) with 16777216 in Hp.
    destruct (round_small s (Zpos (m * 16776704)) (e + -9) loc_Exact 32767)
      as (t & Ht & Hb).
    + lia.
    + lia.
    + split; [lia |]. change (2 ^ 100) with 1267650600228229401496703205376. lia.
    + set (sh := shift1 _ _) in *.
      rewrite Pos2Z.inj_mul. change (32767 + 1) with (2 ^ 15).
      rewrite <- Z.pow_add_r by lia.
      destruct H1 as [He | (-> & Hm23)].
      * assert (2 ^ 48 <= 2 ^ (15 + - (e + -9))) by (apply pow2_le; lia).
        change (2 ^ 48) with 281474976710656 in *. lia.
      * change (2 ^ (15 + - (-23 + -9))) with 140737488355328. lia.
    + exists t. split; [exact Ht |]. split; [| exact Hb].
      now apply int16_of_float_small.
Qed.

(** ** The division by the peak *)

Lemma valid_mantissa (s : bool) (m : positive) (e : Z) :
  F32.valid (S754_finite s m e) = true ->
  Zpos m < 16777216 /\ (-148 <= e -> 8388608 <= Zpos m).
Proof.
  intros Hv. destruct (valid_finite s m e Hv) as (_ & Hd & Hn).
  pose proof (digits2_pos_bounds m) as (Hlo & Hhi). split.
  - assert (2 ^ Zpos (digits2_pos m) <= 2 ^ 24) by (apply pow2_le; lia).
    change (2 ^ 24) with 16777216 in *. lia.
  - intros He. rewrite (Hn He) in Hlo. change (2 ^ (24 - 1)) with 8388608 in Hlo. lia.
Qed.

(** The quotient the division rounds: at most 1.0, on at least 24 bits. *)
Lemma div_core_bound (mx mp : positive) (ex ep : Z) :
  F32.valid (S754_finite false mx ex) = true ->
  F32.valid (S754_finite false mp ep) = true ->
  ex < ep \/ (ex = ep /\ Zpos mx <= Zpos mp) ->
  exists q e' l,
    SFdiv_core_binary F32.prec F32.emax (Zpos mx) ex (Zpos mp) ep = (q, e', l) /\
    0 <= q <= 2 ^ (- e') /\ e' <= -24.
Proof.
  intros Hvx Hvp Hle.
  destruct (valid_finite _ _ _ Hvx) as (Hex & Hdx & Hnx).
  destruct (valid_finite _ _ _ Hvp) as (Hep & Hdp & Hnp).
  destruct (valid_mantissa _ _ _ Hvx) as (Hmx & _).
  destruct (valid_mantissa _ _ _ Hvp) as (_ & Hmp).
  unfold SFdiv_core_binary. rewrite fexp_eq. cbn [Zdigits2].
  set (e' := Z.min (fexp32 (Zpos (digits2_pos mx) + ex - (Zpos (digits2_pos mp) + ep)))
               (ex - ep)).
  assert (Hdig : Zpos (digits2_pos mx) + ex <= Zpos (digits2_pos mp) + ep).
  { destruct Hle as [Hlt | (-> & Hm)].
    - rewrite (Hnp ltac:(lia)). lia.
    - pose proof (digits2_pos_bounds mp) as (_ & Hhi).
      pose proof (Zdigits2_le (Zpos mx) (Zpos (digits2_pos mp))
                    ltac:(lia) ltac:(lia) ltac:(lia)) as Hd.
      cbn [Zdigits2] in Hd. lia. }
  assert (He' : e' <= -24 /\ e' <= ex - ep) by (unfold e', fexp32; lia).
  destruct He' as (He24 & Hes).
  set (s := ex - ep - e').
  assert (Hs : 0 <= s) by (unfold s; lia).
  assert (Hm' : match s with
                | 0 => Zpos mx
                | Zpos _ => Z.shiftl (Zpos mx) s
                | Zneg _ => 0
                end = Zpos mx * 2 ^ s).
  { destruct s as [| p | p] eqn:Hsv; [lia | | lia].
    rewrite Z.shiftl_mul_pow2 by lia. reflexivity. }
  rewrite Hm', div_eucl_pair.
  eexists _, _, _. split; [reflexivity |]. split; [| exact He24].
  assert (P : 0 < 2 ^ s) by (apply Z.pow_pos_nonneg; lia).
  split; [apply Z.div_pos; lia |].
  apply Z.div_le_upper_bound; [lia |].
  replace (- e') with (s + (ep - ex)) by (unfold s; lia).
  rewrite Z.pow_add_r by lia.
  assert (Hmag : Zpos mx <= Zpos mp * 2 ^ (ep - ex)).
  { destruct Hle as [Hlt | (-> & Hm)].
    - specialize (Hmp ltac:(lia)).
      assert (2 ^ 1 <= 2 ^ (ep - ex)) by (apply pow2_le; lia).
      change (2 ^ 1) with 2 in *. nia.
    - replace (ep - ep) with 0 by lia. change (2 ^ 0) with 1. lia. }
  nia.
Qed.

(** The rounded quotient is at most one unit in the last place above 1.0. *)
Lemma div_rounded (s : bool) (mx mp : positive) (ex ep : Z) :
  F32.valid (S754_finite false mx ex) = true ->
  F32.valid (S754_finite false mp ep) = true ->
  ex < ep \/ (ex = ep /\ Zpos mx <= Zpos mp) ->
  exists mR eR A K,
    F32.div (S754_finite s mx ex) (S754_finite false mp ep) = of_core s (mR, eR) /\
    0 <= mR /\ 0 <= A /\ 1 <= K /\ eR = A - K - 23 /\
    mR * 2 ^ A <= 8388609 * 2 ^ K.
Proof.
  intros Hvx Hvp Hle.
  destruct (div_core_bound _ _ _ _ Hvx Hvp Hle) as (q & e' & l & Hcore & (Hq0 & Hq) & He').
  unfold F32.div, SFdiv. rewrite Hcore, binary_round_aux_core.
  replace (xorb s false) with s by now destruct s.
  destruct (round_core_bound q e' l Hq0) as (n2 & Hn2 & He & Hm0 & Hb).
  pose proof (shift1_nonneg q e') as Hsh0.
  exists (fst (round_core q e' l)), (snd (round_core q e' l)),
         (shift1 q e' + n2), (-23 - e').
  split; [now destruct (round_core q e' l) |].
  split; [exact Hm0 |]. split; [lia |]. split; [lia |]. split; [lia |].
  assert (Hsh : shift1 q e' <= -23 - e').
  { apply shift1_le; [| lia | lia]. split; [lia |].
    replace (24 + (-23 - e')) with (- e' + 1) by lia.
    rewrite Z.pow_add_r by lia. change (2 ^ 1) with 2.
    assert (0 < 2 ^ (- e')) by (apply Z.pow_pos_nonneg; lia). lia. }
  assert (Hp : 2 ^ shift1 q e' <= 2 ^ (-23 - e')) by (apply pow2_le; lia).
  replace (- e') with (23 + (-23 - e')) in Hq by lia.
  rewrite Z.pow_add_r in Hq by lia. change (2 ^ 23) with 8388608 in Hq.
  lia.
Qed.

(** Such a quotient times 32767 has an integer part within the 16 bits. *)
Lemma scale_after_div (s : bool) (mR eR A K : Z) :
  0 <= mR -> 0 <= A -> 1 <= K -> eR = A - K - 23 ->
  mR * 2 ^ A <= 8388609 * 2 ^ K ->
  exists t,
    F32.trunc (F32.mul (of_core s (mR, eR)) f32_scale) = Some t /\ Z.abs t <= 32767.
Proof.
  intros HmR HA HK HeR Hb.
  destruct mR as [| p | p]; [| | lia].
  - unfold of_core. cbn [fst]. rewrite mul_scale_zero. exists 0. split; [reflexivity | lia].
  - assert (PA : 0 < 2 ^ A) by (apply Z.pow_pos_nonneg; lia).
    assert (PK : 0 < 2 ^ K) by (apply Z.pow_pos_nonneg; lia).
    assert (HAK : A < 24 + K).
    { apply (Z.pow_lt_mono_r_iff 2); [lia | lia |].
      rewrite Z.pow_add_r by lia. change (2 ^ 24) with 16777216. nia. }
    assert (HeR0 : eR <= 0) by lia.
    unfold of_core. cbn [fst snd].
    destruct (Z.leb_spec eR 104); [| lia].
    rewrite mul_scale_finite.
    set (J := - eR).
    assert (HJ : 2 ^ J * 2 ^ A = 8388608 * 2 ^ K).
    { rewrite <- Z.pow_add_r by lia. replace (J + A) with (23 + K) by lia.
      rewrite Z.pow_add_r by lia. reflexivity. }
    assert (PJ : 0 < 2 ^ J) by (apply Z.pow_pos_nonneg; lia).
    assert (HM : 0 <= Zpos (p * 16776704) < 2 ^ (24 + J)).
    { split; [lia |]. rewrite Pos2Z.inj_mul, Z.pow_add_r by lia.
      change (2 ^ 24) with 16777216.
      apply (Z.mul_lt_mono_pos_r (2 ^ A)); [exact PA |]. nia. }
    pose proof (shift1_le (Zpos (p * 16776704)) (eR + -9) J HM ltac:(lia) ltac:(lia))
      as Hsh.
    assert (Hp : 2 ^ shift1 (Zpos (p * 16776704)) (eR + -9) <= 2 ^ J).
    { apply pow2_le. split; [apply shift1_nonneg | exact Hsh]. }
    destruct (round_small s (Zpos (p * 16776704)) (eR + -9) loc_Exact 32767)
      as (t & Ht & Htb).
    + lia.
    + lia.
    + split; [lia |]. change (2 ^ 100) with 1267650600228229401496703205376. lia.
    + set (sh := shift1 _ _) in *.
      rewrite Pos2Z.inj_mul. change (32767 + 1) with (2 ^ 15).
      rewrite <- Z.pow_add_r by lia.
      replace (15 + - (eR + -9)) with (24 + J) by lia.
      rewrite Z.pow_add_r by lia. change (2 ^ 24) with 16777216.
      apply (Z.mul_lt_mono_pos_r (2 ^ A)); [exact PA |]. nia.
    + exists t. split; [exact Ht | exact Htb].
Qed.

(** A sample no louder than the peak, divided by it and scaled, stays
    within the 16 bits. *)
Lemma rescaled_sample_fits (mp : positive) (ep : Z) (x : float32) :
  F32.valid x = true ->
  F32.valid (S754_finite false mp ep) = true ->
  no_louder mp ep x ->
  -32767 <= quantise_rescaled (S754_finite false mp ep) x <= 32767.
Proof.
  intros Hvx Hvp Hx. unfold quantise_rescaled.
  destruct x as [s | s | | s mx ex]; cbn [no_louder] in Hx; try contradiction.
  - change (F32.div (S754_zero s) (S754_finite false mp ep))
      with (S754_zero (xorb s false)).
    rewrite mul_scale_zero.
    replace (int16_of_float (S754_zero (xorb s false))) with 0
      by (destruct s; reflexivity).
    lia.
  - destruct (div_rounded s mx mp ex ep Hvx Hvp Hx)
      as (mR & eR & A & K & -> & HmR & HA & HK & HeR & Hb).
    destruct (scale_after_div s mR eR A K HmR HA HK HeR Hb) as (t & Ht & Htb).
    rewrite (int16_of_float_small _ t Ht Htb). lia.
Qed.

(** ** Integers in single precision *)

Lemma digits2_pos_iter (m d : positive) :
  digits2_pos (Pos.iter xO m d) = (digits2_pos m + d)%positive.
Proof.
  induction d as [| d IH] using Pos.peano_ind.
  - cbn [Pos.iter digits2_pos]. lia.
  - rewrite Pos.iter_succ. cbn [digits2_pos]. rewrite IH. lia.
Qed.

(** A non-zero integer below [2^23] in magnitude is a finite value with its
    sign, well formed, and at most 1.0 only when it is 1 or -1. *)
Lemma of_Z_small (z : Z) :
  z <> 0 -> Z.abs z < 8388608 ->
  exists m e,
    F32.of_Z z = S754_finite (z <? 0) m e /\
    F32.valid (S754_finite (z <? 0) m e) = true /\
    (at_most_one (F32.of_Z z) -> Z.abs z = 1).
Proof.
  intros Hz Hlt.
  assert (Hp : forall (s : bool) (p : positive),
             Zpos p < 8388608 ->
             exists m e,
               binary_round F32.prec F32.emax s p 0 = S754_finite s m e /\
               F32.valid (S754_finite s m e) = true /\
               (at_most_one (S754_finite s m e) -> p = 1%positive)).
  { intros s p Hp.
    pose proof (digits2_pos_bounds p) as (Hlo & _).
    assert (Hd : Zpos (digits2_pos p) < 24).
    { destruct (Z.lt_ge_cases (Zpos (digits2_pos p)) 24) as [H | H]; [exact H |].
      assert (2 ^ 23 <= 2 ^ (Zpos (digits2_pos p) - 1)) by (apply pow2_le; lia).
      change (2 ^ 23) with 8388608 in *. lia. }
    unfold binary_round, shl_align. rewrite fexp_eq.
    replace (fexp32 (Zpos (digits2_pos p) + 0) - 0)
      with (Zneg (24 - digits2_pos p)) by (unfold fexp32; lia).
    rewrite binary_round_aux_core.
    set (m := Pos.iter xO p (24 - digits2_pos p)).
    assert (Hm : digits2_pos m = 24%positive)
      by (unfold m; rewrite digits2_pos_iter; lia).
    replace (fexp32 (Zpos (digits2_pos p) + 0)) with (Zpos (digits2_pos p) - 24)
      by (unfold fexp32; lia).
    rewrite round_core_exact by (rewrite ?Hm; lia).
    exists m, (Zpos (digits2_pos p) - 24). unfold of_core. cbn [fst snd].
    destruct (Z.leb_spec (Zpos (digits2_pos p) - 24) 104); [| lia].
    split; [reflexivity |]. split.
    - unfold F32.valid, valid_binary, bounded, canonical_mantissa.
      rewrite fexp_eq, Hm.
      apply andb_true_intro. split.
      + apply Z.eqb_eq. unfold fexp32. lia.
      + apply Z.leb_le. change (F32.emax - F32.prec) with 104. lia.
    - cbn [at_most_one]. intros Hle.
      assert (Hone : digits2_pos p = 1%positive) by lia.
      destruct p; cbn [digits2_pos] in Hone; lia. }
  unfold F32.of_Z, binary_normalize. destruct z as [| p | p]; [congruence | |].
  - destruct (Hp false p ltac:(lia)) as (m & e & H1 & H2 & H3).
    exists m, e. cbn [Z.ltb Z.compare]. rewrite H1.
    split; [reflexivity |]. split; [exact H2 |]. intros Hle. now rewrite (H3 Hle).
  - destruct (Hp true p ltac:(lia)) as (m & e & H1 & H2 & H3).
    exists m, e. cbn [Z.ltb Z.compare]. rewrite H1.
    split; [reflexivity |]. split; [exact H2 |]. intros Hle. now rewrite (H3 Hle).
Qed.

Lemma of_Z_zero : F32.of_Z 0 = S754_zero false.
Proof. reflexivity. Qed.

Lemma of_Z_sample (z : Z) :
  Z.abs z < 8388608 -> F32.valid (F32.of_Z z) = true /\ is_sample (F32.of_Z z).
Proof.
  intros H. destruct (Z.eq_dec z 0) as [-> | Hz].
  - rewrite of_Z_zero. split; reflexivity.
  - destruct (of_Z_small z Hz H) as (m & e & -> & Hv & _). split; [exact Hv | exact I].
Qed.

Lemma quantise_of_unit (z : Z) : Z.abs z = 1 -> Z.abs (quantise (F32.of_Z z)) = 32767.
Proof.
  intros H. assert (Hz : z = 1 \/ z = -1) by lia.
  destruct Hz as [-> | ->]; vm_compute; reflexivity.
Qed.

Lemma full_scale_abs (s : bool) : Z.abs (full_scale s) = 32767.
Proof. now destruct s. Qed.

(** ** The range of a conversion *)

(** On well-formed finite samples no output of [convert_to_16_bit_wav]
    leaves the range of full scale. *)
Lemma convert_in_range (data : ndarray float32) (q : ndarray Z) :
  Forall (fun x => F32.valid x = true /\ is_sample x) (items data) ->
  convert_to_16_bit_wav data = Ok q ->
  shape q = shape data /\
  List.length (items q) = List.length (items data) /\
  Forall (fun z => -32767 <= z <= 32767) (items q).
Proof.
  intros Hall Hq. destruct (convert_shape _ _ Hq) as (Hs & Hl).
  split; [exact Hs |]. split; [exact Hl |].
  assert (Hv : Forall (fun x => F32.valid x = true) (items data))
    by (eapply Forall_impl; [| exact Hall]; now intros x (H & _)).
  destruct (np_max (np_abs data)) as [peak | e] eqn:Hp.
  2:{ unfold convert_to_16_bit_wav in Hq. rewrite Hp in Hq. discriminate. }
  destruct (np_max_abs_attained _ _ Hp) as (x0 & Hin0 & Hx0).
  rewrite Forall_forall in Hall. destruct (Hall _ Hin0) as (Hv0 & Hf0).
  pose proof (peak_sign_clear _ _ Hp) as Hclear.
  destruct (F32.ltb f32_one peak) eqn:Hlt.
  - rewrite (convert_rescaled _ _ Hp Hlt) in Hq. injection Hq as <-. cbn [items].
    destruct x0 as [s | s | | s mp ep]; cbn [is_sample] in Hf0; try contradiction;
      cbn [F32.abs SFabs] in Hx0; subst peak.
    + now destruct (above_one_not_zero _ Hlt false).
    + pose proof (peak_bounds _ _ _ Hp) as Hb.
      apply Forall_map, Forall_forall. intros x Hx.
      rewrite Forall_forall in Hv, Hb.
      apply rescaled_sample_fits; [now apply Hv | exact Hv0 | now apply Hb].
  - rewrite (convert_unscaled _ _ Hp Hlt) in Hq. injection Hq as <-. cbn [items].
    assert (Hsample : is_sample peak) by (subst peak; now destruct x0).
    pose proof (peak_one_bounds _ _ Hp
                  (not_above_one_at_most_one _ Hclear Hsample Hlt)) as Hb.
    apply Forall_map, Forall_forall. intros x Hx.
    rewrite Forall_forall in Hv, Hb.
    destruct (sample_fits x (Hv x Hx) (Hb x Hx)) as (t & _ & -> & Ht). lia.
Qed.

(** Converting integers of 16 bits that are not all zero brings one of
    them to full scale. *)
Lemma convert_integers_full_scale (zs : list Z) (sh : list nat) (q : ndarray Z) :
  Forall (fun z => -32767 <= z <= 32767) zs ->
  (exists z, In z zs /\ z <> 0) ->
  convert_to_16_bit_wav (mk_ndarray sh (map F32.of_Z zs)) = Ok q ->
  exists v, In v (items q) /\ Z.abs v = 32767.
Proof.
  intros Hr (z1 & Hin1 & Hz1) Hq. rewrite Forall_forall in Hr.
  set (data := mk_ndarray sh (map F32.of_Z zs)) in *.
  destruct (np_max (np_abs data)) as [peak | e] eqn:Hp.
  2:{ unfold convert_to_16_bit_wav in Hq. rewrite Hp in Hq. discriminate. }
  destruct (np_max_abs_attained _ _ Hp) as (x0 & Hin0 & Hx0).
  cbn [data items] in Hin0. apply in_map_iff in Hin0.
  destruct Hin0 as (z0 & <- & Hin0).
  pose proof (Hr _ Hin0) as Hr0.
  destruct (F32.ltb f32_one peak) eqn:Hlt.
  - rewrite (convert_rescaled _ _ Hp Hlt) in Hq. injection Hq as <-. cbn [items data].
    destruct (Z.eq_dec z0 0) as [-> | Hz0].
    { rewrite of_Z_zero in Hx0. cbn in Hx0. subst peak.
      now destruct (above_one_not_zero _ Hlt false). }
    destruct (of_Z_small z0 Hz0 ltac:(lia)) as (m & e & He & _ & _).
    rewrite He in Hx0. cbn [F32.abs SFabs] in Hx0. subst peak.
    exists (quantise_rescaled (S754_finite false m e) (F32.of_Z z0)). split.
    + apply in_map. now apply in_map.
    + rewrite He. unfold quantise_rescaled. rewrite div_self.
      replace (xorb (z0 <? 0) false) with (z0 <? 0) by now destruct (z0 <? 0).
      rewrite quantise_unit. apply full_scale_abs.
  - rewrite (convert_unscaled _ _ Hp Hlt) in Hq. injection Hq as <-. cbn [items data].
    assert (Hsample : is_sample peak).
    { subst peak. destruct (of_Z_sample z0 ltac:(lia)) as (_ & H).
      now destruct (F32.of_Z z0). }
    pose proof (peak_one_bounds _ _ Hp
                  (not_above_one_at_most_one _ (peak_sign_clear _ _ Hp) Hsample Hlt))
      as Hb.
    cbn [data items] in Hb. rewrite Forall_forall in Hb.
    specialize (Hb (F32.of_Z z1) (in_map _ _ _ Hin1)).
    pose proof (Hr _ Hin1) as Hr1.
    destruct (of_Z_small z1 Hz1 ltac:(lia)) as (m & e & _ & _ & Hone).
    exists (quantise (F32.of_Z z1)). split.
    + apply in_map. now apply in_map.
    + apply quantise_of_unit. now apply Hone.
Qed.

(** ** The order of the keys *)

Lemma ascii_compare_refl (a : ascii) : Ascii.compare a a = Eq.
Proof. unfold Ascii.compare. apply N.compare_refl. Qed.

Lemma ascii_compare_trans (a b c : ascii) :
  Ascii.compare a b = Lt -> Ascii.compare b c = Lt -> Ascii.compare a c = Lt.
Proof.
  unfold Ascii.compare. rewrite !N.compare_lt_iff. apply N.lt_trans.
Qed.

Lemma string_compare_refl (s : string) : String.compare s s = Eq.
Proof.
  induction s as [| c s IH]; [reflexivity |]. cbn [String.compare].
  now rewrite ascii_compare_refl.
Qed.

Lemma string_compare_trans (a b c : string) :
  String.compare a b = Lt -> String.compare b c = Lt -> String.compare a c = Lt.
Proof.
  revert b c. induction a as [| x a IH]; intros [| y b] [| z c];
    cbn [String.compare]; try congruence.
  destruct (Ascii.compare x y) eqn:Hxy; try discriminate;
    destruct (Ascii.compare y z) eqn:Hyz; try discriminate.
  - apply Ascii.compare_eq_iff in Hxy, Hyz. subst.
    rewrite ascii_compare_refl. apply IH.
  - apply Ascii.compare_eq_iff in Hxy. subst. now rewrite Hyz.
  - apply Ascii.compare_eq_iff in Hyz. subst. now rewrite Hxy.
  - now rewrite (ascii_compare_trans _ _ _ Hxy Hyz).
Qed.

Lemma ltb_compare (a b : string) : String.ltb a b = true <-> String.compare a b = Lt.
Proof. unfold String.ltb. destruct (String.compare a b); split; congruence. Qed.

Lemma ltb_irrefl (a : string) : String.ltb a a = false.
Proof. unfold String.ltb. now rewrite string_compare_refl. Qed.

Lemma ltb_trans (a b c : string) :
  String.ltb a b = true -> String.ltb b c = true -> String.ltb a c = true.
Proof. rewrite !ltb_compare. apply string_compare_trans. Qed.

Lemma compare_gt_ltb (a b : string) : String.compare a b = Gt -> String.ltb b a = true.
Proof.
  intros H. apply ltb_compare. rewrite String.compare_antisym, H. reflexivity.
Qed.

Lemma ascending_NoDup (keys : list string) : ascending keys -> NoDup keys.
Proof.
  induction keys as [| k keys IH]; cbn [ascending]; [constructor |].
  intros (Hk & Hs). constructor; [| now apply IH].
  intros Hin. rewrite Forall_forall in Hk. specialize (Hk _ Hin).
  now rewrite ltb_irrefl in Hk.
Qed.

(** ** Sorting the items *)

Lemma sorted_insert_In (x y : string * string) (l : list (string * string)) :
  In y (sorted_insert x l) <-> y = x \/ In y l.
Proof.
  induction l as [| z l IH]; cbn [sorted_insert In]; [intuition |].
  destruct (tuple_ltb z x); cbn [In]; [rewrite IH |]; intuition.
Qed.

Lemma py_sorted_In (y : string * string) (l : list (string * string)) :
  In y (py_sorted l) <-> In y l.
Proof.
  unfold py_sorted. induction l as [| x l IH]; cbn [fold_right In]; [tauto |].
  rewrite sorted_insert_In, IH. intuition.
Qed.

Lemma sorted_insert_length (x : string * string) (l : list (string * string)) :
  List.length (sorted_insert x l) = S (List.length l).
Proof.
  induction l as [| z l IH]; cbn [sorted_insert List.length]; [reflexivity |].
  destruct (tuple_ltb z x); cbn [List.length]; [now rewrite IH | reflexivity].
Qed.

Lemma py_sorted_length (l : list (string * string)) :
  List.length (py_sorted l) = List.length l.
Proof.
  unfold py_sorted. induction l as [| x l IH]; cbn [fold_right List.length];
    [reflexivity |].
  now rewrite sorted_insert_length, IH.
Qed.

Lemma sorted_insert_ascending (x : string * string) (l : list (string * string)) :
  ascending (map fst l) -> ~ In (fst x) (map fst l) ->
  ascending (map fst (sorted_insert x l)).
Proof.
  induction l as [| y l IH]; cbn [sorted_insert map ascending In].
  - intros _ _. split; [constructor | exact I].
  - intros (Hy & Hs) Hnot. unfold tuple_ltb.
    destruct (String.compare (fst y) (fst x)) eqn:Hc.
    + apply String.compare_eq_iff in Hc. tauto.
    + cbn [map ascending]. split; [| apply IH; tauto].
      apply Forall_forall. intros k Hk. apply in_map_iff in Hk.
      destruct Hk as (z & <- & Hz). apply sorted_insert_In in Hz.
      destruct Hz as [-> | Hz]; [now apply ltb_compare |].
      rewrite Forall_forall in Hy. apply Hy. now apply in_map.
    + apply compare_gt_ltb in Hc. cbn [map ascending].
      split; [| split; assumption].
      constructor; [exact Hc |].
      eapply Forall_impl; [| exact Hy]. intros k Hk. cbv beta in Hk.
      now apply (ltb_trans _ (fst y)).
Qed.

Lemma py_sorted_ascending (l : list (string * string)) :
  NoDup (map fst l) -> ascending (map fst (py_sorted l)).
Proof.
  induction l as [| x l IH]; [intros _; exact I |].
  change (py_sorted (x :: l)) with (sorted_insert x (py_sorted l)).
  cbn [map]. intros Hnd. inversion Hnd as [| ? ? Hx Hl]; subst.
  apply sorted_insert_ascending; [now apply IH |].
  intros Hin. apply Hx. apply in_map_iff in Hin. destruct Hin as (z & Hz & Hin).
  rewrite py_sorted_In in Hin. rewrite <- Hz. now apply in_map.
Qed.

(** ** Filling the dict *)

Lemma dict_set_keys (name value k : string) (d : list (string * string)) :
  In k (map fst (dict_set name value d)) <-> k = name \/ In k (map fst d).
Proof.
  induction d as [| (k0, v0) d IH]; cbn [dict_set map fst In]; [intuition |].
  destruct (String.eqb_spec k0 name) as [-> | Hne]; cbn [map fst In].
  - intuition.
  - rewrite IH. intuition.
Qed.

Lemma dict_set_NoDup (name value : string) (d : list (string * string)) :
  NoDup (map fst d) -> NoDup (map fst (dict_set name value d)).
Proof.
  induction d as [| (k0, v0) d IH]; cbn [dict_set map fst]; intros Hnd.
  - constructor; [intros [] | constructor].
  - inversion Hnd as [| ? ? Hk Hd]; subst.
    destruct (String.eqb_spec k0 name) as [-> | Hne]; cbn [map fst].
    + now constructor.
    + constructor; [| now apply IH].
      rewrite dict_set_keys. intros [H | H]; [congruence | contradiction].
Qed.

Lemma dict_set_In (name value k v : string) (d : list (string * string)) :
  In (k, v) (dict_set name value d) -> (k = name /\ v = value) \/ In (k, v) d.
Proof.
  induction d as [| (k0, v0) d IH]; cbn [dict_set In].
  - intros [[= <- <-] | []]. now left.
  - destruct (String.eqb_spec k0 name) as [-> | Hne]; cbn [In].
    + intros [[= <- <-] | H]; auto.
    + intros [H | H]; [auto |]. destruct (IH H); auto.
Qed.

(** The dict after the loop over the kept files. *)
Lemma voices_loop (dir : string) (files : list string) (d0 : list (string * string)) :
  let d := fold_left
             (fun d audio_file =>
                let name := splitext_root audio_file in
                let full_path := os_path_join dir audio_file in
                dict_set name full_path d)
             files d0 in
  (NoDup (map fst d0) -> NoDup (map fst d)) /\
  (forall k, In k (map fst d) <->
             In k (map fst d0) \/ exists file, In file files /\ k = splitext_root file) /\
  (forall k v, In (k, v) d ->
               In (k, v) d0 \/
               exists file, In file files /\ k = splitext_root file /\
                            v = os_path_join dir file).
Proof.
  revert d0. induction files as [| f files IH]; intros d0; cbn [fold_left].
  - cbv zeta. split; [auto |]. split; [| auto].
    intros k. split; [auto |]. intros [H | (file & [] & _)]. exact H.
  - cbv zeta in *. destruct (IH (dict_set (splitext_root f) (os_path_join dir f) d0))
      as (H1 & H2 & H3).
    split; [| split].
    + intros Hnd. now apply H1, dict_set_NoDup.
    + intros k. rewrite H2, dict_set_keys. cbn [In]. split.
      * intros [[-> | H] | (file & Hin & ->)]; eauto.
      * intros [H | (file & [<- | Hin] & ->)]; eauto.
    + intros k v Hin. destruct (H3 k v Hin) as [H | (file & Hf & -> & ->)].
      * apply dict_set_In in H. destruct H as [(-> & ->) | H]; [| auto].
        right. exists f. cbn [In]. auto.
      * right. exists file. cbn [In]. auto.
Qed.

Lemma setup_voice_presets_facts (h : Host) (d : list (string * string)) :
  setup_voice_presets h = Ok d ->
  let voices_dir := os_getenv h "VOICES_DIR" "voices" in
  ascending (map fst d) /\
  (forall name path,
      In (name, path) d ->
      exists files file,
        listdir h voices_dir = Ok files /\ In file files /\
        is_voice_file h voices_dir file = true /\
        name = splitext_root file /\ path = os_path_join voices_dir file) /\
  (forall files file,
      path_exists h voices_dir = true ->
      listdir h voices_dir = Ok files -> In file files ->
      is_voice_file h voices_dir file = true ->
      dict_mem (splitext_root file) d = true) /\
  (path_exists h voices_dir = false -> d = []).
Proof.
  unfold setup_voice_presets. cbv zeta.
  set (voices_dir := os_getenv h "VOICES_DIR" "voices").
  destruct (path_exists h voices_dir) eqn:He; cbn [negb].
  - intros H. inv_bind H. injection H as <-.
    destruct (voices_loop voices_dir (filter (is_voice_file h voices_dir) a) [])
      as (H1 & H2 & H3). cbv zeta in H1, H2, H3.
    split; [| split; [| split; [| discriminate]]].
    + apply py_sorted_ascending, H1. constructor.
    + intros name path Hin. rewrite py_sorted_In in Hin.
      destruct (H3 _ _ Hin) as [[] | (file & Hf & -> & ->)].
      apply filter_In in Hf. destruct Hf as (Hf & Hv).
      exists a, file. auto.
    + intros files file _ Hl Hin Hv. rewrite Ha in Hl. injection Hl as <-.
      apply dict_mem_In.
      assert (Hk : In (splitext_root file)
                     (map fst (fold_left
                                 (fun d audio_file =>
                                    dict_set (splitext_root audio_file)
                                      (os_path_join voices_dir audio_file) d)
                                 (filter (is_voice_file h voices_dir) a) []))).
      { apply H2. right. exists file. split; [| reflexivity].
        apply filter_In. now split. }
      apply in_map_iff in Hk. destruct Hk as (kv & Hkv & Hin').
      apply in_map_iff. exists kv. split; [exact Hkv |]. now apply py_sorted_In.
  - intros [= <-]. split; [exact I |]. split; [intros ? ? [] |].
    split; [discriminate | reflexivity].
Qed.

(** ** File names *)

Lemma rfind_from_app (c : ascii) (a b : string) (i last : Z) :
  rfind_from c (a ++ b) i last
  = rfind_from c b (i + Z.of_nat (String.length a)) (rfind_from c a i last).
Proof.
  revert i last. induction a as [| d a IH]; intros i last; cbn [append rfind_from String.length].
  - f_equal. lia.
  - rewrite IH. f_equal. lia.
Qed.

Lemma rfind_from_none (c : ascii) (s : string) (i last : Z) :
  PyStr.contains c s = false -> rfind_from c s i last = last.
Proof.
  revert i last. induction s as [| d s IH]; intros i last; cbn [PyStr.contains rfind_from];
    [reflexivity |].
  intros H. apply orb_false_iff in H. destruct H as (Hd & Hs).
  rewrite Hd. now apply IH.
Qed.

Lemma get_app_at (p : string) (c : ascii) (t : string) :
  String.get (String.length p) (p ++ String c t) = Some c.
Proof. induction p as [| d p IH]; cbn [String.length append String.get]; auto. Qed.

Lemma substring_app (a b : string) : substring 0 (String.length a) (a ++ b) = a.
Proof.
  induction a as [| c a IH]; cbn [String.length append substring].
  - now destruct b.
  - now rewrite IH.
Qed.

Lemma substring_all (b : string) : substring 0 (String.length b) b = b.
Proof. induction b as [| c b IH]; cbn [String.length substring]; [reflexivity | now rewrite IH]. Qed.

Lemma substring_skip (a b : string) :
  substring (String.length a) (String.length b) (a ++ b) = b.
Proof.
  induction a as [| c a IH]; cbn [String.length append substring]; [| exact IH].
  apply substring_all.
Qed.

Lemma string_length_app (a b : string) :
  String.length (a ++ b) = (String.length a + String.length b)%nat.
Proof. induction a as [| c a IH]; cbn [append String.length]; [reflexivity | now rewrite IH]. Qed.

Lemma py_endswith_app (a e : string) : py_endswith (a ++ e) e = true.
Proof.
  unfold py_endswith. rewrite string_length_app.
  replace (String.length a + String.length e - String.length e)%nat
    with (String.length a) by lia.
  rewrite substring_skip, String.eqb_refl, andb_true_r.
  apply Nat.leb_le. lia.
Qed.

Lemma py_lower_app (a b : string) : py_lower (a ++ b) = (py_lower a ++ py_lower b)%string.
Proof. induction a as [| c a IH]; cbn [append py_lower]; [reflexivity | now rewrite IH]. Qed.

Lemma lower_char_dot (c : ascii) : Ascii.eqb (lower_char c) "." = Ascii.eqb c ".".
Proof. destruct c as [[] [] [] [] [] [] [] []]; vm_compute; reflexivity. Qed.

Lemma lower_char_sep (c : ascii) : Ascii.eqb (lower_char c) "/" = Ascii.eqb c "/".
Proof. destruct c as [[] [] [] [] [] [] [] []]; vm_compute; reflexivity. Qed.

Lemma contains_dot_lower (s : string) :
  PyStr.contains "." (py_lower s) = PyStr.contains "." s.
Proof.
  induction s as [| c s IH]; cbn [py_lower PyStr.contains]; [reflexivity |].
  now rewrite lower_char_dot, IH.
Qed.

Lemma contains_sep_lower (s : string) :
  PyStr.contains "/" (py_lower s) = PyStr.contains "/" s.
Proof.
  induction s as [| c s IH]; cbn [py_lower PyStr.contains]; [reflexivity |].
  now rewrite lower_char_sep, IH.
Qed.

(** An extension that lowers to one of the six is a dot followed by
    neither a dot nor a separator. *)
Lemma audio_extension_shape (ext : string) :
  In (py_lower ext) audio_extensions ->
  exists ext0,
    ext = String "." ext0 /\
    PyStr.contains "." ext0 = false /\ PyStr.contains "/" ext0 = false.
Proof.
  intros Hin. destruct ext as [| c ext0].
  - cbn in Hin. intuition discriminate.
  - assert (Hc : Ascii.eqb (lower_char c) "." = true /\
                 PyStr.contains "." (py_lower ext0) = false /\
                 PyStr.contains "/" (py_lower ext0) = false).
    { cbn [py_lower] in Hin. unfold audio_extensions in Hin. cbn [In] in Hin.
      repeat destruct Hin as [Hin | Hin]; try contradiction;
        injection Hin as <- <-; repeat split; reflexivity. }
    destruct Hc as (Hc & Hd & Hs).
    rewrite lower_char_dot in Hc. apply Ascii.eqb_eq in Hc. subst c.
    rewrite contains_dot_lower in Hd. rewrite contains_sep_lower in Hs.
    now exists ext0.
Qed.

Lemma has_audio_extension_app (stem ext : string) :
  In (py_lower ext) audio_extensions -> has_audio_extension (stem ++ ext) = true.
Proof.
  intros Hin. unfold has_audio_extension. apply existsb_exists.
  exists (py_lower ext). split; [exact Hin |].
  rewrite py_lower_app. apply py_endswith_app.
Qed.

Lemma scan_finds_stem (p stem rest : string) :
  only_dots stem = false ->
  existsb
    (fun filenameIndex =>
       match String.get filenameIndex (p ++ stem ++ rest) with
       | Some c => negb (Ascii.eqb c ".")
       | None => true
       end)
    (seq (String.length p) (String.length stem)) = true.
Proof.
  revert p. induction stem as [| c stem IH]; intros p; cbn [only_dots]; [discriminate |].
  intros H. cbn [String.length seq existsb append].
  rewrite get_app_at.
  destruct (Ascii.eqb c ".") eqn:Hc; cbn [negb orb andb] in *; [| reflexivity].
  specialize (IH (p ++ String c EmptyString)%string H).
  rewrite string_length_app in IH. cbn [String.length] in IH.
  replace (String.length p + 1)%nat with (S (String.length p)) in IH by lia.
  rewrite string_app_assoc in IH. exact IH.
Qed.

(** The root of [stem.ext] is [stem]. *)
Lemma splitext_root_stem (stem ext0 : string) :
  only_dots stem = false ->
  PyStr.contains "/" stem = false ->
  PyStr.contains "." ext0 = false ->
  PyStr.contains "/" ext0 = false ->
  splitext_root (stem ++ String "." ext0) = stem.
Proof.
  intros Hstem Hsep Hdot Hsep0. unfold splitext_root, py_rfind.
  rewrite !rfind_from_app. cbn [rfind_from].
  replace (Ascii.eqb "." "/") with false by reflexivity.
  replace (Ascii.eqb "." ".") with true by reflexivity.
  rewrite (rfind_from_none "/" ext0) by assumption.
  rewrite (rfind_from_none "/" stem) by assumption.
  rewrite (rfind_from_none "." ext0) by assumption.
  replace (0 + Z.of_nat (String.length stem)) with (Z.of_nat (String.length stem)) by lia.
  replace (-1 <? Z.of_nat (String.length stem)) with true
    by (symmetry; apply Z.ltb_lt; lia).
  change (-1 + 1) with 0. change (Z.to_nat 0) with 0%nat.
  replace (Z.to_nat (Z.of_nat (String.length stem) - 0))
    with (String.length stem) by lia.
  pose proof (scan_finds_stem EmptyString stem (String "." ext0) Hstem) as Hscan.
  cbn [append String.length] in Hscan. rewrite Hscan.
  rewrite Nat2Z.id. apply substring_app.
Qed.

(** ** The name of the saved file *)

Lemma chars_app (a b : string) :
  list_ascii_of_string (a ++ b) = list_ascii_of_string a ++ list_ascii_of_string b.
Proof.
  induction a as [| c a IH]; cbn [append list_ascii_of_string app];
    [reflexivity | now rewrite IH].
Qed.

Lemma chars_length (s : string) :
  List.length (list_ascii_of_string s) = String.length s.
Proof.
  induction s as [| c s IH]; cbn [list_ascii_of_string List.length String.length];
    [reflexivity | now rewrite IH].
Qed.

Lemma re_sub_alnum (s : string) :
  Forall (fun c => is_alnum c = true) (list_ascii_of_string (re_sub_non_alnum s)).
Proof.
  induction s as [| c s IH]; cbn [re_sub_non_alnum list_ascii_of_string];
    [constructor |].
  destruct (is_alnum c) eqn:Hc; [| exact IH].
  cbn [list_ascii_of_string]. now constructor.
Qed.

Lemma substring_prefix_chars (P : ascii -> Prop) (n : nat) (s : string) :
  Forall P (list_ascii_of_string s) ->
  Forall P (list_ascii_of_string (substring 0 n s)) /\
  (String.length (substring 0 n s) <= n)%nat.
Proof.
  revert s. induction n as [| n IH]; intros s Hs.
  - destruct s; cbn; split; try constructor; lia.
  - destruct s as [| c s]; cbn [substring list_ascii_of_string String.length].
    + split; [constructor | lia].
    + inversion Hs as [| ? ? Hc Hs']; subst. destruct (IH s Hs') as (H1 & H2).
      split; [now constructor | lia].
Qed.

Lemma digit_char (k : nat) : (k < 10)%nat -> is_digit (ascii_of_nat (48 + k)) = true.
Proof.
  intros H. do 10 (destruct k as [| k]; [reflexivity |]). lia.
Qed.

Lemma two_digits_chars (n : nat) :
  (n < 100)%nat ->
  Forall (fun c => is_digit c = true) (list_ascii_of_string (two_digits n)) /\
  String.length (two_digits n) = 2%nat.
Proof.
  intros H. unfold two_digits. cbn [list_ascii_of_string String.length].
  split; [| reflexivity].
  repeat constructor; apply digit_char.
  - apply Nat.Div0.div_lt_upper_bound. lia.
  - apply Nat.mod_upper_bound. lia.
Qed.

Lemma strftime_chars (t : datetime) :
  valid_datetime t ->
  Forall (fun c => is_digit c = true) (list_ascii_of_string (strftime t)) /\
  String.length (strftime t) = 12%nat.
Proof.
  intros (Hm & Hd & Hh & Hmi & Hs). unfold strftime.
  assert (Hy : (year t mod 100 < 100)%nat) by (apply Nat.mod_upper_bound; lia).
  destruct (two_digits_chars (year t mod 100) Hy) as (A1 & B1).
  destruct (two_digits_chars (month t) ltac:(lia)) as (A2 & B2).
  destruct (two_digits_chars (day t) ltac:(lia)) as (A3 & B3).
  destruct (two_digits_chars (hour t) ltac:(lia)) as (A4 & B4).
  destruct (two_digits_chars (minute t) ltac:(lia)) as (A5 & B5).
  destruct (two_digits_chars (second t) ltac:(lia)) as (A6 & B6).
  rewrite !chars_app, !string_length_app, B1, B2, B3, B4, B5, B6.
  split; [| reflexivity]. repeat (apply Forall_app; split); assumption.
Qed.

Lemma chars_without (c : ascii) (P : ascii -> Prop) (s : string) :
  (forall d, P d -> Ascii.eqb d c = false) ->
  Forall P (list_ascii_of_string s) -> PyStr.contains c s = false.
Proof.
  intros HP. induction s as [| d s IH]; cbn [list_ascii_of_string PyStr.contains];
    [reflexivity |].
  intros H. inversion H as [| ? ? Hd Hs]; subst.
  now rewrite (HP d Hd), IH.
Qed.

Lemma alnum_not_sep (c : ascii) : is_alnum c = true -> Ascii.eqb c "/" = false.
Proof. destruct c as [[] [] [] [] [] [] [] []]; vm_compute; congruence. Qed.

Lemma digit_not_sep (c : ascii) : is_digit c = true -> Ascii.eqb c "/" = false.
Proof. destruct c as [[] [] [] [] [] [] [] []]; vm_compute; congruence. Qed.

(** Joining a directory and a name without a separator puts the name
    directly under the directory. *)
Lemma os_path_join_name (dir name : string) :
  PyStr.contains "/" name = false ->
  os_path_join dir name = (dir ++ name)%string \/
  os_path_join dir name = (dir ++ "/" ++ name)%string.
Proof.
  intros H. unfold os_path_join, PyStr.startswith.
  assert (Hp : String.prefix "/" name = false).
  { destruct name as [| c name]; [reflexivity |].
    cbn [PyStr.contains] in H. apply orb_false_iff in H. destruct H as (Hc & _).
    cbn [String.prefix]. destruct (ascii_dec "/" c) as [<- | _]; [discriminate | reflexivity]. }
  rewrite Hp. destruct (PyStr.is_empty dir || py_endswith dir "/"); auto.
Qed.

(** The stem of the file name: up to ten letters and digits of the script,
    "audio" when it has none. *)
Lemma save_filename_shape (h : Host) (script : string) :
  valid_datetime (datetime_now h) ->
  exists stem timestamp,
    save_filename h script = (stem ++ "_" ++ timestamp ++ ".wav")%string /\
    (stem = substring 0 10 (re_sub_non_alnum script) \/
     (substring 0 10 (re_sub_non_alnum script) = EmptyString /\ stem = "audio"%string)) /\
    (1 <= String.length stem <= 10)%nat /\
    Forall (fun c => is_alnum c = true) (list_ascii_of_string stem) /\
    String.length timestamp = 12%nat /\
    Forall (fun c => is_digit c = true) (list_ascii_of_string timestamp) /\
    PyStr.contains "/" (save_filename h script) = false.
Proof.
  intros Hv. destruct (strftime_chars _ Hv) as (Hts & Hlen).
  destruct (substring_prefix_chars _ 10 _ (re_sub_alnum script)) as (Hfc & Hfl).
  unfold save_filename.
  set (fc := substring 0 10 (re_sub_non_alnum script)) in *.
  assert (Hstem : exists stem,
             (if PyStr.is_empty fc then "audio"%string else fc) = stem /\
             (stem = fc \/ (fc = EmptyString /\ stem = "audio"%string)) /\
             (1 <= String.length stem <= 10)%nat /\
             Forall (fun c => is_alnum c = true) (list_ascii_of_string stem)).
  { destruct fc as [| c fc'] eqn:Hfc'; cbn [PyStr.is_empty].
    - exists "audio"%string. repeat split; auto; cbn; try lia. repeat constructor.
    - eexists. split; [reflexivity |]. split; [now left |]. split; [| exact Hfc].
      cbn [String.length] in *. lia. }
  destruct Hstem as (stem & -> & Hor & Hl & Ha).
  exists stem, (strftime (datetime_now h)). repeat split; try assumption; try lia.
  rewrite !contains_app.
  rewrite (chars_without "/" _ stem alnum_not_sep Ha).
  rewrite (chars_without "/" _ _ digit_not_sep Hts). reflexivity.
Qed.

(** ** What a validated request is *)

(** X1: pydantic accepts a body exactly when the script is there,
    [num_speakers] (2 when absent) is between 1 and 4, [cfg_scale] (1.3 when
    absent) is between 1.0 and 2.0, and the speakers, when some are named,
    are as many as [num_speakers]; the request then carries these values. *)
Theorem validate_request_accepts_exactly (body : RequestBody)
  (request : GenerationRequest) :
  validate_request body = inr request <->
  body_script body = Some (script request) /\
  num_speakers request = requested_num_speakers body /\
  1 <= num_speakers request <= 4 /\
  speakers request = match body_speakers body with Some l => l | None => [] end /\
  (speakers request = [] \/
   Z.of_nat (List.length (speakers request)) = num_speakers request) /\
  cfg_scale request
    = match body_cfg_scale body with Some c => c | None => (13 # 10)%Q end /\
  (1 <= cfg_scale request <= 2)%Q.
Proof.
  split.
  - apply validate_request_inv.
  - intros (Hs & Hn1 & Hn2 & Hl1 & Hl2 & Hc1 & Hc2).
    now apply validate_request_intro.
Qed.

(** ** The formatted script *)

(** X2: whatever the script, every line the formatting produces has the
    speaker format (it starts with "Speaker " and contains ":"), is not
    empty, has no white space at either end and no line break inside; and
    there are as many of them as the script has lines that are not blank. *)
Theorem formatted_lines_are_speaker_turns (n : Z) (script : string)
  (ls : list string) :
  format_script_lines n script = Ok ls ->
  Forall speaker_turn ls /\
  List.length ls = List.length (script_lines script).
Proof. apply format_script_lines_turns. Qed.

Lemma formatted_lines_are_speaker_turns_witness :
  Forall speaker_turn ["Speaker 1: Hello"; "Speaker 2: World"]%string /\
  List.length ["Speaker 1: Hello"; "Speaker 2: World"]%string
  = List.length (script_lines Sample.hello_world).
Proof.
  apply (formatted_lines_are_speaker_turns 2 Sample.hello_world). reflexivity.
Defined.

(** X3: formatting is idempotent: a script that came out of the formatting
    goes through it unchanged, for any number of speakers. *)
Theorem format_script_idempotent (n m : Z) (script formatted : string) :
  format_script n script = Ok formatted ->
  format_script m formatted = Ok formatted.
Proof.
  unfold format_script. intros H. inv_bind H. injection H as <-.
  destruct (format_script_lines_turns _ _ _ Ha) as (Hall & _).
  destruct a as [| p ls]; [reflexivity |].
  destruct (join_turns_tight (p :: ls) ltac:(discriminate) Hall) as (Hne & Hl & Hr).
  unfold format_script_lines. rewrite (tight_strip _ Hl Hr).
  rewrite split_join.
  - rewrite format_loop_fixed by assumption. reflexivity.
  - discriminate.
  - eapply Forall_impl; [| exact Hall]. now intros l (_ & _ & _ & Hnl).
Qed.

Lemma format_script_idempotent_witness :
  format_script 4 (PyStr.join (String PyStr.nl EmptyString)
                     ["Speaker 1: Hello"; "Speaker 2: World"]%string)
  = Ok (PyStr.join (String PyStr.nl EmptyString)
          ["Speaker 1: Hello"; "Speaker 2: World"]%string).
Proof.
  apply (format_script_idempotent 2 4 Sample.hello_world). reflexivity.
Defined.

(** X4: a script that passes the emptiness check of the handlers (it has
    something else than white space) never gives an empty formatted
    script: at least one line is kept, and the text handed to the processor
    is not empty and has no white space at either end. *)
Theorem nonblank_script_formats_nonempty (n : Z) (script formatted : string) :
  PyStr.is_empty (PyStr.strip script) = false ->
  format_script n script = Ok formatted ->
  formatted <> EmptyString /\
  PyStr.strip formatted = formatted /\
  exists l ls,
    format_script_lines n script = Ok (l :: ls) /\
    formatted = PyStr.join (String PyStr.nl EmptyString) (l :: ls).
Proof.
  intros Hne H. apply is_empty_false in Hne.
  unfold format_script in H. inv_bind H. injection H as <-.
  destruct (format_script_lines_turns _ _ _ Ha) as (Hall & Hlen).
  pose proof (script_lines_nonempty _ Hne) as Hsl.
  destruct a as [| l ls].
  - destruct (script_lines script); [congruence | discriminate].
  - destruct (join_turns_tight (l :: ls) ltac:(discriminate) Hall) as (Hn & Hl & Hr).
    split; [exact Hn |]. split; [now apply tight_strip |]. eauto.
Qed.

Lemma nonblank_script_formats_nonempty_witness :
  PyStr.join (String PyStr.nl EmptyString)
    ["Speaker 1: Hello"; "Speaker 2: World"]%string <> EmptyString.
Proof.
  apply (nonblank_script_formats_nonempty 2 Sample.hello_world); reflexivity.
Defined.

(** ** The speakers of a request *)

(** X5: when no speakers are named, [generate_podcast] selects the preset
    names among the first [num_speakers] that are available, followed by
    the first voices of the dict, in its order, that are not among them,
    up to [num_speakers] in all. *)
Theorem default_selection_closed_form (srv : VibeVoiceServer) (n : Z) :
  NoDup (available_speakers srv) ->
  default_selection srv n
  = preset_speakers srv n
      ++ firstn (Z.to_nat (n - Z.of_nat (List.length (preset_speakers srv n))))
           (other_speakers srv (preset_speakers srv n)).
Proof. apply default_selection_fill. Qed.

Lemma default_selection_closed_form_witness :
  default_selection Sample.srv 1 = ["en-Alice_woman"]%string ++ firstn 0 ["en-Carter_man"]%string.
Proof.
  apply (default_selection_closed_form Sample.srv 1).
  repeat constructor; cbn; intuition discriminate.
Defined.

(** X6: the speakers [generate_podcast] selects by default are all
    available and distinct, and they number [num_speakers] or, when there
    are fewer voices, all the voices; so the check "Speaker not found"
    never fails on them. *)
Theorem default_selection_sound (srv : VibeVoiceServer) (n : Z) :
  NoDup (available_speakers srv) ->
  0 <= n ->
  NoDup (default_selection srv n) /\
  Forall (known_speaker srv) (default_selection srv n) /\
  Z.of_nat (List.length (default_selection srv n))
    = Z.min n (Z.of_nat (List.length (available_voices srv))) /\
  check_speakers srv (default_selection srv n) = Ok tt.
Proof. apply default_selection_facts. Qed.

Lemma default_selection_sound_witness :
  check_speakers Sample.srv (default_selection Sample.srv 4) = Ok tt /\
  Z.of_nat (List.length (default_selection Sample.srv 4)) = 2.
Proof.
  destruct (default_selection_sound Sample.srv 4) as (_ & _ & Hl & Hc).
  - repeat constructor; cbn; intuition discriminate.
  - lia.
  - split; [exact Hc | exact Hl].
Defined.

(** X7: the check of the speakers passes exactly when every selected
    speaker is a key of the voices; otherwise it answers 400 with the first
    selected speaker that is not, and none after it is looked at. *)
Theorem check_speakers_reports_first_unknown (srv : VibeVoiceServer)
  (selected : list string) :
  (Forall (known_speaker srv) selected /\ check_speakers srv selected = Ok tt) \/
  (exists known speaker rest,
      selected = known ++ speaker :: rest /\
      Forall (known_speaker srv) known /\
      dict_mem speaker (available_voices srv) = false /\
      check_speakers srv selected
      = Raise (HTTPException 400 ("Speaker '" ++ speaker ++ "' not found")%string)).
Proof.
  destruct (first_unknown srv selected)
    as [Hk | (known & speaker & rest & -> & Hk & Hu)].
  - left. split; [exact Hk | now apply check_speakers_known].
  - right. exists known, speaker, rest. repeat split; try assumption.
    now apply check_speakers_unknown.
Qed.

(** X8: once the check of the speakers has passed, loading the voice
    samples never fails on a missing key: it gives one waveform per
    selected speaker, in order, each read from that speaker's file and not
    empty, or it answers 500 naming the first speaker whose file reads as
    no samples, every speaker before that one having a file that reads as
    some. *)
Theorem load_voice_samples_after_check (w : World) (srv : VibeVoiceServer)
  (selected : list string) :
  check_speakers srv selected = Ok tt ->
  (exists voice_samples,
      load_voice_samples w srv selected = Ok voice_samples /\
      Forall2 (fun speaker audio =>
                 exists path, In (speaker, path) (available_voices srv) /\
                              dict_get speaker (available_voices srv) = Ok path /\
                              audio = read_audio w path /\ audio <> [])
        selected voice_samples) \/
  (exists loaded speaker rest path,
      selected = loaded ++ speaker :: rest /\
      Forall (fun earlier =>
                exists path', dict_get earlier (available_voices srv) = Ok path' /\
                              read_audio w path' <> [])
        loaded /\
      dict_get speaker (available_voices srv) = Ok path /\
      read_audio w path = [] /\
      load_voice_samples w srv selected
      = Raise (HTTPException 500 ("Failed to load audio for " ++ speaker)%string)).
Proof.
  intros H. apply check_speakers_ok_known in H.
  unfold load_voice_samples.
  destruct (load_loop w srv selected [] H)
    as [(samples & Hl & Hf) | (ld & sp & rest & p & Hsel & Hld & Hg & Hr & Hl)].
  - left. exists samples. now split.
  - right. exists ld, sp, rest, p. auto.
Qed.

Lemma load_voice_samples_after_check_witness :
  exists voice_samples,
    load_voice_samples Sample.world Sample.srv ["en-Carter_man"]%string
    = Ok voice_samples.
Proof.
  destruct (load_voice_samples_after_check Sample.world Sample.srv
              ["en-Carter_man"]%string eq_refl)
    as [(vs & Hl & _) | (ld & sp & rest & p & _ & _ & _ & _ & Hl)].
  - exists vs. exact Hl.
  - discriminate Hl.
Defined.

(** X9: for a request that validated and names its speakers, the two
    endpoints prepare the generation alike: the same speakers (the slice
    [speakers[:num_speakers]] of [generate_podcast_wav] is the whole list),
    the same formatted script and the same call of the processor, so the
    same error if there is one. *)
Theorem named_speakers_prepare_alike (w : World) (srv : VibeVoiceServer)
  (body : RequestBody) (request : GenerationRequest) :
  validate_request body = inr request ->
  speakers request <> [] ->
  py_prefix (num_speakers request) (speakers request) = speakers request /\
  prepare_generate_wav w srv request = prepare_generate w srv request.
Proof.
  intros Hv Hne. apply validate_request_inv in Hv.
  destruct Hv as (_ & _ & _ & _ & [Hl | Hl] & _); [congruence |].
  assert (Hp : py_prefix (num_speakers request) (speakers request) = speakers request)
    by (rewrite <- Hl; apply py_prefix_all).
  split; [exact Hp |].
  unfold prepare_generate_wav, prepare_generate.
  destruct (PyStr.is_empty (PyStr.strip (script request))); cbn [bind]; [reflexivity |].
  destruct (speakers request) as [| s l] eqn:Hs; [congruence |].
  cbn [bind]. rewrite Hp.
  destruct (check_speakers srv (s :: l)); cbn [bind]; [| reflexivity].
  destruct (load_voice_samples w srv (s :: l)); cbn [bind]; [| reflexivity].
  now rewrite format_script_strip.
Qed.

Lemma named_speakers_prepare_alike_witness :
  py_prefix 2 ["en-Carter_man"; "en-Alice_woman"]%string
  = ["en-Carter_man"; "en-Alice_woman"]%string /\
  prepare_generate_wav Sample.world Example.srv Example.request_named
  = prepare_generate Sample.world Example.srv Example.request_named.
Proof.
  apply (named_speakers_prepare_alike Sample.world Example.srv Example.body_named
           Example.request_named).
  - vm_compute. reflexivity.
  - discriminate.
Defined.

(** ** The loop and the worker *)

(** X10: at every moment of a run, whatever the schedule, the chunks the
    loop has collected are the conversions of the first chunks the worker
    produces, in order: none is lost, repeated or moved.  Once the loop has
    ended they are the conversions of all the chunks produced before the
    stream was closed, and a loop that raised did so on one of them. *)
Theorem collected_chunks_are_a_prefix (wk : worker) (schedule : list turn) :
  match consumer (run schedule (start wk)) with
  | Iterating all_audio_chunks =>
      exists taken later,
        produced_chunks wk = taken ++ later /\
        Forall2 (fun c q => convert_to_16_bit_wav (flatten_chunk c) = Ok q)
          taken all_audio_chunks
  | LoopEnded all_audio_chunks =>
      Forall2 (fun c q => convert_to_16_bit_wav (flatten_chunk c) = Ok q)
        (produced_chunks wk) all_audio_chunks
  | LoopRaised e =>
      exists c, In c (produced_chunks wk) /\
                convert_to_16_bit_wav (flatten_chunk c) = Raise e
  end.
Proof.
  pose proof (bridge_inv_run _ schedule _ (bridge_inv_start wk)) as Hinv.
  destruct (consumer (run schedule (start wk))) as [acc | acc | e] eqn:Hc.
  - destruct (bridge_inv_iterating _ _ _ Hinv Hc) as (consumed & rest & Hall & Hd).
    apply drain_iterating in Hd. destruct Hd as (cs & qs & -> & -> & Hf).
    exists cs, (chunks_before_stop rest). split; [| exact Hf].
    unfold produced_chunks. rewrite Hall. apply chunks_before_stop_app.
  - rewrite (bridge_inv_final _ _ Hinv) in Hc by (intros a; rewrite Hc; discriminate).
    apply drain_ended in Hc. destruct Hc as (_ & qs & -> & Hf). exact Hf.
  - rewrite (bridge_inv_final _ _ Hinv) in Hc by (intros a; rewrite Hc; discriminate).
    now apply drain_raised in Hc.
Qed.

(** X11: what the worker does after it has closed the stream never shows:
    under every schedule both endpoints answer as they would to the worker
    that stops at its first [End]. *)
Theorem actions_after_end_are_ignored (w : World) (srv : VibeVoiceServer)
  (request : GenerationRequest) (wk : worker) (schedule : list turn) :
  generate_podcast w srv request wk schedule
    = generate_podcast w srv request (cut_at_end wk) schedule /\
  generate_podcast_wav w srv request wk schedule
    = generate_podcast_wav w srv request (cut_at_end wk) schedule.
Proof.
  unfold generate_podcast, generate_podcast_wav.
  now rewrite !(stream_and_finish_cut w wk).
Qed.

(** X12: a generation that goes well is answered.  When the request
    reaches the generation, the worker closes the stream after at least one
    chunk, every chunk has samples and a single axis once squeezed, the
    sample rate is positive and soundfile writes the file, then, once both
    threads have run long enough, [generate_podcast] responds with status
    "success", that sample rate, and a duration of the total number of
    samples over the rate. *)
Theorem generation_succeeds (w : World) (srv : VibeVoiceServer)
  (request : GenerationRequest) (wk : worker) (r : Z)
  (schedule : list turn) (n : nat) :
  reaches_generation w srv request ->
  env_sample_rate w = Ok r ->
  0 < r ->
  (forall a, exists bytes, sf_write w a r = Ok bytes) ->
  closes wk ->
  produced_chunks wk <> [] ->
  Forall playable_chunk (produced_chunks wk) ->
  (List.length (actions wk) <= n)%nat ->
  exists resp,
    generate_podcast w srv request wk (schedule ++ settle n) = Responds resp /\
    status resp = "success"%string /\
    sample_rate resp = r /\
    duration resp
    = Qmake (Z.of_nat (List.length (all_samples (produced_chunks wk)))) (Z.to_pos r).
Proof.
  intros Hreach Hr Hpos Hsf Hclose Hne Hplay Hn.
  destruct (playable_convert _ Hplay) as (qs & Hf & Hsh & Hlen).
  assert (Hqs : qs <> []).
  { intros ->. inversion Hf as [Hnil |]. congruence. }
  destruct (combine_one_axis qs Hqs Hsh) as (audio_data & Hcomb & Hshape & Hitems).
  rewrite Hlen in Hshape, Hitems.
  pose proof (measure_one_axis w audio_data _ r Hr Hpos Hshape) as Hmeasure.
  assert (Hsome : items audio_data <> []).
  { intros Hnil. rewrite Hnil in Hitems. cbn [List.length] in Hitems.
    destruct (produced_chunks wk) as [| c cs]; [congruence |].
    inversion Hplay as [| ? ? (_ & Hc & _) _]; subst.
    unfold all_samples in Hitems. cbn [map List.concat] in Hitems.
    rewrite length_app in Hitems.
    destruct (items (chunk_to_numpy c)); [congruence | cbn [List.length] in Hitems; lia]. }
  destruct (convert_nonempty _ Hsome) as (q16 & Hq16 & _).
  destruct (Hsf q16) as (bytes & Hbytes).
  exists {| status := "success"; audio_base64 := b64encode bytes;
            duration := Qmake (Z.of_nat (List.length (all_samples (produced_chunks wk))))
                          (Z.to_pos r);
            sample_rate := r |}.
  split; [| repeat split].
  rewrite generate_podcast_reached by assumption.
  rewrite (stream_and_finish_settled w wk schedule n _ r Hr Hn).
  apply stream_items_stop in Hclose.
  destruct (split_at_stop _ Hclose) as (rest & Hitems').
  rewrite Hitems'. fold (produced_chunks wk).
  rewrite (drain_converts _ _ _ _ Hf). cbn [app].
  unfold finish_generate, audio_to_base64.
  rewrite Hcomb, bind_ret, Hmeasure, bind_ret, Hq16, bind_ret, Hbytes, !bind_ret.
  reflexivity.
Qed.

Lemma generation_succeeds_witness :
  exists resp,
    generate_podcast Sample.world Sample.srv Sample.request Sample.wk
      ([] ++ settle 3) = Responds resp /\
    status resp = "success"%string /\
    sample_rate resp = 24000 /\
    duration resp = (3 # 24000)%Q.
Proof.
  apply (generation_succeeds Sample.world Sample.srv Sample.request Sample.wk
           24000 [] 3).
  - exact sample_reaches_generation.
  - reflexivity.
  - lia.
  - intros a. eexists. reflexivity.
  - cbn. auto.
  - discriminate.
  - repeat constructor; cbn; discriminate.
  - cbn. lia.
Defined.

(** X13: the same for [generate_podcast_wav]: under the same conditions
    it responds with the file soundfile wrote from the converted audio, and
    the header [X-Duration] is the total number of samples over the rate. *)
Theorem wav_generation_succeeds (w : World) (srv : VibeVoiceServer)
  (request : GenerationRequest) (wk : worker) (r : Z)
  (schedule : list turn) (n : nat) :
  reaches_generation_wav w srv request ->
  env_sample_rate w = Ok r ->
  0 < r ->
  (forall a, exists bytes, sf_write w a r = Ok bytes) ->
  closes wk ->
  produced_chunks wk <> [] ->
  Forall playable_chunk (produced_chunks wk) ->
  (List.length (actions wk) <= n)%nat ->
  exists resp audio_data audio_16bit,
    generate_podcast_wav w srv request wk (schedule ++ settle n) = Responds resp /\
    assembled_audio wk (schedule ++ settle n) = Some audio_data /\
    convert_to_16_bit_wav audio_data = Ok audio_16bit /\
    sf_write w audio_16bit r = Ok (wav_bytes resp) /\
    x_duration resp
    = Qmake (Z.of_nat (List.length (all_samples (produced_chunks wk)))) (Z.to_pos r).
Proof.
  intros Hreach Hr Hpos Hsf Hclose Hne Hplay Hn.
  destruct (playable_convert _ Hplay) as (qs & Hf & Hsh & Hlen).
  assert (Hqs : qs <> []).
  { intros ->. inversion Hf as [Hnil |]. congruence. }
  destruct (combine_one_axis qs Hqs Hsh) as (audio_data & Hcomb & Hshape & Hitems).
  rewrite Hlen in Hshape, Hitems.
  pose proof (measure_one_axis w audio_data _ r Hr Hpos Hshape) as Hmeasure.
  assert (Hsome : items audio_data <> []).
  { intros Hnil. rewrite Hnil in Hitems. cbn [List.length] in Hitems.
    destruct (produced_chunks wk) as [| c cs]; [congruence |].
    inversion Hplay as [| ? ? (_ & Hc & _) _]; subst.
    unfold all_samples in Hitems. cbn [map List.concat] in Hitems.
    rewrite length_app in Hitems.
    destruct (items (chunk_to_numpy c)); [congruence | cbn [List.length] in Hitems; lia]. }
  destruct (convert_nonempty _ Hsome) as (q16 & Hq16 & _).
  destruct (Hsf q16) as (bytes & Hbytes).
  assert (Hdrain : drain (stream_items wk) [] = LoopEnded qs).
  { apply stream_items_stop in Hclose.
    destruct (split_at_stop _ Hclose) as (rest & Hitems').
    rewrite Hitems'. fold (produced_chunks wk).
    now rewrite (drain_converts _ _ _ _ Hf). }
  exists {| wav_bytes := bytes;
            x_duration := Qmake (Z.of_nat (List.length (all_samples (produced_chunks wk))))
                            (Z.to_pos r) |}, audio_data, q16.
  split; [| split; [| repeat split; assumption]].
  - rewrite generate_podcast_wav_reached by assumption.
    rewrite (stream_and_finish_settled w wk schedule n _ r Hr Hn), Hdrain.
    unfold finish_generate_wav.
    rewrite Hcomb, bind_ret, Hmeasure, bind_ret, Hq16, bind_ret, Hbytes, !bind_ret.
    reflexivity.
  - apply (assembled_audio_ended wk _ qs); [| exact Hcomb].
    rewrite run_settles by assumption. exact Hdrain.
Qed.

Lemma wav_generation_succeeds_witness :
  exists resp audio_data audio_16bit,
    generate_podcast_wav Sample.world Sample.srv Sample.request Sample.wk
      ([] ++ settle 3) = Responds resp /\
    assembled_audio Sample.wk ([] ++ settle 3) = Some audio_data /\
    convert_to_16_bit_wav audio_data = Ok audio_16bit /\
    sf_write Sample.world audio_16bit 24000 = Ok (wav_bytes resp) /\
    x_duration resp = (3 # 24000)%Q.
Proof.
  apply (wav_generation_succeeds Sample.world Sample.srv Sample.request Sample.wk
           24000 [] 3).
  - exact sample_reaches_generation_wav.
  - reflexivity.
  - lia.
  - intros a. eexists. reflexivity.
  - cbn. auto.
  - discriminate.
  - repeat constructor; cbn; discriminate.
  - cbn. lia.
Defined.

(** X14: a first chunk without an axis once squeezed (a single sample
    under a batch axis, shape (1, 1), or a scalar) is converted, but the
    concatenation refuses it: when all the chunks have samples and the
    worker closes the stream, [generate_podcast] answers 500 "Generation
    failed: zero-dimensional arrays cannot be concatenated". *)
Theorem scalar_first_chunk_fails (w : World) (srv : VibeVoiceServer)
  (request : GenerationRequest) (wk : worker) (c : audio_chunk)
  (cs : list audio_chunk) (schedule : list turn) (n : nat) :
  reaches_generation w srv request ->
  closes wk ->
  produced_chunks wk = c :: cs ->
  shape (flatten_chunk c) = [] ->
  Forall (fun c => items (chunk_to_numpy c) <> []) (c :: cs) ->
  (List.length (actions wk) <= n)%nat ->
  generate_podcast w srv request wk (schedule ++ settle n)
  = Fails 500 "Generation failed: zero-dimensional arrays cannot be concatenated".
Proof.
  intros Hreach Hclose Hprod Hshape Hall Hn.
  assert (Hconv : forall l, Forall (fun c => items (chunk_to_numpy c) <> []) l ->
            exists qs,
              Forall2 (fun c q => convert_to_16_bit_wav (flatten_chunk c) = Ok q) l qs /\
              Forall2 (fun c q => shape q = shape (flatten_chunk c)) l qs).
  { induction 1 as [| c0 l Hc0 Hl (qs & Hf & Hs)].
    - exists []. split; constructor.
    - rewrite <- flatten_chunk_items in Hc0.
      destruct (convert_nonempty _ Hc0) as (q & Hq & Hqs & _).
      exists (q :: qs). split; now constructor. }
  destruct (Hconv _ Hall) as (qs & Hf & Hs).
  inversion Hs as [| ? q ? qs' Hq Hs']; subst.
  destruct Hreach as (Hinit & Hprep & r & Hr).
  rewrite generate_podcast_reached by (repeat split; eauto).
  rewrite (stream_and_finish_settled w wk schedule n _ r Hr Hn).
  apply stream_items_stop in Hclose.
  destruct (split_at_stop _ Hclose) as (rest & Hitems).
  rewrite Hitems. fold (produced_chunks wk). rewrite Hprod.
  rewrite (drain_converts _ _ _ _ Hf). cbn [app].
  unfold finish_generate, combine_chunks, np_concatenate.
  rewrite Hq, Hshape. reflexivity.
Qed.

Lemma scalar_first_chunk_fails_witness :
  generate_podcast Sample.world Sample.srv Sample.request Example.wk_scalar
    ([] ++ settle 2)
  = Fails 500 "Generation failed: zero-dimensional arrays cannot be concatenated".
Proof.
  apply (scalar_first_chunk_fails Sample.world Sample.srv Sample.request
           Example.wk_scalar
           (Tensor Float32 (mk_ndarray [1; 1]%nat [Sample.half])) [] [] 2).
  - exact sample_reaches_generation.
  - cbn. auto.
  - reflexivity.
  - reflexivity.
  - repeat constructor; cbn; discriminate.
  - cbn. lia.
Defined.

(** ** The range of the converted samples *)

(** X15: when [convert_to_16_bit_wav] rescales (the peak is above 1.0) and
    the peak is finite, some sample has the magnitude of the peak, and every
    such sample comes out at full scale exactly: 32767, or -32767 for a
    negative one. *)
Theorem rescaled_peak_is_full_scale (data : ndarray float32) (m : positive) (e : Z) :
  np_max (np_abs data) = Ok (S754_finite false m e) ->
  F32.ltb f32_one (S754_finite false m e) = true ->
  convert_to_16_bit_wav data
  = Ok (mk_ndarray (shape data)
          (map (quantise_rescaled (S754_finite false m e)) (items data))) /\
  (exists s, In (S754_finite s m e) (items data)) /\
  (forall s, quantise_rescaled (S754_finite false m e) (S754_finite s m e)
             = full_scale s).
Proof.
  intros Hp Hlt. split; [now apply convert_rescaled |]. split.
  - destruct (np_max_abs_attained _ _ Hp) as (x & Hin & Hx).
    destruct x as [s | s | | s m' e']; try discriminate.
    injection Hx as -> ->. now exists s.
  - intros s. unfold quantise_rescaled. rewrite div_self.
    replace (xorb s false) with s by now destruct s.
    apply quantise_unit.
Qed.

Lemma rescaled_peak_is_full_scale_witness :
  quantise_rescaled f32_two f32_two = 32767 /\
  quantise_rescaled f32_two (S754_finite true 8388608 (-22)) = -32767.
Proof.
  destruct (rescaled_peak_is_full_scale
              (mk_ndarray [3%nat] [Sample.half; f32_two; f32_minus_one])
              8388608 (-22)) as (_ & _ & H).
  - vm_compute. reflexivity.
  - vm_compute. reflexivity.
  - split; [exact (H false) | exact (H true)].
Defined.

(** X16: when the peak is at most 1.0 nothing wraps around: for
    well-formed samples every output sample is the integer part of the
    sample times 32767, and lies between -32767 and 32767. *)
Theorem unscaled_samples_fit (data : ndarray float32) (peak : float32) :
  np_max (np_abs data) = Ok peak ->
  F32.leb peak f32_one = true ->
  Forall (fun x => F32.valid x = true) (items data) ->
  convert_to_16_bit_wav data
  = Ok (mk_ndarray (shape data) (map quantise (items data))) /\
  Forall (fun x => exists t,
              unrescaled_value x = Some t /\
              quantise x = t /\
              -32767 <= t <= 32767)
    (items data).
Proof.
  intros Hp Hle Hv. split.
  - apply (convert_unscaled _ _ Hp). now apply leb_one_not_above.
  - pose proof (peak_one_bounds _ _ Hp
                  (leb_one_at_most_one _ (peak_sign_clear _ _ Hp) Hle)) as Hone.
    rewrite Forall_forall in *. intros x Hx.
    destruct (sample_fits x (Hv x Hx) (Hone x Hx)) as (t & Ht & Hq & Hb).
    exists t. repeat split; try assumption; lia.
Qed.

Lemma unscaled_samples_fit_witness :
  convert_to_16_bit_wav (mk_ndarray [2%nat] [Sample.half; f32_minus_one])
  = Ok (mk_ndarray [2%nat] [16383; -32767]).
Proof.
  destruct (unscaled_samples_fit (mk_ndarray [2%nat] [Sample.half; f32_minus_one])
              (S754_finite false 8388608 (-23))) as (H & _).
  - vm_compute. reflexivity.
  - vm_compute. reflexivity.
  - repeat constructor.
  - rewrite H. vm_compute. reflexivity.
Defined.

(** X17: [convert_to_16_bit_wav] never wraps around on a waveform: when
    every sample is a well-formed finite value, every output sample lies
    between -32767 and 32767, whether the buffer was rescaled or not. *)
Theorem convert_never_wraps (data : ndarray float32) (q : ndarray Z) :
  Forall (fun x => F32.valid x = true /\ is_sample x) (items data) ->
  convert_to_16_bit_wav data = Ok q ->
  shape q = shape data /\
  List.length (items q) = List.length (items data) /\
  Forall (fun z => -32767 <= z <= 32767) (items q).
Proof. apply convert_in_range. Qed.

Lemma convert_never_wraps_witness :
  Forall (fun z => -32767 <= z <= 32767) [8191; 32767; -16383].
Proof.
  destruct (convert_never_wraps
              (mk_ndarray [3%nat] [Sample.half; f32_two; f32_minus_one])
              (mk_ndarray [3%nat] [8191; 32767; -16383])) as (_ & _ & H).
  - repeat constructor.
  - vm_compute. reflexivity.
  - exact H.
Defined.

(** ** The voices of the server *)

(** X18: the voices [setup_voice_presets] registers are in strictly
    ascending order of their names, so no name comes twice; [GET /voices]
    lists them in that order with their number. *)
Theorem voice_presets_sorted (h : Host) (srv : VibeVoiceServer) :
  setup_voice_presets h = Ok (available_voices srv) ->
  ascending (fst (get_voices srv)) /\
  NoDup (fst (get_voices srv)) /\
  snd (get_voices srv) = Z.of_nat (List.length (fst (get_voices srv))).
Proof.
  intros H. destruct (setup_voice_presets_facts _ _ H) as (Hasc & _).
  unfold get_voices. cbn [fst snd]. split; [exact Hasc |].
  split; [now apply ascending_NoDup | now rewrite length_map].
Qed.

Lemma voice_presets_sorted_witness :
  ascending (fst (get_voices Example.srv)) /\
  NoDup (fst (get_voices Example.srv)) /\
  snd (get_voices Example.srv) = Z.of_nat (List.length (fst (get_voices Example.srv))).
Proof.
  apply (voice_presets_sorted Example.host Example.srv). vm_compute. reflexivity.
Defined.

(** X19: every registered voice is the root of the name of a regular file
    of the voices directory that ends in one of the six audio extensions,
    in any capitalisation, with the path of that file; every such file has
    its root registered; and without the directory there are no voices. *)
Theorem voice_presets_are_the_voice_files (h : Host) (d : list (string * string)) :
  setup_voice_presets h = Ok d ->
  let voices_dir := os_getenv h "VOICES_DIR" "voices" in
  (forall name path,
      In (name, path) d ->
      exists files file,
        listdir h voices_dir = Ok files /\ In file files /\
        is_voice_file h voices_dir file = true /\
        name = splitext_root file /\ path = os_path_join voices_dir file) /\
  (forall files file,
      path_exists h voices_dir = true ->
      listdir h voices_dir = Ok files -> In file files ->
      is_voice_file h voices_dir file = true ->
      dict_mem (splitext_root file) d = true) /\
  (path_exists h voices_dir = false -> d = []).
Proof.
  intros H. destruct (setup_voice_presets_facts _ _ H) as (_ & H1 & H2 & H3).
  cbv zeta. auto.
Qed.

Lemma voice_presets_are_the_voice_files_witness :
  dict_mem (splitext_root "en-Carter_man.WAV") Example.voices = true.
Proof.
  destruct (voice_presets_are_the_voice_files Example.host Example.voices)
    as (_ & H & _).
  - vm_compute. reflexivity.
  - apply (H ["en-Carter_man.WAV"; "notes.txt"; "en-Alice_woman.wav"; ".mp3"]%string);
      [reflexivity | reflexivity | cbn; auto | reflexivity].
Defined.

(** X20: a regular file of the voices directory named [stem] followed by
    an audio extension, in any capitalisation, is registered under the name
    [stem], provided [stem] has no separator and is not made of dots only;
    the path under that name is that of a voice file with this root. *)
Theorem voice_name_is_file_stem (h : Host) (d : list (string * string))
  (files : list string) (stem ext : string) :
  let voices_dir := os_getenv h "VOICES_DIR" "voices" in
  setup_voice_presets h = Ok d ->
  path_exists h voices_dir = true ->
  listdir h voices_dir = Ok files ->
  In (stem ++ ext)%string files ->
  In (py_lower ext) audio_extensions ->
  isfile h (os_path_join voices_dir (stem ++ ext)) = true ->
  only_dots stem = false ->
  PyStr.contains "/" stem = false ->
  splitext_root (stem ++ ext) = stem /\
  exists file,
    dict_get stem d = Ok (os_path_join voices_dir file) /\
    In file files /\ is_voice_file h voices_dir file = true /\
    splitext_root file = stem.
Proof.
  cbv zeta. intros Hsetup Hex Hls Hin Hext Hfile Hstem Hsep.
  destruct (audio_extension_shape _ Hext) as (ext0 & -> & Hdot & Hsep0).
  assert (Hroot : splitext_root (stem ++ String "." ext0) = stem)
    by now apply splitext_root_stem.
  split; [exact Hroot |].
  destruct (setup_voice_presets_facts _ _ Hsetup) as (_ & H1 & H2 & _).
  cbv zeta in H1, H2.
  assert (Hvoice : is_voice_file h (os_getenv h "VOICES_DIR" "voices")
                     (stem ++ String "." ext0) = true).
  { unfold is_voice_file. rewrite Hfile, andb_true_r.
    now apply has_audio_extension_app. }
  specialize (H2 _ _ Hex Hls Hin Hvoice). rewrite Hroot in H2.
  unfold dict_mem in H2. unfold dict_get.
  destruct (find (fun kv => String.eqb (fst kv) stem) d) as [(k, v) |] eqn:Hf.
  - apply find_some in Hf. destruct Hf as (Hkv & Hk). cbn [fst] in Hk.
    apply String.eqb_eq in Hk. subst k.
    destruct (H1 _ _ Hkv) as (files' & file & Hls' & Hin' & Hv' & Hname & ->).
    rewrite Hls in Hls'. injection Hls' as <-.
    exists file. cbn [snd]. auto.
  - apply existsb_exists in H2. destruct H2 as (kv & Hkv & Hk).
    eapply find_none in Hf; [| exact Hkv]. cbv beta in Hf. congruence.
Qed.

Lemma voice_name_is_file_stem_witness :
  splitext_root "en-Carter_man.WAV" = "en-Carter_man"%string /\
  exists file,
    dict_get "en-Carter_man" Example.voices = Ok (os_path_join "voices" file) /\
    In file ["en-Carter_man.WAV"; "notes.txt"; "en-Alice_woman.wav"; ".mp3"]%string /\
    is_voice_file Example.host "voices" file = true /\
    splitext_root file = "en-Carter_man"%string.
Proof.
  apply (voice_name_is_file_stem Example.host Example.voices
           ["en-Carter_man.WAV"; "notes.txt"; "en-Alice_woman.wav"; ".mp3"]%string
           "en-Carter_man" ".WAV").
  - vm_compute. reflexivity.
  - reflexivity.
  - reflexivity.
  - cbn. auto.
  - cbn. auto.
  - reflexivity.
  - reflexivity.
  - reflexivity.
Defined.

(** X21: on a server whose voices come from [setup_voice_presets], a
    request that validated and names no speakers never fails the check of
    the speakers in [generate_podcast]: the default selection is made of
    distinct available voices, [num_speakers] of them or, when there are
    fewer, all the voices. *)
Theorem default_speakers_found_after_setup (h : Host) (srv : VibeVoiceServer)
  (body : RequestBody) (request : GenerationRequest) :
  setup_voice_presets h = Ok (available_voices srv) ->
  validate_request body = inr request ->
  speakers request = [] ->
  let selected_speakers := default_selection srv (num_speakers request) in
  check_speakers srv selected_speakers = Ok tt /\
  NoDup selected_speakers /\
  Z.of_nat (List.length selected_speakers)
    = Z.min (num_speakers request) (Z.of_nat (List.length (available_voices srv))).
Proof.
  intros Hsetup Hv _. cbv zeta.
  destruct (setup_voice_presets_facts _ _ Hsetup) as (Hasc & _).
  apply ascending_NoDup in Hasc.
  apply validate_request_inv in Hv. destruct Hv as (_ & _ & Hn & _).
  destruct (default_selection_facts srv (num_speakers request) Hasc ltac:(lia))
    as (H1 & _ & H3 & H4).
  auto.
Qed.

Lemma default_speakers_found_after_setup_witness :
  check_speakers Example.srv (default_selection Example.srv 2) = Ok tt /\
  NoDup (default_selection Example.srv 2) /\
  Z.of_nat (List.length (default_selection Example.srv 2)) = Z.min 2 3.
Proof.
  apply (default_speakers_found_after_setup Example.host Example.srv
           Example.body_plain Sample.request).
  - vm_compute. reflexivity.
  - vm_compute. reflexivity.
  - reflexivity.
Defined.

(** ** The saved file *)

(** X22: when [save_audio_file] returns a path, saving was switched on
    ([SAVE_GENERATED_AUDIO] reads "true" in some capitalisation), the
    directory was made and one file written, with the converted audio, at
    the returned path; the file name is one to ten letters and digits (the
    first of the script, or "audio"), an underscore, twelve digits and
    ".wav", it has no separator, and so the file lies directly in the
    output directory whatever the script says. *)
Theorem saved_file_is_inside_output_directory (h : Host)
  (audio_data : ndarray float32) (sample_rate : Z) (script path : string) :
  valid_datetime (datetime_now h) ->
  snd (save_audio_file h audio_data sample_rate script) = Some path ->
  let output_dir := os_getenv h "OUTPUT_DIRECTORY" "outputs" in
  py_lower (os_getenv h "SAVE_GENERATED_AUDIO" "false") = "true"%string /\
  (exists audio_16bit,
      convert_to_16_bit_wav audio_data = Ok audio_16bit /\
      fst (save_audio_file h audio_data sample_rate script)
      = [Makedirs output_dir; SfWrite path audio_16bit sample_rate]) /\
  exists stem timestamp,
    let filename := (stem ++ "_" ++ timestamp ++ ".wav")%string in
    (path = (output_dir ++ filename)%string \/
     path = (output_dir ++ "/" ++ filename)%string) /\
    PyStr.contains "/" filename = false /\
    (stem = substring 0 10 (re_sub_non_alnum script) \/
     (substring 0 10 (re_sub_non_alnum script) = EmptyString /\ stem = "audio"%string)) /\
    (1 <= String.length stem <= 10)%nat /\
    Forall (fun c => is_alnum c = true) (list_ascii_of_string stem) /\
    String.length timestamp = 12%nat /\
    Forall (fun c => is_digit c = true) (list_ascii_of_string timestamp).
Proof.
  intros Hv. unfold save_audio_file.
  destruct (String.eqb_spec (py_lower (os_getenv h "SAVE_GENERATED_AUDIO" "false")) "true")
    as [Hon | Hoff]; cbn [negb]; [| discriminate].
  destruct (makedirs h _); [| discriminate].
  destruct (convert_to_16_bit_wav audio_data) as [audio_16bit |]; [| discriminate].
  destruct (sf_write_file h _ audio_16bit sample_rate); [| discriminate].
  cbn [fst snd]. intros [= <-]. cbv zeta.
  split; [exact Hon |]. split; [now exists audio_16bit |].
  destruct (save_filename_shape h script Hv)
    as (stem & ts & Hname & Hstem & Hl & Ha & Hlt & Hd & Hsep).
  exists stem, ts. rewrite Hname in *.
  repeat split; try assumption; try lia.
  now apply os_path_join_name.
Qed.

Lemma saved_file_is_inside_output_directory_witness :
  exists stem timestamp,
    ("outputs/etcpasswd_250309140559.wav"
     = "outputs" ++ stem ++ "_" ++ timestamp ++ ".wav" \/
     "outputs/etcpasswd_250309140559.wav"
     = "outputs" ++ "/" ++ stem ++ "_" ++ timestamp ++ ".wav")%string /\
    PyStr.contains "/" (stem ++ "_" ++ timestamp ++ ".wav") = false.
Proof.
  destruct (saved_file_is_inside_output_directory Example.host_saving
              (mk_ndarray [1%nat] [Sample.half]) 24000 "../../etc/passwd"
              "outputs/etcpasswd_250309140559.wav")
    as (_ & _ & stem & ts & Hpath & Hsep & _).
  - unfold valid_datetime. cbn. lia.
  - vm_compute. reflexivity.
  - exists stem, ts. split; [exact Hpath | exact Hsep].
Defined.

(** ** The audio of the response *)

(** X23: the audio [generate_podcast] returns is normalised a second time.
    The chunks are collected as 16-bit integers and go through
    [convert_to_16_bit_wav] once more as numbers; so when the generated
    samples are well-formed finite values, the WAV of the response has no
    sample beyond full scale and, unless every collected sample is zero,
    one at full scale (32767 in magnitude), however quiet the audio was. *)
Theorem response_audio_is_normalised (w : World) (srv : VibeVoiceServer)
  (request : GenerationRequest) (wk : worker) (schedule : list turn)
  (resp : GenerationResponse) :
  generate_podcast w srv request wk schedule = Responds resp ->
  Forall (fun c => Forall (fun x => F32.valid x = true /\ is_sample x)
                     (items (chunk_to_numpy c)))
    (produced_chunks wk) ->
  exists all_audio_chunks audio_data audio_16bit wav_bytes,
    Forall2 (fun c q => convert_to_16_bit_wav (flatten_chunk c) = Ok q)
      (produced_chunks wk) all_audio_chunks /\
    combine_chunks all_audio_chunks = Ok audio_data /\
    convert_to_16_bit_wav audio_data = Ok audio_16bit /\
    sf_write w audio_16bit (sample_rate resp) = Ok wav_bytes /\
    audio_base64 resp = b64encode wav_bytes /\
    Forall (fun v => -32767 <= v <= 32767) (items audio_16bit) /\
    ((exists z, In z (List.concat (map items all_audio_chunks)) /\ z <> 0) ->
     exists v, In v (items audio_16bit) /\ Z.abs v = 32767).
Proof.
  intros Hresp Hvalid.
  destruct (generate_podcast_responds _ _ _ _ _ _ Hresp)
    as (_ & chunks & _ & Hdrain & Hfin).
  apply drain_ended in Hdrain. destruct Hdrain as (_ & qs & -> & Hconv).
  cbn [app] in *. fold (produced_chunks wk) in Hconv.
  assert (Hr : Forall (fun z => -32767 <= z <= 32767) (List.concat (map items qs))).
  { clear Hfin Hresp. induction Hconv as [| c q cs qs Hq Hconv IH];
      [constructor |].
    inversion Hvalid as [| ? ? Hc Hcs]; subst. cbn [map List.concat].
    apply Forall_app. split; [| now apply IH].
    apply (convert_in_range (flatten_chunk c)); [| exact Hq].
    now rewrite flatten_chunk_items. }
  destruct (finish_generate_ok _ _ _ Hfin) as (audio_data & Hcomb & _ & Hb64 & _).
  unfold audio_to_base64 in Hb64. inv_bind Hb64. inv_bind Hb64.
  injection Hb64 as Hb64.
  destruct (combine_chunks_items _ _ Hcomb) as (_ & Hitems).
  exists qs, audio_data, a, a0. repeat split; auto.
  - apply (convert_in_range audio_data); [| assumption].
    rewrite Hitems. apply Forall_map. eapply Forall_impl; [| exact Hr].
    intros z Hz. cbv beta in Hz |- *. apply of_Z_sample. lia.
  - intros Hnz. destruct audio_data as [sh its]. cbn [items] in Hitems. subst its.
    exact (convert_integers_full_scale _ sh a Hr Hnz Ha).
Qed.

Lemma response_audio_is_normalised_witness :
  exists all_audio_chunks audio_16bit,
    Forall2 (fun c q => convert_to_16_bit_wav (flatten_chunk c) = Ok q)
      (produced_chunks Sample.wk) all_audio_chunks /\
    Forall (fun v => -32767 <= v <= 32767) (items audio_16bit) /\
    ((exists z, In z (List.concat (map items all_audio_chunks)) /\ z <> 0) ->
     exists v, In v (items audio_16bit) /\ Z.abs v = 32767).
Proof.
  destruct (response_audio_is_normalised Sample.world Sample.srv Sample.request
              Sample.wk Sample.schedule
              {| status := "success"; audio_base64 := "/z//H/9/";
                 duration := (3 # 24000)%Q; sample_rate := 24000 |})
    as (qs & audio_data & audio_16bit & wav_bytes & H1 & _ & _ & _ & _ & H2 & H3).
  - exact sample_response.
  - repeat constructor.
  - exists qs, audio_16bit. auto.
Defined.

(** ** When the voices are few *)

(** X24: with fewer voices than [num_speakers] and no speakers named, the
    two endpoints part: [generate_podcast_wav] answers 400 "Requested ...
    speakers but only ... available", while [generate_podcast] goes on with
    every voice there is, each once. *)
Theorem few_voices_endpoints_differ (w : World) (srv : VibeVoiceServer)
  (request : GenerationRequest) :
  NoDup (available_speakers srv) ->
  speakers request = [] ->
  PyStr.is_empty (PyStr.strip (script request)) = false ->
  Z.of_nat (List.length (available_voices srv)) < num_speakers request ->
  prepare_generate_wav w srv request
  = Raise (HTTPException 400
             ("Requested " ++ PyStr.of_int (num_speakers request)
              ++ " speakers but only "
              ++ PyStr.of_int (Z.of_nat (List.length (available_voices srv)))
              ++ " available")%string) /\
  let selected_speakers := default_selection srv (num_speakers request) in
  check_speakers srv selected_speakers = Ok tt /\
  NoDup selected_speakers /\
  (forall speaker, In speaker selected_speakers <-> known_speaker srv speaker).
Proof.
  intros Hnd Hsp Hne Hfew. split.
  - unfold prepare_generate_wav. rewrite Hne, Hsp. cbn [bind].
    rewrite length_map.
    replace (Z.of_nat (List.length (available_voices srv)) <? num_speakers request)
      with true by (symmetry; now apply Z.ltb_lt).
    reflexivity.
  - cbv zeta.
    destruct (default_selection_facts srv (num_speakers request) Hnd ltac:(lia))
      as (H1 & H2 & H3 & H4).
    split; [exact H4 |]. split; [exact H1 |].
    intros speaker. rewrite Forall_forall in H2. split; [apply H2 |].
    intros Hk. apply dict_mem_In in Hk.
    assert (Hincl : incl (available_speakers srv)
                      (default_selection srv (num_speakers request))).
    { apply NoDup_length_incl; [exact H1 | |].
      - unfold available_speakers. rewrite length_map. lia.
      - intros x Hx. apply dict_mem_In. now apply H2. }
    exact (Hincl _ Hk).
Qed.

Lemma few_voices_endpoints_differ_witness :
  prepare_generate_wav Sample.world Sample.srv
    {| script := Sample.hello_world; num_speakers := 4; speakers := [];
       cfg_scale := (13 # 10)%Q |}
  = Raise (HTTPException 400 "Requested 4 speakers but only 2 available") /\
  check_speakers Sample.srv (default_selection Sample.srv 4) = Ok tt.
Proof.
  destruct (few_voices_endpoints_differ Sample.world Sample.srv
              {| script := Sample.hello_world; num_speakers := 4; speakers := [];
                 cfg_scale := (13 # 10)%Q |}) as (H1 & H2 & _).
  - repeat constructor; cbn; intuition discriminate.
  - reflexivity.
  - reflexivity.
  - cbn. lia.
  - split; [exact H1 | exact H2].
Defined.
